(** * SawitDB: a shallow embedding of the storage and execution core

    The development follows the JavaScript sources of the engine:
    the worker pool ([ThreadPool]), the statement parser ([QueryParser]),
    the table scan of the engine ([SawitDB._scanTable]), the insert
    executor, the index and schema managers, the statement dispatcher
    ([SawitDB.query]) and the network front-end ([SawitServer]).

    Conventions.
    - A JavaScript string is a [string]: a sequence of code units, here
      restricted to the range 0..255.
    - A function that may raise returns a [res]: [Ok v] for a normal
      return, [Throw msg] for a raised [Error] whose [message] is [msg].
    - A function whose loops are not bounded by its input takes a fuel
      argument and returns [option (res _)]; [None] means that the fuel
      ran out before the function returned.
    - A plain object used as a record of named fields is an association
      list in insertion order (own enumerable properties); where the
      source reads a name through an object that may only inherit it,
      the names of [Object.prototype] are counted in.
    - A buffer is a list of bytes; the numbers in a page are written
      with the low byte first. *)

From stdpp Require Import base list gmap strings.
From Stdlib Require Import ZArith Lia String Ascii.
From Stdlib Require Strings.Byte.

Open Scope string_scope.
Set Warnings "-register-all".

(** ** Results of functions that may raise *)

Inductive res (A : Type) : Type :=
| Ok (a : A)
| Throw (msg : string).
Arguments Ok {A} a.
Arguments Throw {A} msg.

Definition res_bind {A B} (r : res A) (k : A -> res B) : res B :=
  match r with
  | Ok a => k a
  | Throw m => Throw m
  end.

Notation "'let*' x ':=' r 'in' k" := (res_bind r (fun x => k))
  (at level 10, x pattern, r at level 100, k at level 200).

Definition is_ok {A} (r : res A) : bool :=
  match r with Ok _ => true | Throw _ => false end.

(** ** The worker pool (src/server: class ThreadPool, and the worker script) *)

Module ThreadPool.

(** The worker script keeps [dbCache], a map from the absolute path of a
    database file to the handle it opened; only its key set matters for
    routing. *)
Record worker := { dbCache : gset string }.

(** The coordinator. [workers] has holes ([None]) where no [Worker]
    object is stored; [pendingRequests] maps a request id to the index of
    the worker it was posted to. *)
Record pool := {
  workerCount : nat;
  workers : list (option worker);
  isReady : bool;
  pendingRequests : gmap nat nat;
  requestIdCounter : nat;
  workerStats : list nat;
  activeTasks : list nat
}.

(** [new ThreadPool(n)] followed by [start()]: every slot is spawned with
    an empty cache, every counter is zero. *)
Definition start (n : nat) : pool :=
  {| workerCount := n;
     workers := replicate n (Some {| dbCache := ∅ |});
     isReady := true;
     pendingRequests := ∅;
     requestIdCounter := 0;
     workerStats := replicate n 0;
     activeTasks := replicate n 0 |}.

(** [load < minLoad], where [minLoad] starts at [Infinity] ([None]). *)
Definition lt_minLoad (load : nat) (minLoad : option nat) : bool :=
  match minLoad with
  | None => true
  | Some m => Nat.ltb load m
  end.

(** One iteration of the loop of [_getBestWorker] at index [i]; the
    accumulator is [(minLoad, bestIndex)]. *)
Definition best_step (p : pool) (acc : option nat * nat) (i : nat)
  : option nat * nat :=
  match workers p !! i with
  | Some (Some _) =>
      match activeTasks p !! i with
      | Some load => if lt_minLoad load (fst acc) then (Some load, i) else acc
      | None => acc
      end
  | _ => acc
  end.

Definition _getBestWorker (p : pool) : nat :=
  snd (foldl (best_step p) (None, 0) (seq 0 (workerCount p))).

(** The worker's side of a posted task with [action = 'query']: the
    database is opened and cached unless the path is already cached. *)
Definition worker_on_query (w : worker) (dbPath : string) : worker :=
  {| dbCache := {[dbPath]} ∪ dbCache w |}.

Definition incr (i : nat) (l : list nat) : list nat :=
  match l !! i with
  | Some x => <[i := S x]> l
  | None => l
  end.

(** [execute(dbPath, sql, config)] up to and including [postMessage]:
    the result is the index of the worker that receives the task. The
    task is delivered to that worker, which opens [dbPath]. *)
Definition execute (p : pool) (dbPath sql : string) : res nat * pool :=
  if negb (isReady p) then (Throw "ThreadPool not started", p) else
  let workerIndex := _getBestWorker p in
  match workers p !! workerIndex with
  | Some (Some w) =>
      let id := S (requestIdCounter p) in
      (Ok workerIndex,
       {| workerCount := workerCount p;
          workers := <[workerIndex := Some (worker_on_query w dbPath)]> (workers p);
          isReady := isReady p;
          pendingRequests := <[id := workerIndex]> (pendingRequests p);
          requestIdCounter := id;
          workerStats := incr workerIndex (workerStats p);
          activeTasks := incr workerIndex (activeTasks p) |})
  | _ => (Throw "Worker unavailable (restarting)", p)
  end.

Definition decr (i : nat) (l : list nat) : list nat :=
  match l !! i with
  | Some (S x) => <[i := x]> l
  | _ => l
  end.

(** [_handleMessage(msg)]: the reply to request [id] arrives. *)
Definition _handleMessage (p : pool) (id : nat) : pool :=
  match pendingRequests p !! id with
  | None => p
  | Some workerIndex =>
      {| workerCount := workerCount p;
         workers := workers p;
         isReady := isReady p;
         pendingRequests := delete id (pendingRequests p);
         requestIdCounter := requestIdCounter p;
         workerStats := workerStats p;
         activeTasks := decr workerIndex (activeTasks p) |}
  end.

(** The ['exit'] handler installed by [_spawnWorker(index)] for a non-zero
    exit code: [_cleanupTasks(index)] drops the pending requests of the
    dead worker, its load is reset and a fresh worker (with an empty
    cache) is stored in the slot. *)
Definition _cleanupTasks (p : pool) (workerIndex : nat) : gmap nat nat :=
  filter (fun kv => snd kv ≠ workerIndex) (pendingRequests p).

Definition on_exit (p : pool) (index : nat) : pool :=
  {| workerCount := workerCount p;
     workers := <[index := Some {| dbCache := ∅ |}]> (workers p);
     isReady := isReady p;
     pendingRequests := _cleanupTasks p index;
     requestIdCounter := requestIdCounter p;
     workerStats := workerStats p;
     activeTasks := <[index := 0]> (activeTasks p) |}.

(** States the coordinator can be in: after [start], after a dispatched
    query, after a reply, after a worker crashed and was respawned. *)
Inductive reachable : pool -> Prop :=
| reach_start n : reachable (start n)
| reach_execute p dbPath sql :
    reachable p -> reachable (snd (execute p dbPath sql))
| reach_reply p id :
    reachable p -> reachable (_handleMessage p id)
| reach_exit p index :
    reachable p -> (index < workerCount p)%nat -> reachable (on_exit p index).

(** Worker [i] is spawned and carries [load] active tasks. *)
Definition spawned (p : pool) (i load : nat) : Prop :=
  (∃ w, workers p !! i = Some (Some w)) ∧ activeTasks p !! i = Some load.

Definition candidate (p : pool) (i load : nat) : Prop :=
  (i < workerCount p)%nat ∧ spawned p i load.

(** The shape every coordinator state has: one load counter per slot and
    no worker stored beyond [workerCount]. *)
Definition well_formed (p : pool) : Prop :=
  List.length (activeTasks p) = workerCount p ∧
  (List.length (workers p) <= workerCount p)%nat.

(** The routing property as the specification words it: a path that is
    open in worker [w] is routed to [w]. *)
Definition sticky_routing : Prop :=
  ∀ p dbPath sql w wk i,
    reachable p ->
    workers p !! w = Some (Some wk) ->
    dbPath ∈ dbCache wk ->
    fst (execute p dbPath sql) = Ok i ->
    i = w.

(** The loop invariant of [_getBestWorker] after the indices below [n]. *)
Definition best_inv (p : pool) (n : nat) (acc : option nat * nat) : Prop :=
  match fst acc with
  | None => snd acc = 0 ∧ ∀ j lj, (j < n)%nat -> ¬ spawned p j lj
  | Some m =>
      (snd acc < n)%nat ∧ spawned p (snd acc) m ∧
      ∀ j lj, (j < n)%nat -> spawned p j lj ->
              (m <= lj)%nat ∧ (lj = m -> (snd acc <= j)%nat)
  end.

End ThreadPool.

(** ** Primitives of the JavaScript runtime

    The numbers and the conversions between strings and numbers belong
    to the runtime, not to the repository: they are taken as an interface,
    the type [num] of the numbers apart from the operations. [Number_ s] is
    [Number(s)] on a string, with [None] for [NaN];
    [parseInt10 t] is [parseInt(t, 10)] on a token that may be
    [undefined]; [num_to_string n] is [String(n)]. *)

Class Numbers := { num : Type }.

Class Runtime `{NT : Numbers} := {
  Number_ : string -> option num;
  parseInt10 : option string -> option num;
  num_to_string : num -> string
}.

(** ** Strings *)

Module Str.

Definition code (c : ascii) : nat := nat_of_ascii c.

Definition between (lo hi : nat) (c : ascii) : bool :=
  Nat.leb lo (code c) && Nat.leb (code c) hi.

Definition is_digit (c : ascii) : bool := between 48 57 c.
Definition is_lower (c : ascii) : bool := between 97 122 c.
Definition is_upper (c : ascii) : bool := between 65 90 c.

(** [[a-zA-Z_]] and [\w]. *)
Definition is_alpha_ (c : ascii) : bool :=
  is_lower c || is_upper c || Nat.eqb (code c) 95.
Definition is_word (c : ascii) : bool := is_alpha_ c || is_digit c.

(** [\s] on code units below 256: tab, line feed, vertical tab, form feed,
    carriage return, space and no-break space. *)
Definition is_space (c : ascii) : bool :=
  between 9 13 c || Nat.eqb (code c) 32 || Nat.eqb (code c) 160.

(** The characters that [.] does not match (no [s] flag). *)
Definition is_line_terminator (c : ascii) : bool :=
  Nat.eqb (code c) 10 || Nat.eqb (code c) 13.

Definition upper_char (c : ascii) : ascii :=
  if is_lower c then ascii_of_nat (code c - 32) else c.

(** [s.toUpperCase()]. Letters outside ASCII are left as they are: the
    strings that are compared with keywords are ASCII identifiers or
    begin with a quote. *)
Fixpoint toUpperCase (s : string) : string :=
  match s with
  | EmptyString => EmptyString
  | String c s' => String (upper_char c) (toUpperCase s')
  end.

Definition quote_char (c : ascii) : bool :=
  Nat.eqb (code c) 39 || Nat.eqb (code c) 34.

(** The test that a token starts with a single or a double quote. *)
Definition starts_with_quote (s : string) : bool :=
  match s with
  | String c _ => quote_char c
  | EmptyString => false
  end.

Fixpoint drop_last (s : string) : string :=
  match s with
  | EmptyString => EmptyString
  | String c EmptyString => EmptyString
  | String c s' => String c (drop_last s')
  end.

(** [s.slice(1, -1)]. *)
Definition slice_1_m1 (s : string) : string :=
  match s with
  | EmptyString => EmptyString
  | String _ s' => drop_last s'
  end.

(** [s.startsWith(p)]. *)
Fixpoint startsWith (s p : string) : bool :=
  match p, s with
  | EmptyString, _ => true
  | String a p', String b s' => if ascii_dec a b then startsWith s' p' else false
  | String _ _, EmptyString => false
  end.

(** [l.includes(s)] on an array of strings. *)
Definition includes (l : list string) (s : string) : bool :=
  existsb (String.eqb s) l.

(** [l.join] with a single space as separator. *)
Fixpoint join_space (l : list string) : string :=
  match l with
  | [] => EmptyString
  | [x] => x
  | x :: l' => x ++ " " ++ join_space l'
  end.

End Str.

(** An instance of the runtime on integers, used to run the definitions
    on concrete statements: [Number] and [parseInt] read an optional minus
    sign followed by decimal digits, and the empty string is zero for
    [Number]. *)

Module IntRuntime.
Import Str.

Fixpoint digits_value (s : string) (acc : Z) : option Z :=
  match s with
  | EmptyString => Some acc
  | String c s' =>
      if is_digit c
      then digits_value s' (10 * acc + Z.of_nat (code c - 48))%Z
      else None
  end.

Definition unsigned (s : string) : option Z :=
  match s with
  | EmptyString => None
  | _ => digits_value s 0%Z
  end.

Definition signed (s : string) : option Z :=
  match s with
  | String c s' =>
      if Nat.eqb (code c) 45 then Z.opp <$> unsigned s' else unsigned s
  | EmptyString => None
  end.

Definition Number_int (s : string) : option Z :=
  match s with
  | EmptyString => Some 0%Z
  | _ => signed s
  end.

Definition parseInt_int (t : option string) : option Z :=
  match t with
  | Some s => signed s
  | None => None
  end.

#[export] Instance int_numbers : Numbers := {| num := Z |}.

(** The decimal digits of a natural number, the last digit first. *)
Fixpoint digits_rev (fuel n : nat) : list ascii :=
  match fuel with
  | 0 => []
  | S fuel' =>
      ascii_of_nat (48 + n mod 10)
      :: (if Nat.ltb n 10 then [] else digits_rev fuel' (n / 10))
  end.

Definition string_of_int (z : Z) : string :=
  let n := Z.abs_nat z in
  let ds := string_of_list_ascii (rev (digits_rev (S n) n)) in
  if Z.ltb z 0 then String (ascii_of_nat 45) ds else ds.

#[export] Instance int_runtime : Runtime :=
  {| Number_ := Number_int; parseInt10 := parseInt_int;
     num_to_string := string_of_int |}.

End IntRuntime.

(** ** The statement parser (src/modules/QueryParser.js) *)

Module QueryParser.
Import Str.

(** *** tokenize

    The token expression is, between two runs of white space, the first
    of seven alternatives that matches: a two-character operator; an
    identifier with an optional dotted part; a named parameter; a
    number with optional sign and fraction; a single-quoted string; a
    double-quoted string; a punctuation character. [exec] retries one
    character further when no alternative matches. *)

Fixpoint span (p : ascii -> bool) (cs : list ascii) : list ascii * list ascii :=
  match cs with
  | c :: cs' =>
      if p c then let '(a, b) := span p cs' in (c :: a, b) else ([], cs)
  | [] => ([], [])
  end.

Definition two_char_ops : list string := ["=>"; "!="; ">="; "<="; "<>"].

Definition lex_op2 (cs : list ascii) : option (list ascii * list ascii) :=
  match cs with
  | a :: b :: rest =>
      if includes two_char_ops (String a (String b EmptyString))
      then Some ([a; b], rest) else None
  | _ => None
  end.

Definition lex_ident (cs : list ascii) : option (list ascii * list ascii) :=
  match cs with
  | c :: rest =>
      if is_alpha_ c then
        let '(w, rest1) := span is_word rest in
        match rest1 with
        | dot :: d :: rest2 =>
            if Nat.eqb (code dot) 46 && is_alpha_ d then
              let '(w2, rest3) := span is_word rest2 in
              Some ((c :: w ++ dot :: d :: w2)%list, rest3)
            else Some (c :: w, rest1)
        | _ => Some (c :: w, rest1)
        end
      else None
  | [] => None
  end.

Definition lex_param (cs : list ascii) : option (list ascii * list ascii) :=
  match cs with
  | c :: rest =>
      if Nat.eqb (code c) 64 then
        match span is_word rest with
        | ([], _) => None
        | (w, rest1) => Some (c :: w, rest1)
        end
      else None
  | [] => None
  end.

Definition lex_digits (cs : list ascii) : option (list ascii * list ascii) :=
  match span is_digit cs with
  | ([], _) => None
  | (ds, rest) =>
      match rest with
      | dot :: rest1 =>
          if Nat.eqb (code dot) 46 then
            match span is_digit rest1 with
            | ([], _) => Some (ds, rest)
            | (fs, rest2) => Some ((ds ++ dot :: fs)%list, rest2)
            end
          else Some (ds, rest)
      | [] => Some (ds, rest)
      end
  end.

Definition lex_number (cs : list ascii) : option (list ascii * list ascii) :=
  match cs with
  | c :: rest =>
      if Nat.eqb (code c) 45 then
        match lex_digits rest with
        | Some (t, r) => Some (c :: t, r)
        | None => None
        end
      else lex_digits cs
  | [] => None
  end.

(** The body and the closing quote of a quoted string: any character but
    the quote and the backslash, or a backslash followed by a character
    that is not a line terminator. *)
Fixpoint lex_quoted_body (q : ascii) (cs : list ascii)
  : option (list ascii * list ascii) :=
  match cs with
  | [] => None
  | c :: rest =>
      if Nat.eqb (code c) (code q) then Some ([c], rest)
      else if Nat.eqb (code c) 92 then
        match rest with
        | d :: rest' =>
            if is_line_terminator d then None
            else match lex_quoted_body q rest' with
                 | Some (t, r) => Some (c :: d :: t, r)
                 | None => None
                 end
        | [] => None
        end
      else match lex_quoted_body q rest with
           | Some (t, r) => Some (c :: t, r)
           | None => None
           end
  end.

Definition lex_quoted (cs : list ascii) : option (list ascii * list ascii) :=
  match cs with
  | q :: rest =>
      if quote_char q then
        match lex_quoted_body q rest with
        | Some (t, r) => Some (q :: t, r)
        | None => None
        end
      else None
  | [] => None
  end.

Definition punctuation : list nat := [40; 41; 44; 61; 42; 46; 60; 62; 63].

Definition lex_punct (cs : list ascii) : option (list ascii * list ascii) :=
  match cs with
  | c :: rest =>
      if existsb (Nat.eqb (code c)) punctuation then Some ([c], rest) else None
  | [] => None
  end.

Definition first_of {A B} (fs : list (A -> option B)) (a : A) : option B :=
  foldr (fun f r => match f a with Some b => Some b | None => r end) None fs.

Definition lex_token : list ascii -> option (list ascii * list ascii) :=
  first_of [lex_op2; lex_ident; lex_param; lex_number; lex_quoted; lex_punct].

Fixpoint tokenize_loop (fuel : nat) (cs : list ascii) : list string :=
  match fuel with
  | 0 => []
  | S fuel' =>
      match snd (span is_space cs) with
      | [] => []
      | c :: rest =>
          match lex_token (c :: rest) with
          | Some (t, r) => string_of_list_ascii t :: tokenize_loop fuel' r
          | None => tokenize_loop fuel' rest
          end
      end
  end.

(** Every iteration consumes a character, so the length of the text
    bounds the number of iterations. *)
Definition tokenize (sql : string) : list string :=
  tokenize_loop (S (String.length sql)) (list_ascii_of_string sql).

(** *** Values, criteria and commands *)

Section Parser.
Context `{RT : Runtime}.

(** A JavaScript value as the parser and the executors see it. *)
Inductive value :=
| VUndefined
| VNull
| VBool (b : bool)
| VNum (n : num)
| VStr (s : string)
| VArr (items : list value).

(** An object literal built by [parseWhere]: a single condition
    [{type: 'cond', key, op, val}], a connective [{type: 'logic', op}], or
    a node [{type: 'compound', logic, conditions}] whose array may hold
    [undefined] entries ([None]). *)
Inductive node :=
| NCond (key op : string) (val : value)
| NLogic (op : string)
| NCompound (logic : string) (conditions : list (option node)).

(** [x.op] on such an object. *)
Definition node_op (n : node) : option string :=
  match n with
  | NCond _ op _ => Some op
  | NLogic op => Some op
  | NCompound _ _ => None
  end.

(** The message of the [TypeError] raised by a property access on
    [undefined]. *)
Definition type_error (prop : string) : string :=
  "Cannot read properties of undefined (reading '" ++ prop ++ "')".

(** [tokens[i].toUpperCase()]. *)
Definition upper_at (tokens : list string) (i : nat) : res string :=
  match tokens !! i with
  | Some t => Ok (toUpperCase t)
  | None => Throw (type_error "toUpperCase")
  end.

(** [tokens[i] && p(tokens[i].toUpperCase())]: a missing or empty token
    is falsy. *)
Definition tok_is (tokens : list string) (i : nat) (words : list string) : bool :=
  match tokens !! i with
  | Some t => negb (String.eqb t "") && includes words (toUpperCase t)
  | None => false
  end.

(** The number a token denotes, or the token itself when it denotes none. *)
Definition num_or_str (t : string) : value :=
  match Number_ t with
  | Some n => VNum n
  | None => VStr t
  end.

(** The literal of a value token that is present: a quoted string loses
    its quotes, a numeric token becomes a number. *)
Definition literal (t : string) : value :=
  if starts_with_quote t then VStr (slice_1_m1 t) else num_or_str t.

(** The value of an ordinary comparison: guarded by the truthiness of the
    token. *)
Definition literal_guarded (t : option string) : value :=
  match t with
  | None => VUndefined
  | Some t => if String.eqb t "" then VStr t else literal t
  end.

(** The bounds of BETWEEN: only the quote test is guarded. *)
Definition literal_between (t : option string) : value :=
  match t with
  | None => VUndefined
  | Some t => literal t
  end.

(** *** parseWhere *)

Definition logic_words : list string := ["AND"; "OR"; "DAN"; "ATAU"].

Definition stop_words : list string :=
  ["DENGAN"; "ORDER"; "URUTKAN"; "LIMIT"; "HANYA"; "OFFSET"; "MULAI";
   "LANGKAHI"; "GROUP"; "KELOMPOK"; ")"; ";"].

Definition logic_op (upper : string) : string :=
  if String.eqb upper "DAN" then "AND"
  else if String.eqb upper "ATAU" then "OR" else upper.

(** The loop over the list of IN: [ts] starts after the opening
    parenthesis, [n] counts the tokens passed. It stops at the closing
    parenthesis or at the end of the tokens. *)
Fixpoint in_values (ts : list string) (values : list value) (n : nat)
  : res (list value * nat) :=
  match ts with
  | [] => Throw (type_error "startsWith")
  | t :: ts' =>
      if String.eqb t ")" then Ok (values, n)
      else
        let values' :=
          if String.eqb t "," then values else (values ++ [literal t])%list in
        match ts' with
        | [] => Ok (values', S n)
        | _ :: _ => in_values ts' values' (S n)
        end
  end.

(** The first chain of tests on the operator: BETWEEN and IS push their
    condition here. The result is the operator, the conditions and the
    number of tokens consumed so far. *)
Definition special_operator (toks : list string) (key op : string)
    (sc : list node) : res (string * list node * nat) :=
  if includes ["BETWEEN"; "ANTARA"] op then
    let v1 := literal_between (toks !! 2) in
    let v2 := literal_between (toks !! 4) in
    let sc1 := (sc ++ [NCond key "BETWEEN" (VArr [v1; v2])])%list in
    let* connector := upper_at toks 3 in
    if negb (String.eqb connector "AND") && negb (String.eqb connector "DAN")
    then Throw "Syntax: ... BETWEEN val1 AND val2"
    else Ok ("BETWEEN", sc1, 5)
  else if String.eqb op "IS" then
    let* next := upper_at toks 2 in
    if includes ["NULL"; "KOSONG"] next then
      Ok (op, (sc ++ [NCond key "IS NULL" VNull])%list, 3)
    else if includes ["NOT"; "TIDAK"] next then
      let* next2 := upper_at toks 3 in
      if includes ["NULL"; "KOSONG"] next2 then
        Ok (op, (sc ++ [NCond key "IS NOT NULL" VNull])%list, 4)
      else Throw "Syntax: IS NOT NULL"
    else Throw "Syntax: IS NULL or IS NOT NULL"
  else Ok (op, sc, 2).

(** One single condition at the head of [toks], which has at least two
    tokens. The result is the extended list of conditions and the number
    of tokens consumed, or [None] for the [break] out of the scan. After
    the first chain, every operator that is not IN or NOT takes the
    branch of the ordinary operators, BETWEEN and IS included. *)
Definition single_condition (toks : list string) (key t1 : string)
    (sc : list node) : res (list node * option nat) :=
  let rawOp := toUpperCase t1 in
  let op0 := if String.eqb rawOp "SEPERTI" then "LIKE" else rawOp in
  let* (op, sc1, consumed) := special_operator toks key op0 sc in
  if includes ["IN"; "DALAM"; "NOT"; "TIDAK"] op then
    let isNot := includes ["NOT"; "TIDAK"] op in
    let* go :=
      (if isNot then
         let* next := upper_at toks 2 in
         Ok (includes ["IN"; "DALAM"] next)
       else Ok true) in
    if negb go then Ok (sc1, None)
    else
      let consumed1 := if isNot then S consumed else consumed in
      let p := if isNot then 3 else 2 in
      let finalOp := if isNot then "NOT IN" else "IN" in
      match toks !! p with
      | Some "(" =>
          let* (values, n) := in_values (drop (S p) toks) [] 0 in
          Ok ((sc1 ++ [NCond key finalOp (VArr values)])%list, Some (p + n + 2))
      | _ => Ok ((sc1 ++ [NCond key finalOp VNull])%list, Some consumed1)
      end
  else
    let val := literal_guarded (toks !! 2) in
    Ok ((sc1 ++ [NCond key op val])%list, Some 3).

(** The scan of the tokens from [startIndex]. [toks] is the rest of the
    tokens from the current index; [skip] is the number of tokens still
    to pass over after a condition that consumed several. *)
Fixpoint scan (toks : list string) (skip : nat) (sc : list node)
  : res (list node) :=
  match toks with
  | [] => Ok sc
  | token :: rest =>
      match skip with
      | S k => scan rest k sc
      | 0 =>
          let upper := toUpperCase token in
          if includes logic_words upper then
            scan rest 0 (sc ++ [NLogic (logic_op upper)])%list
          else if includes stop_words upper then Ok sc
          else
            match rest with
            | [] => Ok sc
            | t1 :: _ =>
                match single_condition toks token t1 sc with
                | Throw m => Throw m
                | Ok (sc', None) => Ok sc'
                | Ok (sc', Some consumed) => scan rest (consumed - 1) sc'
                end
            end
      end
  end.

(** Pass 1: the loop over [k = 1, 3, ...]; [l] is the list of simple
    conditions from index [k]. *)
Fixpoint pass1_loop (l : list node) (current : option node)
    (pass1 : list (option node)) : res (list (option node)) :=
  match l with
  | [] => Ok (pass1 ++ [current])%list
  | logic :: l' =>
      let nextCond := head l' in
      let continue_with cur p1 :=
        match l' with
        | [] => Ok (p1 ++ [cur])%list
        | _ :: rest => pass1_loop rest cur p1
        end in
      match node_op logic with
      | Some "AND" =>
          match current with
          | Some (NCompound "AND" conditions) =>
              continue_with
                (Some (NCompound "AND" (conditions ++ [nextCond])%list)) pass1
          | Some c =>
              continue_with (Some (NCompound "AND" [Some c; nextCond])) pass1
          | None => Throw (type_error "type")
          end
      | _ => continue_with nextCond (pass1 ++ [current; Some logic])%list
      end
  end.

(** The entries at the even indices. *)
Fixpoint evens {A} (l : list A) : list A :=
  match l with
  | [] => []
  | x :: l' => x :: match l' with [] => [] | _ :: l'' => evens l'' end
  end.

(** The tree built from the simple conditions; [None] is [null]. *)
Definition build_tree (sc : list node) : res (option node) :=
  match sc with
  | [] => Ok None
  | first :: l =>
      let* pass1 := pass1_loop l (Some first) [] in
      match pass1 with
      | [single] => Ok single
      | _ => Ok (Some (NCompound "OR" (evens pass1)))
      end
  end.

Definition parseWhere (tokens : list string) (startIndex : nat)
  : res (option node) :=
  let* simpleConditions := scan (drop startIndex tokens) 0 [] in
  build_tree simpleConditions.

(** *** Commands *)

(** A plain object with string keys: its own properties in insertion
    order. *)
Definition object (A : Type) : Type := list (string * A).

Fixpoint obj_get {A} (o : object A) (k : string) : option A :=
  match o with
  | [] => None
  | (k', v) :: o' => if String.eqb k k' then Some v else obj_get o' k
  end.

(** [o[k] = v]: an existing property keeps its place. *)
Fixpoint obj_set {A} (o : object A) (k : string) (v : A) : object A :=
  match o with
  | [] => [(k, v)]
  | (k', v') :: o' =>
      if String.eqb k k' then (k, v) :: o' else (k', v') :: obj_set o' k v
  end.

(** An entry of [joins]. *)
Record join := {
  join_table : option string;
  join_type : string;
  join_on : option (option string * option string * option string)
}.

(** An entry of the schema of DEFINE_SCHEMA; [None] as default is
    [undefined]. *)
Record field_config := {
  fc_type : option string;
  fc_required : bool;
  fc_default : option value
}.

(** A number read by [parseInt]: [None] is [NaN]. *)
Definition parsed_int : Type := option num.

(** The command records, one constructor for each [type]. A field that
    holds [tokens[i]] is an [option string]: [None] when the token is
    missing. *)
Inductive command :=
| EMPTY
| ERROR (message : string)
| CREATE_TABLE (table : option string)
| SHOW_TABLES
| SHOW_INDEXES (table : option string)
| SHOW_STATS (table : option string)
| DROP_TABLE (table : option string)
| INSERT (table : option string) (data : object value)
| SELECT (table : option string) (cols : list string) (joins : list join)
    (criteria : option node) (sort : option (string * string))
    (limit offset : option parsed_int) (distinct : bool)
| DELETE (table : option string) (criteria : option node)
| UPDATE (table : option string) (updates : object value)
    (criteria : option node)
| CREATE_INDEX (table field : option string)
| AGGREGATE (table : option string) (func : string) (field : option string)
    (criteria : option node) (groupBy : option string)
    (having : option (option string * option string * value))
| EXPLAIN (innerCommand : command)
| BEGIN_TRANSACTION
| COMMIT
| ROLLBACK
| CREATE_VIEW (viewName : string) (selectCommand : command)
| DROP_VIEW (viewName : string)
| DEFINE_SCHEMA (table : string) (schema : object field_config)
| CREATE_TRIGGER (name : string) (timing event table : option string)
    (action : string)
| DROP_TRIGGER (name : string)
| CREATE_PROCEDURE (name : string) (params : list (option string))
    (body : string)
| EXECUTE_PROCEDURE (name : string) (args : list value)
| BACKUP (path : string)
| RESTORE (path : string).

(** [cmd.type]. *)
Definition command_type (c : command) : string :=
  match c with
  | EMPTY => "EMPTY"
  | ERROR _ => "ERROR"
  | CREATE_TABLE _ => "CREATE_TABLE"
  | SHOW_TABLES => "SHOW_TABLES"
  | SHOW_INDEXES _ => "SHOW_INDEXES"
  | SHOW_STATS _ => "SHOW_STATS"
  | DROP_TABLE _ => "DROP_TABLE"
  | INSERT _ _ => "INSERT"
  | SELECT _ _ _ _ _ _ _ _ => "SELECT"
  | DELETE _ _ => "DELETE"
  | UPDATE _ _ _ => "UPDATE"
  | CREATE_INDEX _ _ => "CREATE_INDEX"
  | AGGREGATE _ _ _ _ _ _ => "AGGREGATE"
  | EXPLAIN _ => "EXPLAIN"
  | BEGIN_TRANSACTION => "BEGIN_TRANSACTION"
  | COMMIT => "COMMIT"
  | ROLLBACK => "ROLLBACK"
  | CREATE_VIEW _ _ => "CREATE_VIEW"
  | DROP_VIEW _ => "DROP_VIEW"
  | DEFINE_SCHEMA _ _ => "DEFINE_SCHEMA"
  | CREATE_TRIGGER _ _ _ _ _ => "CREATE_TRIGGER"
  | DROP_TRIGGER _ => "DROP_TRIGGER"
  | CREATE_PROCEDURE _ _ _ => "CREATE_PROCEDURE"
  | EXECUTE_PROCEDURE _ _ => "EXECUTE_PROCEDURE"
  | BACKUP _ => "BACKUP"
  | RESTORE _ => "RESTORE"
  end.

(** [if (cond) throw new Error(msg)]. *)
Definition throw_if (cond : bool) (msg : string) : res unit :=
  if cond then Throw msg else Ok tt.

(** A token that must be present and not empty: [if (!x) throw]. *)
Definition required_token (t : option string) (msg : string) : res string :=
  match t with
  | Some x => if String.eqb x "" then Throw msg else Ok x
  | None => Throw msg
  end.

(** [tokens[i] === s]. *)
Definition tok_eq (tokens : list string) (i : nat) (s : string) : bool :=
  match tokens !! i with
  | Some t => String.eqb t s
  | None => false
  end.

(** *** The short parsers *)

Definition parseCreate (tokens : list string) : res command :=
  let* t0 := upper_at tokens 0 in
  if String.eqb t0 "CREATE" then
    let* t1 := upper_at tokens 1 in
    let* _ := throw_if (negb (String.eqb t1 "TABLE")) "Syntax: CREATE TABLE [name]" in
    Ok (CREATE_TABLE (tokens !! 2))
  else
    let* _ := throw_if (Nat.ltb (List.length tokens) 2) "Syntax: LAHAN [nama_kebun]" in
    Ok (CREATE_TABLE (tokens !! 1)).

(** [tokens[2] || null]. *)
Definition tok_or_null (tokens : list string) (i : nat) : option string :=
  match tokens !! i with
  | Some t => if String.eqb t "" then None else Some t
  | None => None
  end.

Definition parseShow (tokens : list string) : res command :=
  let* cmd := upper_at tokens 0 in
  let sub :=
    match tok_or_null tokens 1 with
    | Some t => toUpperCase t
    | None => ""
    end in
  let syntax :=
    Throw "Syntax: LIHAT LAHAN | SHOW TABLES | LIHAT INDEKS [table] | SHOW INDEXES | LIHAT STATISTIK [table] | SHOW STATS" in
  if String.eqb cmd "LIHAT" then
    if String.eqb sub "LAHAN" then Ok SHOW_TABLES
    else if String.eqb sub "INDEKS" then Ok (SHOW_INDEXES (tok_or_null tokens 2))
    else if String.eqb sub "STATISTIK" then Ok (SHOW_STATS (tok_or_null tokens 2))
    else syntax
  else if String.eqb cmd "SHOW" then
    if String.eqb sub "TABLES" then Ok SHOW_TABLES
    else if String.eqb sub "INDEXES" then Ok (SHOW_INDEXES (tok_or_null tokens 2))
    else if String.eqb sub "STATS" then Ok (SHOW_STATS (tok_or_null tokens 2))
    else syntax
  else syntax.

Definition parseDrop (tokens : list string) : res command :=
  let* t0 := upper_at tokens 0 in
  let syntax := Throw "Syntax: BAKAR LAHAN [nama] | DROP TABLE [nama]" in
  if String.eqb t0 "DROP" then
    if tok_is tokens 1 ["TABLE"] then Ok (DROP_TABLE (tokens !! 2)) else syntax
  else if String.eqb t0 "BAKAR" then
    if tok_is tokens 1 ["LAHAN"] then Ok (DROP_TABLE (tokens !! 2)) else syntax
  else syntax.

Definition parseBeginTransaction (tokens : list string) : res command :=
  let* t0 := upper_at tokens 0 in
  if String.eqb t0 "MULAI" then
    if tok_is tokens 1 ["AKAD"] then Ok BEGIN_TRANSACTION
    else Throw "Syntax: MULAI AKAD"
  else Ok BEGIN_TRANSACTION.

Definition parseCreateIndex (tokens : list string) : res command :=
  let* t0 := upper_at tokens 0 in
  let* is_create :=
    (if String.eqb t0 "CREATE" then
       let* t1 := upper_at tokens 1 in Ok (String.eqb t1 "INDEX")
     else Ok false) in
  if is_create then
    let* t2 := upper_at tokens 2 in
    let i := if negb (String.eqb t2 "ON") && tok_is tokens 3 ["ON"] then 3 else 2 in
    let* ti := upper_at tokens i in
    let* _ := throw_if (negb (String.eqb ti "ON")) "Syntax: CREATE INDEX ... ON [table] ..." in
    let table := tokens !! (i + 1) in
    let* _ := throw_if (negb (tok_eq tokens (i + 2) "(")) "Syntax: ... ON [table] ( [field] )" in
    let field := tokens !! (i + 3) in
    let* _ := throw_if (negb (tok_eq tokens (i + 4) ")")) "Unclosed parenthesis for index field" in
    Ok (CREATE_INDEX table field)
  else
    let* _ := throw_if (Nat.ltb (List.length tokens) 4) "Syntax: INDEKS [table] PADA [field]" in
    let* t2 := upper_at tokens 2 in
    let* _ := throw_if (negb (String.eqb t2 "PADA")) "Expected PADA" in
    Ok (CREATE_INDEX (tokens !! 1) (tokens !! 3)).

(** The path of BACKUP and RESTORE without its quotes. *)
Definition unquote (t : string) : string :=
  if starts_with_quote t then slice_1_m1 t else t.

Definition parseBackup (tokens : list string) : res command :=
  let* t0 := upper_at tokens 0 in
  let* bad :=
    (if negb (String.eqb t0 "CADANGKAN") then Ok true
     else let* t1 := upper_at tokens 1 in Ok (negb (String.eqb t1 "LUMBUNG"))) in
  let* _ := throw_if bad "Syntax: CADANGKAN LUMBUNG KE [path]" in
  let* t2 := upper_at tokens 2 in
  let* _ := throw_if (negb (String.eqb t2 "KE")) "Expected KE after LUMBUNG" in
  let* backupPath := required_token (tokens !! 3) "Backup path required" in
  Ok (BACKUP (unquote backupPath)).

Definition parseRestore (tokens : list string) : res command :=
  let* t0 := upper_at tokens 0 in
  let* bad :=
    (if negb (String.eqb t0 "PULIHKAN") then Ok true
     else let* t1 := upper_at tokens 1 in Ok (negb (String.eqb t1 "LUMBUNG"))) in
  let* _ := throw_if bad "Syntax: PULIHKAN LUMBUNG DARI [path]" in
  let* t2 := upper_at tokens 2 in
  let* _ := throw_if (negb (String.eqb t2 "DARI")) "Expected DARI after LUMBUNG" in
  let* backupPath := required_token (tokens !! 3) "Backup path required" in
  Ok (RESTORE (unquote backupPath)).

Definition parseDropView (tokens : list string) : res command :=
  let* t0 := upper_at tokens 0 in
  let* _ := throw_if (negb (String.eqb t0 "BUANG")) "Syntax: BUANG TEROPONG [nama]" in
  let* t1 := upper_at tokens 1 in
  let* _ := throw_if (negb (String.eqb t1 "TEROPONG")) "Expected TEROPONG after BUANG" in
  let* viewName := required_token (tokens !! 2) "View name required" in
  Ok (DROP_VIEW viewName).

Definition parseDropTrigger (tokens : list string) : res command :=
  let* t0 := upper_at tokens 0 in
  let* bad :=
    (if negb (String.eqb t0 "BUANG") then Ok true
     else let* t1 := upper_at tokens 1 in Ok (negb (String.eqb t1 "KENTONGAN"))) in
  let* _ := throw_if bad "Syntax: BUANG KENTONGAN [nama]" in
  let* triggerName := required_token (tokens !! 2) "Trigger name required" in
  Ok (DROP_TRIGGER triggerName).

Definition parseDropViewOrTrigger (tokens : list string) : res command :=
  let* t1 := upper_at tokens 1 in
  if String.eqb t1 "TEROPONG" then parseDropView tokens
  else if String.eqb t1 "KENTONGAN" then parseDropTrigger tokens
  else Throw "Syntax: BUANG TEROPONG [nama] or BUANG KENTONGAN [nama]".

Definition parseCreateTrigger (tokens : list string) : res command :=
  let* t0 := upper_at tokens 0 in
  let* bad :=
    (if negb (String.eqb t0 "PASANG") then Ok true
     else let* t1 := upper_at tokens 1 in Ok (negb (String.eqb t1 "KENTONGAN"))) in
  let* _ := throw_if bad "Syntax: PASANG KENTONGAN [nama] PADA ..." in
  let* triggerName := required_token (tokens !! 2) "Trigger name required" in
  let* t3 := upper_at tokens 3 in
  let* _ := throw_if (negb (String.eqb t3 "PADA")) "Expected PADA after trigger name" in
  let* t7 := upper_at tokens 7 in
  let* _ := throw_if (negb (String.eqb t7 "LAKUKAN")) "Expected LAKUKAN before action query" in
  Ok (CREATE_TRIGGER triggerName (tokens !! 4) (tokens !! 5) (tokens !! 6)
        (join_space (drop 8 tokens))).

(** *** Computations that may also fail to return *)

(** [None]: the function did not return within the fuel. *)
Definition comp (A : Type) : Type := option (res A).

Definition comp_bind {A B} (c : comp A) (k : A -> comp B) : comp B :=
  match c with
  | Some (Ok a) => k a
  | Some (Throw m) => Some (Throw m)
  | None => None
  end.

Notation "'let+' x ':=' c 'in' k" := (comp_bind c (fun x => k))
  (at level 10, x pattern, c at level 100, k at level 200).

(** [while (i < tokens.length && !words.includes(tokens[i].toUpperCase())) i++],
    on the tokens from index [i]. *)
Fixpoint skip_until (words : list string) (ts : list string) (i : nat) : nat :=
  match ts with
  | [] => i
  | t :: ts' =>
      if includes words (toUpperCase t) then i else skip_until words ts' (S i)
  end.

(** [i < tokens.length && words.includes(tokens[i].toUpperCase())]. *)
Definition at_word (tokens : list string) (i : nat) (words : list string) : bool :=
  match tokens !! i with
  | Some t => includes words (toUpperCase t)
  | None => false
  end.

(** The optional WHERE clause at index [i]: the criteria and the index
    after the clause, which ends before the first of [stops]. *)
Definition where_clause (tokens : list string) (i : nat) (stops : list string)
  : res (option node * nat) :=
  if at_word tokens i ["DIMANA"; "WHERE"] then
    let* criteria := parseWhere tokens (S i) in
    Ok (criteria, skip_until stops (drop (S i) tokens) (S i))
  else Ok (None, i).

(** *** parseDelete and parseUpdate *)

Definition parseDelete (tokens : list string) : res command :=
  let* t0 := upper_at tokens 0 in
  let* t1 := upper_at tokens 1 in
  let* _ :=
    (if String.eqb t0 "DELETE"
     then throw_if (negb (String.eqb t1 "FROM")) "Syntax: DELETE FROM [table] ..."
     else throw_if (negb (String.eqb t1 "DARI")) "Syntax: GUSUR DARI [kebun] ...") in
  let table := tokens !! 2 in
  if at_word tokens 3 ["DIMANA"; "WHERE"] then
    let* criteria := parseWhere tokens 4 in
    Ok (DELETE table criteria)
  else Ok (DELETE table None).

(** The value of an assignment or of a procedure argument: the token must
    be present. *)
Definition literal_present (t : option string) : res value :=
  match t with
  | Some t => Ok (literal t)
  | None => Throw (type_error "startsWith")
  end.

(** The loop over the assignments of UPDATE from index [i]. *)
Fixpoint update_loop (fuel : nat) (tokens : list string) (i : nat)
    (updates : object value) : comp (object value * nat) :=
  match fuel with
  | 0 => None
  | S fuel' =>
      match tokens !! i with
      | None => Some (Ok (updates, i))
      | Some key =>
          if includes ["DIMANA"; "WHERE"] (toUpperCase key)
          then Some (Ok (updates, i))
          else if String.eqb key "," then update_loop fuel' tokens (S i) updates
          else if negb (tok_eq tokens (i + 1) "=")
          then Some (Throw "Syntax: key=value in update list")
          else
            match literal_present (tokens !! (i + 2)) with
            | Throw m => Some (Throw m)
            | Ok val => update_loop fuel' tokens (i + 3) (obj_set updates key val)
            end
      end
  end.

Definition parseUpdate (fuel : nat) (tokens : list string) : comp command :=
  let+ t0 := Some (upper_at tokens 0) in
  let+ _ :=
    Some (if String.eqb t0 "UPDATE" then
            let* t2 := upper_at tokens 2 in
            throw_if (negb (String.eqb t2 "SET")) "Expected SET"
          else
            let* _ := throw_if (Nat.ltb (List.length tokens) 3)
                        "Syntax: PUPUK [kebun] DENGAN ..." in
            let* t2 := upper_at tokens 2 in
            throw_if (negb (String.eqb t2 "DENGAN")) "Expected DENGAN") in
  let table := tokens !! 1 in
  let+ (updates, i) := update_loop fuel tokens 3 [] in
  if at_word tokens i ["DIMANA"; "WHERE"] then
    let+ criteria := Some (parseWhere tokens (S i)) in
    Some (Ok (UPDATE table updates criteria))
  else Some (Ok (UPDATE table updates None)).

(** *** parseInsert *)

(** The loop over the column names; [ts] starts after the opening
    parenthesis at index [i]. A missing token is pushed as well, but
    then the loop raises. *)
Fixpoint insert_cols (ts : list string) (i : nat) (cols : list string)
  : res (list string * nat) :=
  match ts with
  | [] => Throw "Unclosed parenthesis in columns"
  | t :: ts' =>
      if String.eqb t ")" then Ok (cols, i)
      else
        let cols' := if String.eqb t "," then cols else (cols ++ [t])%list in
        match ts' with
        | [] => Throw "Unclosed parenthesis in columns"
        | _ :: _ => insert_cols ts' (S i) cols'
        end
  end.

(** The literal of a value of INSERT. *)
Definition insert_literal (t : string) : value :=
  if starts_with_quote t then VStr (slice_1_m1 t)
  else if String.eqb (toUpperCase t) "NULL" then VNull
  else if String.eqb (toUpperCase t) "TRUE" then VBool true
  else if String.eqb (toUpperCase t) "FALSE" then VBool false
  else num_or_str t.

(** The loop over the values: it ends at the closing parenthesis, or
    with a [TypeError] at the end of the tokens. *)
Fixpoint insert_vals (ts : list string) (vals : list value) : res (list value) :=
  match ts with
  | [] => Throw (type_error "startsWith")
  | t :: ts' =>
      if String.eqb t ")" then Ok vals
      else if String.eqb t "," then insert_vals ts' vals
      else insert_vals ts' (vals ++ [insert_literal t])%list
  end.

(** [data[cols[k]] = vals[k]] for every [k]. *)
Fixpoint zip_object (cols : list string) (vals : list value)
    (data : object value) : object value :=
  match cols, vals with
  | c :: cols', v :: vals' => zip_object cols' vals' (obj_set data c v)
  | _, _ => data
  end.

Definition parseInsert (tokens : list string) : res command :=
  let* t0 := upper_at tokens 0 in
  let* t1 := upper_at tokens 1 in
  let* _ :=
    (if String.eqb t0 "INSERT"
     then throw_if (negb (String.eqb t1 "INTO")) "Syntax: INSERT INTO [table] ..."
     else throw_if (negb (String.eqb t1 "KE")) "Syntax: TANAM KE [kebun] ...") in
  let table := tokens !! 2 in
  let* _ := throw_if (negb (tok_eq tokens 3 "(")) "Syntax: ... [table] (col1, ...) ..." in
  let* (cols, close) := insert_cols (drop 4 tokens) 4 [] in
  let i := S close in
  let* valueKeyword := upper_at tokens i in
  let* _ := throw_if (negb (includes ["BIBIT"; "VALUES"] valueKeyword))
              "Expected BIBIT or VALUES" in
  let* _ := throw_if (negb (tok_eq tokens (S i) "(")) "Syntax: ... VALUES (val1, ...)" in
  let* vals := insert_vals (drop (S (S i)) tokens) [] in
  let* _ := throw_if (negb (Nat.eqb (List.length cols) (List.length vals)))
              "Columns and Values count mismatch" in
  Ok (INSERT table (zip_object cols vals [])).

(** *** parseSelect *)

(** The loop over the column list from index [i]. *)
Fixpoint select_cols (ts : list string) (i : nat) (cols : list string)
  : list string * nat :=
  match ts with
  | [] => (cols, i)
  | t :: ts' =>
      if includes ["DARI"; "FROM"] (toUpperCase t) then (cols, i)
      else select_cols ts' (S i)
             (if String.eqb t "," then cols else (cols ++ [t])%list)
  end.

Definition join_words : list string := ["JOIN"; "GABUNG"].

(** [i] after an optional OUTER and an optional JOIN keyword. *)
Definition skip_outer_join (tokens : list string) (i : nat) : nat :=
  let i1 := if tok_is tokens i ["OUTER"] then S i else i in
  if tok_is tokens i1 join_words then S i1 else i1.

(** What one iteration of the loop over the joins decides at index [i]:
    to go on at a new index without a join, to leave the loop, or the
    type of a join and the index of its table. *)
Inductive join_head :=
| JoinAgain (i : nat)
| JoinBreak (i : nat)
| JoinOf (joinType : string) (i : nat).

Definition join_keyword (tokens : list string) (i : nat) (token : string)
  : join_head :=
  if includes join_words token then
    if String.eqb token "GABUNG"
       && tok_is tokens (S i) ["KIRI"; "KANAN"; "SILANG"; "PENUH"]
    then JoinAgain (S i)
    else JoinOf "INNER" (S i)
  else if String.eqb token "INNER" then
    if tok_is tokens (S i) join_words then JoinOf "INNER" (S (S i))
    else JoinBreak (S i)
  else if includes ["LEFT"; "KIRI"] token then
    JoinOf "LEFT" (skip_outer_join tokens (S i))
  else if includes ["RIGHT"; "KANAN"] token then
    JoinOf "RIGHT" (skip_outer_join tokens (S i))
  else if includes ["FULL"; "PENUH"] token then
    JoinOf "FULL" (skip_outer_join tokens (S i))
  else if includes ["CROSS"; "SILANG"] token then
    JoinOf "CROSS" (if tok_is tokens (S i) join_words then S (S i) else S i)
  else JoinBreak i.

Fixpoint joins_loop (fuel : nat) (tokens : list string) (i : nat)
    (joins : list join) : comp (list join * nat) :=
  match fuel with
  | 0 => None
  | S fuel' =>
      match tokens !! i with
      | None => Some (Ok (joins, i))
      | Some t =>
          match join_keyword tokens i (toUpperCase t) with
          | JoinAgain i' => joins_loop fuel' tokens i' joins
          | JoinBreak i' => Some (Ok (joins, i'))
          | JoinOf joinType j =>
              let joinTable := tokens !! j in
              if String.eqb joinType "CROSS" then
                joins_loop fuel' tokens (S j)
                  (joins ++ [{| join_table := joinTable; join_type := joinType;
                                join_on := None |}])%list
              else if negb (at_word tokens (S j) ["ON"; "PADA"]) then
                Some (Throw ("Syntax: " ++ joinType ++ " JOIN [table] ON [condition]"))
              else
                joins_loop fuel' tokens (j + 5)
                  (joins ++ [{| join_table := joinTable; join_type := joinType;
                                join_on := Some (tokens !! (j + 2), tokens !! (j + 3),
                                                 tokens !! (j + 4)) |}])%list
          end
      end
  end.

(** ORDER BY at index [i]: the sort and the index after it. *)
Definition select_sort (tokens : list string) (i : nat)
  : res (option (string * string) * nat) :=
  match tokens !! i with
  | None => Ok (None, i)
  | Some t =>
      let token := toUpperCase t in
      let* i1 :=
        (if String.eqb token "ORDER" then
           let* n := upper_at tokens (S i) in
           Ok (if String.eqb n "BY" then S (S i) else S i)
         else if String.eqb token "URUTKAN" then
           let* n := upper_at tokens (S i) in
           Ok (if String.eqb n "BERDASARKAN" then S (S i) else S i)
         else Ok i) in
      match tokens !! i1 with
      | Some key =>
          if at_word tokens (i1 - 1) ["BY"; "BERDASARKAN"] then
            if at_word tokens (S i1) ["ASC"; "DESC"; "NAIK"; "TURUN"] then
              let dir :=
                if at_word tokens (S i1) ["DESC"; "TURUN"] then "desc" else "asc" in
              Ok (Some (key, dir), S (S i1))
            else Ok (Some (key, "asc"), S i1)
          else Ok (None, i1)
      | None => Ok (None, i1)
      end
  end.

(** LIMIT and OFFSET at index [i]. *)
Definition select_limit (tokens : list string) (i : nat)
  : option parsed_int * nat :=
  if at_word tokens i ["LIMIT"; "HANYA"]
  then (Some (parseInt10 (tokens !! (S i))), S (S i))
  else (None, i).

Definition select_offset (tokens : list string) (i : nat) : option parsed_int :=
  if at_word tokens i ["OFFSET"; "LANGKAHI"] then
    Some (parseInt10 (tokens !! (S i)))
  else if at_word tokens i ["MULAI"] then
    let i1 := if tok_is tokens (S i) ["DARI"] then S (S i) else S i in
    Some (parseInt10 (tokens !! i1))
  else None.

Definition parseSelect (fuel : nat) (tokens : list string) : comp command :=
  let distinct := tok_is tokens 1 ["DISTINCT"] in
  let i0 := if distinct then 2 else 1 in
  let '(cols, i1) := select_cols (drop i0 tokens) i0 [] in
  let+ _ := Some (throw_if (Nat.leb (List.length tokens) i1) "Expected DARI or FROM") in
  let table := tokens !! (S i1) in
  let+ (joins, i2) := joins_loop fuel tokens (S (S i1)) [] in
  let+ (criteria, i3) :=
    Some (where_clause tokens i2
            ["ORDER"; "URUTKAN"; "LIMIT"; "HANYA"; "OFFSET"; "MULAI"]) in
  let+ (sort, i4) := Some (select_sort tokens i3) in
  let '(limit, i5) := select_limit tokens i4 in
  let offset := select_offset tokens i5 in
  Some (Ok (SELECT table cols joins criteria sort limit offset distinct)).

(** *** parseAggregate *)

Definition parseAggregate (tokens : list string) : res command :=
  let* aggFunc := upper_at tokens 1 in
  let* _ := throw_if (negb (tok_eq tokens 2 "(")) "Syntax: HITUNG FUNC(field) ..." in
  let aggField := if tok_eq tokens 3 "*" then None else tokens !! 3 in
  let* _ := throw_if (negb (tok_eq tokens 4 ")")) "Expected closing parenthesis" in
  let* _ := throw_if (negb (tok_is tokens 5 ["DARI"; "FROM"])) "Expected DARI or FROM" in
  let table := tokens !! 6 in
  let* (criteria, i1) :=
    where_clause tokens 7 ["KELOMPOK"; "GROUP"; "DENGAN"; "HAVING"] in
  let* (groupField, i2) :=
    (if at_word tokens i1 ["KELOMPOK"; "GROUP"] then
       let* by_ :=
         (if at_word tokens i1 ["GROUP"] then
            let* n := upper_at tokens (S i1) in Ok (String.eqb n "BY")
          else Ok false) in
       let j := if by_ then i1 + 2 else S i1 in
       Ok (tokens !! j, S j)
     else Ok (None, i1)) in
  let having_at (j : nat) :=
    Some (tokens !! j, tokens !! (S j),
          match tokens !! (S (S j)) with
          | Some t => num_or_str t
          | None => VUndefined
          end) in
  let having :=
    if at_word tokens i2 ["HAVING"; "PUNYA"] then having_at (S i2)
    else if at_word tokens i2 ["DENGAN"] && tok_is tokens (S i2) ["SYARAT"]
    then having_at (i2 + 2)
    else None in
  Ok (AGGREGATE table aggFunc aggField criteria groupField having).

(** *** parseExplain and the views *)

Definition parseExplain (fuel : nat) (tokens : list string) : comp command :=
  let innerTokens := drop 1 tokens in
  match innerTokens with
  | [] => Some (Throw "EXPLAIN requires a query to analyze")
  | t :: _ =>
      let innerCmd := toUpperCase t in
      let+ innerCommand :=
        (if includes ["PANEN"; "SELECT"] innerCmd then parseSelect fuel innerTokens
         else if includes ["GUSUR"; "DELETE"] innerCmd then Some (parseDelete innerTokens)
         else if includes ["PUPUK"; "UPDATE"] innerCmd then parseUpdate fuel innerTokens
         else if String.eqb innerCmd "HITUNG" then Some (parseAggregate innerTokens)
         else Some (Throw ("EXPLAIN not supported for: " ++ innerCmd))) in
      Some (Ok (EXPLAIN innerCommand))
  end.

Definition parseCreateView (fuel : nat) (tokens : list string) : comp command :=
  let+ t0 := Some (upper_at tokens 0) in
  let+ _ := Some (throw_if (negb (String.eqb t0 "PASANG"))
                    "Syntax: PASANG TEROPONG [nama] SEBAGAI [query]") in
  let+ t1 := Some (upper_at tokens 1) in
  let+ _ := Some (throw_if (negb (String.eqb t1 "TEROPONG"))
                    "Expected TEROPONG after PASANG") in
  let+ viewName := Some (required_token (tokens !! 2) "View name required") in
  let+ t3 := Some (upper_at tokens 3) in
  let+ _ := Some (throw_if (negb (String.eqb t3 "SEBAGAI"))
                    "Expected SEBAGAI after view name") in
  let+ selectCommand := parseSelect fuel (drop 4 tokens) in
  Some (Ok (CREATE_VIEW viewName selectCommand)).

Definition parseCreateViewOrTrigger (fuel : nat) (tokens : list string)
  : comp command :=
  let+ t1 := Some (upper_at tokens 1) in
  if String.eqb t1 "TEROPONG" then parseCreateView fuel tokens
  else if String.eqb t1 "KENTONGAN" then Some (parseCreateTrigger tokens)
  else Some (Throw "Syntax: PASANG TEROPONG [nama] ... or PASANG KENTONGAN [nama] ...").

(** *** parseSchemaDefinition *)

(** The inner loop over the modifiers of a field; [ts] is the rest of
    the tokens from index [i]. *)
Fixpoint schema_modifiers (ts : list string) (i : nat) (required : bool)
    (defaultValue : option value) : res (nat * bool * option value) :=
  match ts with
  | [] => Ok (i, required, defaultValue)
  | t :: ts' =>
      if String.eqb t "," || String.eqb t ")" then Ok (i, required, defaultValue)
      else
        let modifier := toUpperCase t in
        if includes ["WAJIB"; "REQUIRED"] modifier then
          schema_modifiers ts' (S i) true defaultValue
        else if includes ["DEFAULT"; "BAWAAN"] modifier then
          match ts' with
          | [] => Throw (type_error "startsWith")
          | d :: ts'' => schema_modifiers ts'' (i + 2) required (Some (literal d))
          end
        else Ok (i, required, defaultValue)
  end.

(** A property key made of a token that may be missing. *)
Definition property_key (t : option string) : string :=
  match t with
  | Some k => k
  | None => "undefined"
  end.

(** The outer loop, [while (tokens[i] !== ')')]: nothing in it tests the
    end of the tokens. *)
Fixpoint schema_loop (fuel : nat) (tokens : list string) (i : nat)
    (schema : object field_config) : comp (object field_config) :=
  match fuel with
  | 0 => None
  | S fuel' =>
      if tok_eq tokens i ")" then Some (Ok schema)
      else
        let fieldName := tokens !! i in
        let fieldType := tokens !! (i + 1) in
        match schema_modifiers (drop (i + 2) tokens) (i + 2) false None with
        | Throw m => Some (Throw m)
        | Ok (i1, required, defaultValue) =>
            let schema' :=
              obj_set schema (property_key fieldName)
                {| fc_type := fieldType; fc_required := required;
                   fc_default := defaultValue |} in
            schema_loop fuel' tokens (if tok_eq tokens i1 "," then S i1 else i1)
              schema'
        end
  end.

Definition parseSchemaDefinition (fuel : nat) (tokens : list string)
  : comp command :=
  let+ t0 := Some (upper_at tokens 0) in
  let+ _ := Some (throw_if (negb (String.eqb t0 "SERTIFIKASI"))
                    "Syntax: SERTIFIKASI LAHAN [table] (...)") in
  let+ t1 := Some (upper_at tokens 1) in
  let+ _ := Some (throw_if (negb (String.eqb t1 "LAHAN"))
                    "Expected LAHAN after SERTIFIKASI") in
  let+ tableName := Some (required_token (tokens !! 2) "Table name required") in
  let+ _ := Some (throw_if (negb (tok_eq tokens 3 "(")) "Expected ( after table name") in
  let+ schema := schema_loop fuel tokens 4 [] in
  Some (Ok (DEFINE_SCHEMA tableName schema)).

(** *** The stored procedures *)

(** [while (tokens[i] !== ')')] over the parameters: past the end of the
    tokens the loop pushes [undefined] for ever ([None]). *)
Fixpoint procedure_params (ts : list string) (i : nat)
    (params : list (option string)) : option (list (option string) * nat) :=
  match ts with
  | [] => None
  | t :: ts' =>
      if String.eqb t ")" then Some (params, i)
      else procedure_params ts' (S i)
             (if String.eqb t "," then params else (params ++ [Some t])%list)
  end.

Definition parseStoredProcedure (tokens : list string) : comp command :=
  let+ t0 := Some (upper_at tokens 0) in
  let+ bad :=
    Some (if negb (String.eqb t0 "SIMPAN") then Ok true
          else let* t1 := upper_at tokens 1 in Ok (negb (String.eqb t1 "SOP"))) in
  let+ _ := Some (throw_if bad "Syntax: SIMPAN SOP [nama] (...) SEBAGAI [query]") in
  let+ procName := Some (required_token (tokens !! 2) "Procedure name required") in
  let+ (params, i) :=
    (if tok_eq tokens 3 "(" then
       match procedure_params (drop 4 tokens) 4 [] with
       | Some (params, close) => Some (Ok (params, S close))
       | None => None
       end
     else Some (Ok ([], 3))) in
  let+ ti := Some (upper_at tokens i) in
  let+ _ := Some (throw_if (negb (String.eqb ti "SEBAGAI"))
                    "Expected SEBAGAI after parameters") in
  Some (Ok (CREATE_PROCEDURE procName params (join_space (drop (S i) tokens)))).

(** The loop over the arguments: it ends at the closing parenthesis, or
    with a [TypeError] at the end of the tokens. *)
Fixpoint procedure_args (ts : list string) (args : list value) : res (list value) :=
  match ts with
  | [] => Throw (type_error "startsWith")
  | t :: ts' =>
      if String.eqb t ")" then Ok args
      else if String.eqb t "," then procedure_args ts' args
      else procedure_args ts' (args ++ [literal t])%list
  end.

Definition parseExecuteProcedure (tokens : list string) : res command :=
  let* t0 := upper_at tokens 0 in
  let* bad :=
    (if negb (String.eqb t0 "JALANKAN") then Ok true
     else let* t1 := upper_at tokens 1 in Ok (negb (String.eqb t1 "SOP"))) in
  let* _ := throw_if bad "Syntax: JALANKAN SOP [nama] (...)" in
  let* procName := required_token (tokens !! 2) "Procedure name required" in
  let* args :=
    (if tok_eq tokens 3 "(" then procedure_args (drop 4 tokens) [] else Ok []) in
  Ok (EXECUTE_PROCEDURE procName args).

(** *** Parameter binding *)

(** [params.hasOwnProperty(name)] and [params[name]] on the binding map. *)
Definition bindValue (params : object value) (val : value) : value :=
  match val with
  | VStr s =>
      match s with
      | String c paramName =>
          if Nat.eqb (code c) 64 then
            match obj_get params paramName with
            | Some v => v
            | None => val
            end
          else val
      | EmptyString => val
      end
  | _ => val
  end.

(** [_info_bindCriteria]: an [undefined] entry of [conditions] raises on
    the access to its [type]. *)
Fixpoint _info_bindCriteria (params : object value) (criteria : node) : res node :=
  match criteria with
  | NCompound logic conditions =>
      let fix go (l : list (option node)) : res (list (option node)) :=
        match l with
        | [] => Ok []
        | None :: _ => Throw (type_error "type")
        | Some c :: l' =>
            let* c' := _info_bindCriteria params c in
            let* l'' := go l' in
            Ok (Some c' :: l'')
        end in
      let* conditions' := go conditions in
      Ok (NCompound logic conditions')
  | NCond key op (VArr items) => Ok (NCond key op (VArr (map (bindValue params) items)))
  | NCond key op val => Ok (NCond key op (bindValue params val))
  | NLogic op => Ok (NLogic op)
  end.

Definition bind_criteria (params : object value) (criteria : option node)
  : res (option node) :=
  match criteria with
  | Some c => let* c' := _info_bindCriteria params c in Ok (Some c')
  | None => Ok None
  end.

Definition bind_object (params : object value) (o : object value) : object value :=
  map (fun kv => (fst kv, bindValue params (snd kv))) o.

(** [_bindParameters(command, params)]: the criteria, the data of INSERT
    and the assignments of UPDATE. *)
Definition _bindParameters (cmd : command) (params : object value)
  : res command :=
  match cmd with
  | SELECT table cols joins criteria sort limit offset distinct =>
      let* criteria' := bind_criteria params criteria in
      Ok (SELECT table cols joins criteria' sort limit offset distinct)
  | DELETE table criteria =>
      let* criteria' := bind_criteria params criteria in
      Ok (DELETE table criteria')
  | UPDATE table updates criteria =>
      let* criteria' := bind_criteria params criteria in
      Ok (UPDATE table (bind_object params updates) criteria')
  | AGGREGATE table func field criteria groupBy having =>
      let* criteria' := bind_criteria params criteria in
      Ok (AGGREGATE table func field criteria' groupBy having)
  | INSERT table data => Ok (INSERT table (bind_object params data))
  | c => Ok c
  end.

(** *** parse *)

Definition dispatch (fuel : nat) (tokens : list string) (cmd : string)
  : comp command :=
  if includes ["LAHAN"; "CREATE"] cmd then
    if tok_is tokens 1 ["INDEX"] then Some (parseCreateIndex tokens)
    else Some (parseCreate tokens)
  else if includes ["LIHAT"; "SHOW"] cmd then Some (parseShow tokens)
  else if includes ["TANAM"; "INSERT"] cmd then Some (parseInsert tokens)
  else if includes ["PANEN"; "SELECT"] cmd then parseSelect fuel tokens
  else if includes ["GUSUR"; "DELETE"] cmd then Some (parseDelete tokens)
  else if includes ["PUPUK"; "UPDATE"] cmd then parseUpdate fuel tokens
  else if includes ["BAKAR"; "DROP"] cmd then Some (parseDrop tokens)
  else if String.eqb cmd "INDEKS" then Some (parseCreateIndex tokens)
  else if String.eqb cmd "HITUNG" then Some (parseAggregate tokens)
  else if includes ["EXPLAIN"; "JELASKAN"] cmd then parseExplain fuel tokens
  else if String.eqb cmd "MULAI" then Some (parseBeginTransaction tokens)
  else if String.eqb cmd "BEGIN" then Some (Ok BEGIN_TRANSACTION)
  else if includes ["SAHKAN"; "COMMIT"] cmd then Some (Ok COMMIT)
  else if includes ["BATALKAN"; "ROLLBACK"] cmd then Some (Ok ROLLBACK)
  else if String.eqb cmd "PASANG" then parseCreateViewOrTrigger fuel tokens
  else if String.eqb cmd "BUANG" then Some (parseDropViewOrTrigger tokens)
  else if String.eqb cmd "SERTIFIKASI" then parseSchemaDefinition fuel tokens
  else if String.eqb cmd "SIMPAN" then parseStoredProcedure tokens
  else if String.eqb cmd "JALANKAN" then Some (parseExecuteProcedure tokens)
  else if String.eqb cmd "CADANGKAN" then Some (parseBackup tokens)
  else if String.eqb cmd "PULIHKAN" then Some (parseRestore tokens)
  else Some (Throw ("Perintah tidak dikenal: " ++ cmd)).

(** The body of [parse] on the tokens: the [try] block with its [catch].
    [params] is [None] when no binding map is passed. *)
Definition parse_tokens (fuel : nat) (tokens : list string)
    (params : option (object value)) : option command :=
  match tokens with
  | [] => Some EMPTY
  | t0 :: _ =>
      let attempt :=
        let+ cmd := dispatch fuel tokens (toUpperCase t0) in
        match params with
        | Some ps => Some (_bindParameters cmd ps)
        | None => Some (Ok cmd)
        end in
      match attempt with
      | Some (Ok cmd) => Some cmd
      | Some (Throw message) => Some (ERROR message)
      | None => None
      end
  end.

(** [parse(queryString, params)]; [None] when it does not return within
    the fuel. *)
Definition parse (fuel : nat) (queryString : string)
    (params : option (object value)) : option command :=
  parse_tokens fuel (tokenize queryString) params.

End Parser.

End QueryParser.

(** ** The precedence of AND over OR, as the specification words it *)

Module WhereSpec.
Import Str QueryParser.

Section Spec.
Context `{RT : Runtime}.

(** A comparison [key op value], three tokens. *)
Record comparison := {
  cmp_key : string;
  cmp_op : string;
  cmp_val : string
}.

Definition comparison_tokens (c : comparison) : list string :=
  [cmp_key c; cmp_op c; cmp_val c].

(** The operators with a syntax of their own. *)
Definition special_ops : list string :=
  ["BETWEEN"; "ANTARA"; "IS"; "IN"; "DALAM"; "NOT"; "TIDAK"].

(** The key is a name (neither a connective nor a word that ends the
    clause) and the operator is an ordinary one, such as a comparison
    operator or LIKE. *)
Definition ordinary (c : comparison) : bool :=
  negb (includes logic_words (toUpperCase (cmp_key c)))
  && negb (includes stop_words (toUpperCase (cmp_key c)))
  && negb (includes special_ops (toUpperCase (cmp_op c))).

(** The condition that a comparison denotes. *)
Definition condition_of (c : comparison) : node :=
  let o := toUpperCase (cmp_op c) in
  NCond (cmp_key c) (if String.eqb o "SEPERTI" then "LIKE" else o)
    (literal_guarded (Some (cmp_val c))).

(** A connective token: AND, OR, DAN or ATAU in any case. *)
Definition connective (j : string) : bool :=
  includes logic_words (toUpperCase j).

Definition is_and (j : string) : bool :=
  String.eqb (logic_op (toUpperCase j)) "AND".

(** A flat clause: a first comparison, then connectives each followed by
    a comparison. *)
Definition clause_tokens (c0 : comparison)
    (rest : list (string * comparison)) : list string :=
  (comparison_tokens c0
   ++ flat_map (fun jc => fst jc :: comparison_tokens (snd jc)) rest)%list.

Definition well_formed_clause (c0 : comparison)
    (rest : list (string * comparison)) : Prop :=
  ordinary c0 = true ∧
  Forall (fun jc => connective (fst jc) = true ∧ ordinary (snd jc) = true) rest.

(** The clause ends with the tokens, or before a word that ends it. *)
Definition clause_end (tail : list string) : Prop :=
  match tail with
  | [] => True
  | t :: _ => includes stop_words (toUpperCase t) = true
  end.

(** First step of the specification: the adjacent conditions linked by
    AND are grouped. [cur] is the group under construction. *)
Fixpoint and_groups (cur : list comparison)
    (rest : list (string * comparison)) : list (list comparison) :=
  match rest with
  | [] => [cur]
  | (j, c) :: rest' =>
      if is_and j then and_groups (cur ++ [c]) rest'
      else cur :: and_groups [c] rest'
  end.

(** A group of one condition is the condition; a larger group is a
    compound AND node. *)
Definition group_node (g : list comparison) : option node :=
  match g with
  | [] => None
  | [c] => Some (condition_of c)
  | _ => Some (NCompound "AND" (map (fun c => Some (condition_of c)) g))
  end.

(** Second step: the groups are joined under one OR node, when there is
    more than one. *)
Definition where_tree (c0 : comparison)
    (rest : list (string * comparison)) : option node :=
  match and_groups [c0] rest with
  | [g] => group_node g
  | gs => Some (NCompound "OR" (map group_node gs))
  end.

(** The simple conditions that the scan collects after the first one. *)
Definition clause_nodes (rest : list (string * comparison)) : list node :=
  flat_map (fun jc => [NLogic (logic_op (toUpperCase (fst jc)));
                       condition_of (snd jc)]) rest.

(** The groups with an OR connective between two of them: the result of
    the first pass. *)
Fixpoint interleave (gs : list (option node)) : list (option node) :=
  match gs with
  | [] => []
  | g :: gs' =>
      match gs' with
      | [] => [g]
      | _ :: _ => g :: Some (NLogic "OR") :: interleave gs'
      end
  end.

End Spec.

Definition cmp (k o v : string) : comparison :=
  {| cmp_key := k; cmp_op := o; cmp_val := v |}.

(** A statement used as an example: the clause
    [a = 'x' or b = 2 AND c > 3] of a SELECT, followed by ORDER BY. *)
Definition example_pre : list string := ["SELECT"; "*"; "FROM"; "t"; "WHERE"].
Definition example_rest : list (string * comparison) :=
  [("or", cmp "b" "=" "2"); ("AND", cmp "c" ">" "3")].

End WhereSpec.

(** ** Regular expressions of the runtime

    [new RegExp(source, 'i')] and [test] belong to the runtime. They are
    modelled on the fragment that the translation of a LIKE pattern can
    reach without a syntax error being involved: a source
    [^ item ... item $] whose items are a literal character or the dot,
    each optionally followed by a star. [None] stands for a source outside
    this fragment. *)

Module RegExp.
Import Str.

Inductive atom :=
| AnyChar
| Lit (c : ascii).

Inductive item :=
| One (a : atom)
| Star (a : atom).

(** The syntax characters of a pattern. *)
Definition metachars : list nat :=
  [92; 94; 36; 46; 124; 63; 42; 43; 40; 41; 91; 93; 123; 125].

Definition is_meta (c : ascii) : bool := existsb (Nat.eqb (code c)) metachars.

(** Canonicalization under the [i] flag, on code units below 256: the
    letters of ASCII and of Latin-1 that have an upper case in that range. *)
Definition canonicalize (c : ascii) : ascii :=
  if is_lower c then ascii_of_nat (code c - 32)
  else if between 224 254 c && negb (Nat.eqb (code c) 247)
       then ascii_of_nat (code c - 32)
       else c.

Definition atom_of (c : ascii) : option atom :=
  if Nat.eqb (code c) 46 then Some AnyChar
  else if is_meta c then None
  else Some (Lit c).

(** The items of a source up to the final dollar. *)
Fixpoint compile_items (cs : list ascii) : option (list item) :=
  match cs with
  | [] => None
  | c :: cs' =>
      match cs' with
      | [] => if Nat.eqb (code c) 36 then Some [] else None
      | d :: cs'' =>
          match atom_of c with
          | None => None
          | Some a =>
              if Nat.eqb (code d) 42
              then cons (Star a) <$> compile_items cs''
              else cons (One a) <$> compile_items cs'
          end
      end
  end.

(** [new RegExp(source, 'i')] for a source that starts with a caret. *)
Definition compile (source : string) : option (list item) :=
  match list_ascii_of_string source with
  | c :: cs => if Nat.eqb (code c) 94 then compile_items cs else None
  | [] => None
  end.

Definition atom_matches (a : atom) (c : ascii) : bool :=
  match a with
  | AnyChar => negb (is_line_terminator c)
  | Lit l => Nat.eqb (code (canonicalize l)) (code (canonicalize c))
  end.

(** The match of the items against the whole of [s]: the source is
    anchored at both ends. *)
Fixpoint match_items (items : list item) (s : list ascii) {struct items} : bool :=
  match items with
  | [] => match s with [] => true | _ :: _ => false end
  | One a :: r =>
      match s with
      | c :: s' => atom_matches a c && match_items r s'
      | [] => false
      end
  | Star a :: r =>
      (fix star (s : list ascii) : bool :=
         match_items r s
         || match s with
            | c :: s' => atom_matches a c && star s'
            | [] => false
            end) s
  end.

(** [regex.test(s)]. *)
Definition test (r : list item) (s : string) : bool :=
  match_items r (list_ascii_of_string s).

End RegExp.

(** ** The table scan of the engine (SawitDB._scanTable) *)

Module Scan.
Import Str QueryParser.

Section RowTest.
Context `{RT : Runtime}.

(** The criteria passed to a scan: a plain [{key, op, val}] as the
    services build it, or a node of [parseWhere], which carries a
    [type]. *)
Inductive criteria :=
| Plain (key op : string) (val : value)
| Typed (n : node).

(** What the scan relies on. [js_compare] is the comparison operators
    of the language on two values, by the name the scan gives them: a
    primitive of the runtime. The condition evaluator is a service of its
    own, with two entry points on a row and a criteria object. *)
Class Evaluator := {
  js_compare : string -> value -> value -> bool;
  checkSingleCondition : object value -> criteria -> res bool;
  checkMatch : object value -> criteria -> res bool
}.

Context `{EV : Evaluator}.

Fixpoint join_comma (l : list string) : string :=
  match l with
  | [] => EmptyString
  | [x] => x
  | x :: l' => x ++ "," ++ join_comma l'
  end.

(** [String(v)], as [test] applies it to its argument. *)
Fixpoint to_String (v : value) : string :=
  match v with
  | VUndefined => "undefined"
  | VNull => "null"
  | VBool true => "true"
  | VBool false => "false"
  | VNum n => num_to_string n
  | VStr s => s
  | VArr items =>
      join_comma
        (map (fun x => match x with
                       | VUndefined | VNull => EmptyString
                       | _ => to_String x
                       end) items)
  end.

(** [s.replace(/c/g, by)] for a character [c]. *)
Fixpoint replace_all (c : ascii) (by_ : string) (s : string) : string :=
  match s with
  | EmptyString => EmptyString
  | String d s' =>
      if Nat.eqb (code d) (code c) then by_ ++ replace_all c by_ s'
      else String d (replace_all c by_ s')
  end.

(** The pattern of the LIKE case: percent becomes dot-star, then
    underscore becomes dot. Nothing else is changed. *)
Definition like_pattern (criteriaVal : string) : string :=
  replace_all "_"%char "." (replace_all "%"%char ".*" criteriaVal).

(** The LIKE case of the inlined check. The outer [option] is [None]
    when the source lies outside the modelled fragment of regular
    expressions. *)
Definition like_case (criteriaVal val : value) : option (res bool) :=
  match criteriaVal with
  | VStr p =>
      match RegExp.compile ("^" ++ like_pattern p ++ "$") with
      | Some r => Some (Ok (RegExp.test r (to_String val)))
      | None => None
      end
  | VUndefined => Some (Throw (type_error "replace"))
  | VNull => Some (Throw "Cannot read properties of null (reading 'replace')")
  | _ => Some (Throw "criteriaVal.replace is not a function")
  end.

(** [obj[key]]. *)
Definition field (obj : object value) (key : string) : value :=
  match obj_get obj key with
  | Some v => v
  | None => VUndefined
  end.

(** The test of one row in the loop of [_scanTable]. A criteria object
    is simple when it has no [type] and a key and an operator that are
    not empty. *)
Definition row_matches (obj : object value) (c : option criteria)
  : option (res bool) :=
  match c with
  | None => Some (Ok true)
  | Some (Typed n) => Some (checkMatch obj (Typed n))
  | Some (Plain key op val) =>
      if String.eqb key "" || String.eqb op "" then
        Some (checkMatch obj (Plain key op val))
      else if includes ["="; ">"; "<"; ">="; "<="; "!="] op then
        Some (Ok (js_compare op (field obj key) val))
      else if String.eqb op "LIKE" then like_case val (field obj key)
      else Some (checkSingleCondition obj (Plain key op val))
  end.

End RowTest.

(** *** LIKE as the specification words it

    Percent stands for any sequence of characters, underscore for any
    single character, every other character for itself, without regard
    to case. *)
Fixpoint like_spec (pattern : list ascii) (s : list ascii) {struct pattern} : bool :=
  match pattern with
  | [] => match s with [] => true | _ :: _ => false end
  | p :: pattern' =>
      if Nat.eqb (code p) 37 then
        (fix any (s : list ascii) : bool :=
           like_spec pattern' s
           || match s with
              | _ :: s' => any s'
              | [] => false
              end) s
      else
        match s with
        | c :: s' =>
            (Nat.eqb (code p) 95
             || Nat.eqb (code (RegExp.canonicalize p)) (code (RegExp.canonicalize c)))
            && like_spec pattern' s'
        | [] => false
        end
  end.

Definition like (pattern s : string) : bool :=
  like_spec (list_ascii_of_string pattern) (list_ascii_of_string s).

End Scan.

(** ** The statement dispatcher (SawitDB.query) *)

Module Engine.
Import Str QueryParser.

Section Dispatcher.
Context `{RT : Runtime}.

(** The calls of the switch of [query] into the managers and executors. *)
Inductive call :=
| tableManager_createTable (table : option string)
| tableManager_showTables
| indexManager_showIndexes (table : option string)
| insertExecutor_execute (cmd : command)
| viewManager_executeView (table : option string) (criteria : option node)
| selectExecutor_execute (cmd : command)
| deleteExecutor_execute (cmd : command)
| updateExecutor_execute (cmd : command)
| tableManager_dropTable (table : option string)
| indexManager_createIndex (table field : option string)
| aggregateExecutor_execute (cmd : command)
| explain (innerCommand : command)
| viewManager_createView (viewName : string) (selectCommand : command)
| viewManager_dropView (viewName : string)
| schemaManager_defineSchema (table : string) (schema : object field_config)
| triggerManager_createTrigger (name : string) (timing event table : option string)
    (action : string)
| triggerManager_dropTrigger (name : string)
| procedureManager_createProcedure (name : string) (params : list (option string))
    (body : string)
| procedureManager_executeProcedure (name : string) (args : list value)
| statsManager_getTableStats (table : string)
| statsManager_getDatabaseSummary.

(** The services behind the engine. [result] is what the managers and
    executors return (rows, messages, plans); [store] is what they work
    on: the pages behind the pager, the catalog, the indexes, the views,
    the schemas and the other service tables. A call runs on the store;
    it may change it and then raise. The backup manager is asynchronous:
    its methods return a promise at once, which later settles with a
    result or with an error. The last fields are the texts that the
    transaction manager returns. *)
Class Stores := { result : Type; store : Type }.

Class Services `{ST : Stores} := {
  perform : call -> store -> res result * store;
  viewManager_isView : option string -> store -> bool;
  backupManager_createBackup : string -> store -> res result * store;
  backupManager_restoreBackup : string -> store -> res result * store;
  buffered_message : string -> command -> result;
  begin_message : result;
  commit_message : result;
  rollback_message : result;
  begin_error : string
}.

Context `{SV : Services}.

(** *** The transaction manager *)

Record transaction := {
  tx_active : bool;
  tx_buffer : list (string * command)
}.

Definition isActive (t : transaction) : bool := tx_active t.

(** Modelled from the spec: the transaction manager (its file is not
    part of the sources at hand). A buffer records the ordered list of
    buffered INSERT, UPDATE and DELETE commands. *)
Definition bufferOperation (t : transaction) (kind : string) (cmd : command)
  : result * transaction :=
  (buffered_message kind cmd,
   {| tx_active := tx_active t; tx_buffer := (tx_buffer t ++ [(kind, cmd)])%list |}).

(** Modelled from the spec: BEGIN inside an active transaction is an
    error; otherwise a buffer is created. *)
Definition begin (t : transaction) : res result * transaction :=
  if tx_active t then (Throw begin_error, t)
  else (Ok begin_message, {| tx_active := true; tx_buffer := [] |}).

(** Modelled from the spec: ROLLBACK discards the buffer. *)
Definition rollback (t : transaction) : res result * transaction :=
  (Ok rollback_message, {| tx_active := false; tx_buffer := [] |}).

Definition executor_of (kind : string) (cmd : command) : call :=
  if String.eqb kind "INSERT" then insertExecutor_execute cmd
  else if String.eqb kind "UPDATE" then updateExecutor_execute cmd
  else deleteExecutor_execute cmd.

(** Modelled from the spec: COMMIT replays the buffered operations in
    order against the live executors; a failure aborts. *)
Fixpoint replay (ops : list (string * command)) (s : store) : res unit * store :=
  match ops with
  | [] => (Ok tt, s)
  | (kind, cmd) :: ops' =>
      match perform (executor_of kind cmd) s with
      | (Ok _, s') => replay ops' s'
      | (Throw m, s') => (Throw m, s')
      end
  end.

Definition commit (t : transaction) (s : store)
  : res result * transaction * store :=
  match replay (tx_buffer t) s with
  | (Ok _, s') => (Ok commit_message, {| tx_active := false; tx_buffer := [] |}, s')
  | (Throw m, s') => (Throw m, {| tx_active := false; tx_buffer := [] |}, s')
  end.

(** *** The engine *)

Record db := {
  pager : bool;
  queryString_ : string;
  queryCache : list (string * command);
  transactionManager : transaction;
  storage : store
}.

Definition queryCacheLimit : nat := 1000.

(** What [query] returns: a text of its own, the result of a manager or
    an executor, or the promise of one. *)
Inductive output :=
| Message (text : string)
| Result (r : result)
| Promise (settles : res result).

Definition with_storage (d : db) (s : store) : db :=
  {| pager := pager d; queryString_ := queryString_ d;
     queryCache := queryCache d; transactionManager := transactionManager d;
     storage := s |}.

Definition with_transaction (d : db) (t : transaction) : db :=
  {| pager := pager d; queryString_ := queryString_ d;
     queryCache := queryCache d; transactionManager := t;
     storage := storage d |}.

Definition with_cache (d : db) (queryString : string)
    (cache : list (string * command)) : db :=
  {| pager := pager d; queryString_ := queryString;
     queryCache := cache; transactionManager := transactionManager d;
     storage := storage d |}.

(** A call whose result is returned as it is. *)
Definition returning (d : db) (c : call) : res output * db :=
  let '(r, s) := perform c (storage d) in
  (match r with Ok v => Ok (Result v) | Throw m => Throw m end, with_storage d s).

(** An INSERT, UPDATE or DELETE: buffered when a transaction is active,
    executed otherwise. *)
Definition write (d : db) (kind : string) (cmd : command) (c : call)
  : res output * db :=
  if isActive (transactionManager d) then
    let '(r, t) := bufferOperation (transactionManager d) kind cmd in
    (Ok (Result r), with_transaction d t)
  else returning d c.

Definition unknown_command : string :=
  "Perintah tidak dikenal atau belum diimplementasikan di Engine Refactor.".

(** The switch on [cmd.type]. *)
Definition execute_command (d : db) (cmd : command) : res output * db :=
  match cmd with
  | CREATE_TABLE table => returning d (tableManager_createTable table)
  | SHOW_TABLES => returning d tableManager_showTables
  | SHOW_INDEXES table => returning d (indexManager_showIndexes table)
  | INSERT _ _ => write d "INSERT" cmd (insertExecutor_execute cmd)
  | SELECT table _ _ criteria _ _ _ _ =>
      if viewManager_isView table (storage d)
      then returning d (viewManager_executeView table criteria)
      else returning d (selectExecutor_execute cmd)
  | DELETE _ _ => write d "DELETE" cmd (deleteExecutor_execute cmd)
  | UPDATE _ _ _ => write d "UPDATE" cmd (updateExecutor_execute cmd)
  | DROP_TABLE table => returning d (tableManager_dropTable table)
  | CREATE_INDEX table field => returning d (indexManager_createIndex table field)
  | AGGREGATE _ _ _ _ _ _ => returning d (aggregateExecutor_execute cmd)
  | EXPLAIN innerCommand => returning d (explain innerCommand)
  | BEGIN_TRANSACTION =>
      let '(r, t) := begin (transactionManager d) in
      (match r with Ok v => Ok (Result v) | Throw m => Throw m end,
       with_transaction d t)
  | COMMIT =>
      let '(r, t, s) := commit (transactionManager d) (storage d) in
      (match r with Ok v => Ok (Result v) | Throw m => Throw m end,
       with_storage (with_transaction d t) s)
  | ROLLBACK =>
      let '(r, t) := rollback (transactionManager d) in
      (match r with Ok v => Ok (Result v) | Throw m => Throw m end,
       with_transaction d t)
  | CREATE_VIEW viewName selectCommand =>
      returning d (viewManager_createView viewName selectCommand)
  | DROP_VIEW viewName => returning d (viewManager_dropView viewName)
  | DEFINE_SCHEMA table schema => returning d (schemaManager_defineSchema table schema)
  | CREATE_TRIGGER name timing event table action =>
      returning d (triggerManager_createTrigger name timing event table action)
  | DROP_TRIGGER name => returning d (triggerManager_dropTrigger name)
  | CREATE_PROCEDURE name params body =>
      returning d (procedureManager_createProcedure name params body)
  | EXECUTE_PROCEDURE name args =>
      returning d (procedureManager_executeProcedure name args)
  | BACKUP path =>
      let '(r, s) := backupManager_createBackup path (storage d) in
      (Ok (Promise r), with_storage d s)
  | RESTORE path =>
      let '(r, s) := backupManager_restoreBackup path (storage d) in
      (Ok (Promise r), with_storage d s)
  | SHOW_STATS table =>
      match table with
      | Some t => returning d (statsManager_getTableStats t)
      | None => returning d statsManager_getDatabaseSummary
      end
  | EMPTY | ERROR _ => (Ok (Message unknown_command), d)
  end.

(** [try { switch ... } catch (e) { return `Error: ${e.message}` }]. *)
Definition try_execute (d : db) (cmd : command) : res output * db :=
  match execute_command d cmd with
  | (Throw m, d') => (Ok (Message ("Error: " ++ m)), d')
  | r => r
  end.

(** [queryCache.delete(key)]. *)
Fixpoint cache_delete (cache : list (string * command)) (key : string)
  : list (string * command) :=
  match cache with
  | [] => []
  | (k, c) :: cache' =>
      if String.eqb k key then cache' else (k, c) :: cache_delete cache' key
  end.

(** The eviction loop: the oldest entries go while the size exceeds the
    limit. *)
Definition evict (cache : list (string * command)) : list (string * command) :=
  drop (List.length cache - queryCacheLimit) cache.

(** The first half of [query], up to the [try] block: either [query]
    returns at once, or a command is ready to run. *)
Inductive resolution :=
| Return (o : res output) (d : db)
| Run (cmd : command) (d : db).

(** The command comes from the cache when no parameters are passed and
    the text is cached; otherwise the text is parsed, and the parameters
    are bound outside of any [try] block. [None]: the parser does not
    return within the fuel. *)
Definition resolve (fuel : nat) (d : db) (queryString : string)
    (params : option (object value)) : option resolution :=
  match obj_get (queryCache d) queryString, params with
  | Some cached, None =>
      let cache := (cache_delete (queryCache d) queryString
                    ++ [(queryString, cached)])%list in
      Some (Run cached (with_cache d queryString cache))
  | _, _ =>
      match parse fuel queryString None with
      | None => None
      | Some (ERROR message) =>
          Some (Return (Ok (Message ("Error: " ++ message)))
                  (with_cache d queryString (queryCache d)))
      | Some templateCmd =>
          match params with
          | None =>
              let cache :=
                evict (obj_set (queryCache d) queryString templateCmd) in
              Some (Run templateCmd (with_cache d queryString cache))
          | Some ps =>
              let d' := with_cache d queryString (queryCache d) in
              match _bindParameters templateCmd ps with
              | Throw m => Some (Return (Throw m) d')
              | Ok cmd => Some (Run cmd d')
              end
          end
      end
  end.

(** [query(queryString, params)]. A [Throw] is an exception that leaves
    [query]. *)
Definition query (fuel : nat) (d : db) (queryString : string)
    (params : option (object value)) : option (res output * db) :=
  if negb (pager d) then Some (Ok (Message "Error: Database is closed."), d)
  else
    match resolve fuel d queryString params with
    | None => None
    | Some (Return o d') => Some (o, d')
    | Some (Run cmd d') => Some (try_execute d' cmd)
    end.

(** The commands that write to a table. *)
Definition is_write (cmd : command) : bool :=
  match cmd with
  | INSERT _ _ | UPDATE _ _ _ | DELETE _ _ => true
  | _ => false
  end.

(** A database that has just been opened on the store [s], and the same
    after BEGIN. *)
Definition opened (s : store) : db :=
  {| pager := true; queryString_ := ""; queryCache := [];
     transactionManager := {| tx_active := false; tx_buffer := [] |};
     storage := s |}.

Definition in_transaction (s : store) : db :=
  with_transaction (opened s) {| tx_active := true; tx_buffer := [] |}.

End Dispatcher.

End Engine.

(** Two instances of the services, used to run the engine on concrete
    statements. In the first the store is the list of the calls made so
    far and every call succeeds; in the second every call raises. *)

Module ExampleServices.
Import Str QueryParser Engine IntRuntime.

#[export] Instance logging_stores : Stores :=
  {| result := string; store := list call |}.

#[export] Instance logging_services : Services :=
  {| perform := fun c s => (Ok "ok", (s ++ [c])%list);
     viewManager_isView := fun _ _ => false;
     backupManager_createBackup := fun _ s => (Ok "ok", s);
     backupManager_restoreBackup := fun _ s => (Ok "ok", s);
     buffered_message := fun kind _ => kind ++ " buffered";
     begin_message := "begin";
     commit_message := "commit";
     rollback_message := "rollback";
     begin_error := "Transaction already active" |}.

#[export] Instance failing_stores : Stores | 100 :=
  {| result := string; store := unit |}.

#[export] Instance failing_services : @Services _ failing_stores | 100 :=
  @Build_Services _ failing_stores
    (fun _ s => (Throw "Kebun 't' tidak ditemukan.", s))
    (fun _ _ => false)
    (fun _ s => (Throw "Backup failed", s))
    (fun _ s => (Throw "Restore failed", s))
    (fun kind _ => kind ++ " buffered")
    "begin" "commit" "rollback" "Transaction already active".

Definition example_insert : command := INSERT (Some "t") [("id", VNum 1%Z)].

(** A database in which every call raises, open under the name kebun. *)
Definition failing_db : @db _ failing_stores := @opened _ failing_stores tt.
Definition failing_dbs : list (string * @db _ failing_stores) :=
  [("kebun", failing_db)].
Definition failing_select : command :=
  SELECT (Some "t") ["*"] [] None None None None false.

End ExampleServices.

(** ** The network front-end (SawitServer: handleQuery) *)

Module SawitServer.
Import Str QueryParser Engine.

(** [s.trim()]. *)
Definition trim (s : string) : string :=
  let fix drop_spaces (cs : list ascii) : list ascii :=
    match cs with
    | c :: cs' => if is_space c then drop_spaces cs' else cs
    | [] => []
    end in
  string_of_list_ascii
    (rev (drop_spaces (rev (drop_spaces (list_ascii_of_string s))))).

(** The statements that [handleQuery] intercepts before any database is
    involved. *)
Definition is_server_level (query : string) : bool :=
  let qUpper := toUpperCase (trim query) in
  String.eqb qUpper "LIHAT WILAYAH"
  || startsWith qUpper "BUKA WILAYAH"
  || startsWith qUpper "MASUK WILAYAH"
  || startsWith qUpper "BAKAR WILAYAH"
  || startsWith qUpper "CREATE DATABASE"
  || startsWith qUpper "USE "
  || String.eqb qUpper "SHOW DATABASES"
  || startsWith qUpper "DROP DATABASE".

Section Server.
Context `{RT : Runtime} `{ST : Stores} `{SV : !Services}.

(** The result carried by a response: a text or a result of the
    engine. The execution time of a response is left out. *)
Inductive payload :=
| Text (s : string)
| Value (r : result).

(** The frames written by [handleQuery]. *)
Inductive frame :=
| query_result (result : payload) (query : string)
| error (message : string).

(** The state of a connection and of the server: the current database
    of the connection and the open databases by name. *)
Record connection := { currentDatabase : option string }.

Definition databases : Type := list (string * db).

(** The front-end relies on the file system for the intercepted
    statements and for opening a database file. *)
Class Host := {
  server_statement : string -> connection -> databases
                     -> frame * connection * databases;
  open_database : string -> res db
}.

Context `{HS : Host}.

(** [getOrCreateDatabase(name)]. *)
Definition getOrCreateDatabase (dbs : databases) (name : string)
  : res (db * databases) :=
  match obj_get dbs name with
  | Some d => Ok (d, dbs)
  | None =>
      let* d := open_database name in
      Ok (d, obj_set dbs name d)
  end.

Definition no_database : string :=
  "Anda belum masuk wilayah manapun. Gunakan: MASUK WILAYAH [nama]".

(** The frame sent for what [query] gave, once awaited: a value becomes
    a query_result frame, an exception or a rejected promise an error
    frame. *)
Definition respond (queryString : string) (o : res output) : frame :=
  match o with
  | Ok (Message t) => query_result (Text t) queryString
  | Ok (Result r) => query_result (Value r) queryString
  | Ok (Promise (Ok r)) => query_result (Value r) queryString
  | Ok (Promise (Throw m)) => error ("Query error: " ++ m)
  | Throw m => error ("Query error: " ++ m)
  end.

(** [handleQuery] with local execution (no thread pool). [None]: the
    engine does not return within the fuel. *)
Definition handleQuery (fuel : nat) (dbs : databases) (c : connection)
    (queryString : string) (params : option (object value))
  : option (frame * connection * databases) :=
  if is_server_level queryString
  then Some (server_statement queryString c dbs)
  else
    match currentDatabase c with
    | None => Some (error no_database, c, dbs)
    | Some name =>
        match getOrCreateDatabase dbs name with
        | Throw m => Some (error ("Query error: " ++ m), c, dbs)
        | Ok (d, dbs1) =>
            match query fuel d queryString params with
            | None => None
            | Some (o, d') =>
                Some (respond queryString o, c, obj_set dbs1 name d')
            end
        end
    end.

(** The property of the responses as the specification words it: a
    statement whose execution fails is answered with an error frame. *)
Definition failure_answers_error_frame : Prop :=
  ∀ fuel dbs c name d queryString params cmd d1 m d2,
    is_server_level queryString = false ->
    currentDatabase c = Some name ->
    obj_get dbs name = Some d ->
    pager d = true ->
    resolve fuel d queryString params = Some (Run cmd d1) ->
    execute_command d1 cmd = (Throw m, d2) ->
    ∃ message c' dbs',
      handleQuery fuel dbs c queryString params
      = Some (error message, c', dbs').

End Server.

(** A host without a file system, used to run the front-end on concrete
    requests. *)
Definition example_host `{RT : Runtime} `{ST : Stores} `{SV : !Services} : Host :=
  {| server_statement := fun _ c dbs => (error "not available", c, dbs);
     open_database := fun _ => Throw "not available" |}.

End SawitServer.

(** ** The schema manager (SchemaManager.validateData, _validateType) *)

Module SchemaManager.
Import Str QueryParser Scan.

Section Validation.
Context `{RT : Runtime}.

(** The conversions of the runtime that the validation uses:
    [to_number v] is [Number(v)], with [None] for [NaN];
    [to_iso_date v] is [new Date(v).toISOString()], with [None] for an
    invalid date; [is_zero n] and [is_one n] are [n === 0] and
    [n === 1]. *)
Class Coercions := {
  to_number : value -> option num;
  to_iso_date : value -> option string;
  is_zero : num -> bool;
  is_one : num -> bool
}.

Context `{CO : Coercions}.

(** [typeof v]. *)
Definition typeof (v : value) : string :=
  match v with
  | VUndefined => "undefined"
  | VNull => "object"
  | VBool _ => "boolean"
  | VNum _ => "number"
  | VStr _ => "string"
  | VArr _ => "object"
  end.

Definition is_undefined (v : value) : bool :=
  match v with VUndefined => true | _ => false end.

Definition is_null (v : value) : bool :=
  match v with VNull => true | _ => false end.

(** [_validateType(field, value, type)]. *)
Definition _validateType (field : string) (v : value) (type : option string)
  : res value :=
  match type with
  | None => Throw (type_error "toUpperCase")
  | Some type =>
      let upperType := toUpperCase type in
      if includes ["TEKS"; "STRING"] upperType then
        match v with
        | VStr _ => Ok v
        | _ => Throw ("Field '" ++ field ++ "' must be a string, got " ++ typeof v)
        end
      else if includes ["ANGKA"; "NUMBER"] upperType then
        match to_number v with
        | Some n => Ok (VNum n)
        | None =>
            Throw ("Field '" ++ field ++ "' must be a number, got '"
                   ++ to_String v ++ "'")
        end
      else if includes ["TANGGAL"; "DATE"] upperType then
        match to_iso_date v with
        | Some iso => Ok (VStr iso)
        | None =>
            Throw ("Field '" ++ field ++ "' must be a valid date, got '"
                   ++ to_String v ++ "'")
        end
      else if includes ["BENAR_SALAH"; "BOOLEAN"] upperType then
        let bad :=
          Throw ("Field '" ++ field ++ "' must be a boolean, got '"
                 ++ to_String v ++ "'") in
        match v with
        | VBool _ => Ok v
        | VStr s =>
            if String.eqb s "true" then Ok (VBool true)
            else if String.eqb s "false" then Ok (VBool false)
            else bad
        | VNum n =>
            if is_one n then Ok (VBool true)
            else if is_zero n then Ok (VBool false)
            else bad
        | _ => bad
        end
      else Throw ("Unknown type '" ++ type ++ "' for field '" ++ field ++ "'")
  end.

(** A default that is set: [config.default !== undefined]. *)
Definition default_of (config : field_config) : option value :=
  match fc_default config with
  | Some d => if is_undefined d then None else Some d
  | None => None
  end.

(** The body of the loop over the fields of the schema. *)
Definition validate_field (data validated : object value) (field : string)
    (config : field_config) : res (object value) :=
  let v := Scan.field data field in
  if fc_required config && (is_undefined v || is_null v) then
    Throw ("Field '" ++ field ++ "' is required but missing")
  else
    match default_of config with
    | Some d =>
        if is_undefined v then Ok (obj_set validated field d)
        else if is_null v then Ok (obj_set validated field VNull)
        else
          let* v' := _validateType field v (fc_type config) in
          Ok (obj_set validated field v')
    | None =>
        if is_undefined v then Ok validated
        else if is_null v then Ok (obj_set validated field VNull)
        else
          let* v' := _validateType field v (fc_type config) in
          Ok (obj_set validated field v')
    end.

Fixpoint validate_fields (schema : object field_config)
    (data validated : object value) : res (object value) :=
  match schema with
  | [] => Ok validated
  | (field, config) :: schema' =>
      let* validated' := validate_field data validated field config in
      validate_fields schema' data validated'
  end.

(** The names that every object inherits from [Object.prototype]: the
    value of [o[k]] for such a name is a function or an object when [o]
    has no property [k] of its own. *)
Definition prototype_keys : list string :=
  ["constructor"; "toString"; "toLocaleString"; "valueOf"; "hasOwnProperty";
   "isPrototypeOf"; "propertyIsEnumerable"; "__proto__";
   "__defineGetter__"; "__defineSetter__"; "__lookupGetter__";
   "__lookupSetter__"].

Definition plain (k : string) : bool := negb (includes prototype_keys k).

(** The truth value of [schema[field]]: a configuration of the schema,
    or what the object inherits under that name. *)
Definition has_property (schema : object field_config) (field : string)
  : bool :=
  match obj_get schema field with
  | Some _ => true
  | None => includes prototype_keys field
  end.

(** The loop over the fields of the data: a field is taken as it is
    unless [schema[field]] is true. *)
Fixpoint extra_fields (schema : object field_config) (entries : object value)
    (validated : object value) : object value :=
  match entries with
  | [] => validated
  | (field, v) :: entries' =>
      extra_fields schema entries'
        (if has_property schema field then validated
         else obj_set validated field v)
  end.

(** [validateData(tableName, data)]; [schemas] is the map from the name
    of a table to its schema. The fields of a schema are taken to have
    plain names, so that [data[field]] is a property of [data] itself or
    [undefined]. *)
Definition validateData (schemas : object (object field_config))
    (tableName : string) (data : object value) : res (object value) :=
  match obj_get schemas tableName with
  | None => Ok data
  | Some schema =>
      let* validated := validate_fields schema data [] in
      Ok (extra_fields schema data validated)
  end.

(** A value that is present: neither [undefined] nor [null]. *)
Definition present (v : value) : bool := negb (is_undefined v || is_null v).

(** The coercion that the specification states for a type, as a relation
    between the value given and the value stored. *)
Definition coerced (type : string) (v v' : value) : Prop :=
  let upperType := toUpperCase type in
  (includes ["ANGKA"; "NUMBER"] upperType = true ->
   ∃ n, to_number v = Some n ∧ v' = VNum n)
  ∧ (includes ["TANGGAL"; "DATE"] upperType = true ->
     ∃ iso, to_iso_date v = Some iso ∧ v' = VStr iso)
  ∧ (includes ["BENAR_SALAH"; "BOOLEAN"] upperType = true ->
     ∃ b, v' = VBool b
          ∧ (v = VBool b
             ∨ v = VStr (if b then "true" else "false")
             ∨ ∃ n, v = VNum n ∧ (if b then is_one n else is_zero n) = true)).

(** What one turn of the loop over the schema leaves under the name of
    its field. *)
Definition field_validated (data : object value) (field : string)
    (config : field_config) (before after : option value) : Prop :=
  let v := Scan.field data field in
  (present v = true ->
   ∃ v', _validateType field v (fc_type config) = Ok v' ∧ after = Some v')
  ∧ (is_undefined v = true ->
     match default_of config with
     | Some d => after = Some d
     | None => after = before
     end)
  ∧ (is_null v = true -> after = Some VNull)
  ∧ (present v = false -> fc_required config = false).

End Validation.

End SchemaManager.

(** ** Buffers (the Buffer of the runtime) *)

Module Buffer.

Definition buffer := list Byte.byte.

(** The low byte of a number. *)
Definition byte_of (n : nat) : Byte.byte :=
  default Byte.x00 (Byte.of_nat (n mod 256)).

(** The exceptions of the runtime are kept by their code. *)
Definition ERR_OUT_OF_RANGE : string := "ERR_OUT_OF_RANGE".
Definition ERR_BUFFER_OUT_OF_BOUNDS : string := "ERR_BUFFER_OUT_OF_BOUNDS".

(** [buf.readUInt16LE(offset)]. *)
Definition readUInt16LE (buf : buffer) (offset : nat) : res nat :=
  match buf !! offset, buf !! S offset with
  | Some lo, Some hi => Ok (Byte.to_nat lo + 256 * Byte.to_nat hi)
  | _, _ => Throw ERR_OUT_OF_RANGE
  end.

(** [buf.writeUInt16LE(value, offset)]: the value is checked before the
    offset. *)
Definition writeUInt16LE (value offset : nat) (buf : buffer) : res buffer :=
  if N.ltb 65535 (N.of_nat value) then Throw ERR_OUT_OF_RANGE
  else if Nat.ltb (S offset) (List.length buf) then
    Ok (<[S offset := byte_of (value / 256)]> (<[offset := byte_of value]> buf))
  else Throw ERR_BUFFER_OUT_OF_BOUNDS.

(** [buf.writeUInt32LE(value, offset)]. *)
Definition writeUInt32LE (value offset : nat) (buf : buffer) : res buffer :=
  if N.ltb 4294967295 (N.of_nat value) then Throw ERR_OUT_OF_RANGE
  else if Nat.ltb (3 + offset) (List.length buf) then
    Ok (<[3 + offset := byte_of (value / 256 / 256 / 256)]>
        (<[2 + offset := byte_of (value / 256 / 256)]>
         (<[1 + offset := byte_of (value / 256)]>
          (<[offset := byte_of value]> buf))))
  else Throw ERR_BUFFER_OUT_OF_BOUNDS.

(** [source.copy(target, targetStart)]: the bytes of the source that fit
    between [targetStart] and the end of the target are copied, the others
    are left out without an exception. *)
Definition copy (source target : buffer) (targetStart : nat) : buffer :=
  let room := List.length target - targetStart in
  let copied := take room source in
  (take targetStart target ++ copied
   ++ drop (targetStart + List.length copied) target)%list.

(** [Buffer.from(s, 'utf8')]: the strings of the model are sequences of
    bytes, taken as the UTF-8 form of the text. *)
Definition from (s : string) : buffer := list_byte_of_string s.

End Buffer.

(** ** The pager *)

Module Pager.
Import Buffer.

Definition PAGE_SIZE : nat := 4096.

(** Modelled from the spec: the file is a sequence of pages of
    [PAGE_SIZE] bytes; a page begins with the number of the next page of
    its chain (four bytes), the count of its records (two bytes) and the
    offset of its free space (two bytes). *)
Definition pager := list buffer.

(** Modelled from the spec: a new page has the header [next = 0],
    [count = 0], [freeOffset = 8]. *)
Definition fresh_page : buffer :=
  ([Byte.x00; Byte.x00; Byte.x00; Byte.x00; Byte.x00; Byte.x00;
    Byte.x08; Byte.x00] ++ replicate (PAGE_SIZE - 8) Byte.x00)%list.

(** Modelled from the spec: the number of the next page in the header
    of a page, four bytes with the low byte first. *)
Definition next_of (page : buffer) : nat :=
  match page with
  | b0 :: b1 :: b2 :: b3 :: _ =>
      ((Byte.to_nat b3 * 256 + Byte.to_nat b2) * 256 + Byte.to_nat b1) * 256
      + Byte.to_nat b0
  | _ => 0
  end.

Definition StorageFault : string := "StorageFault".

(** Modelled from the spec: [readPage(id)] gives the bytes of the page,
    a page out of range is a storage fault. *)
Definition readPage (p : pager) (id : nat) : res buffer :=
  match p !! id with
  | Some buf => Ok buf
  | None => Throw StorageFault
  end.

(** Modelled from the spec: [writePage(id, bytes)]. *)
Definition writePage (p : pager) (id : nat) (buf : buffer) : res pager :=
  if Nat.ltb id (List.length p) then Ok (<[id := buf]> p)
  else Throw StorageFault.

(** Modelled from the spec: [allocPage()] returns the index of the end of
    the file and extends the file by one new page. *)
Definition allocPage (p : pager) : nat * pager :=
  (List.length p, (p ++ [fresh_page])%list).

End Pager.

(** ** The catalog of tables (TableManager) *)

Module TableManager.
Import QueryParser.

Record table_entry := { startPage : nat; lastPage : nat }.

(** Modelled from the spec: the catalog gives each table its first and
    its last page. *)
Definition catalog := object table_entry.

(** Modelled from the spec: [findTableEntry(name)], [None] for [null]. *)
Definition findTableEntry (c : catalog) (name : string) : option table_entry :=
  obj_get c name.

(** Modelled from the spec: [updateTableLastPage(name, pageId)]. *)
Definition updateTableLastPage (c : catalog) (name : string) (pageId : nat)
  : catalog :=
  match obj_get c name with
  | Some entry =>
      obj_set c name {| startPage := startPage entry; lastPage := pageId |}
  | None => c
  end.

End TableManager.

(** ** JSON.stringify on rows *)

Module JSON.
Import Str QueryParser.

Section Stringify.
Context `{RT : Runtime}.

(** How a number is written in JSON: a primitive of the runtime. *)
Class Serializer := { number_to_json : num -> string }.

Context `{SR : Serializer}.

Definition hex_digit (n : nat) : ascii :=
  ascii_of_nat (if Nat.ltb n 10 then 48 + n else 87 + n).

Definition char (n : nat) : string := String (ascii_of_nat n) EmptyString.

(** The form of one character inside a string of JSON: the quote and the
    backslash take a backslash, the control characters their short form
    or the form with four hexadecimal digits. *)
Definition escape (c : ascii) : string :=
  let n := nat_of_ascii c in
  if Nat.eqb n 34 then char 92 ++ char 34
  else if Nat.eqb n 92 then char 92 ++ char 92
  else if Nat.eqb n 8 then char 92 ++ "b"
  else if Nat.eqb n 12 then char 92 ++ "f"
  else if Nat.eqb n 10 then char 92 ++ "n"
  else if Nat.eqb n 13 then char 92 ++ "r"
  else if Nat.eqb n 9 then char 92 ++ "t"
  else if Nat.ltb n 32 then
    char 92 ++ "u00" ++ String (hex_digit (n / 16))
                          (String (hex_digit (n mod 16)) EmptyString)
  else String c EmptyString.

Fixpoint escape_all (s : string) : string :=
  match s with
  | EmptyString => EmptyString
  | String c s' => escape c ++ escape_all s'
  end.

Definition quote (s : string) : string := char 34 ++ escape_all s ++ char 34.

(** A value as an element of an array or as the value of a property;
    [undefined] is written [null] in an array. *)
Fixpoint stringify_value (v : value) : string :=
  match v with
  | VUndefined | VNull => "null"
  | VBool true => "true"
  | VBool false => "false"
  | VNum n => number_to_json n
  | VStr s => quote s
  | VArr items => "[" ++ Scan.join_comma (map stringify_value items) ++ "]"
  end.

Definition defined (p : string * value) : bool :=
  match snd p with VUndefined => false | _ => true end.

(** [JSON.stringify(data)] on a row: the properties that hold
    [undefined] are left out. The names of the properties are taken in
    the order of the object, which is the order of insertion for names
    that are not array indices. *)
Definition stringify (data : object value) : string :=
  "{" ++ Scan.join_comma
           (map (fun p => quote (fst p) ++ ":" ++ stringify_value (snd p))
                (List.filter defined data))
      ++ "}".

End Stringify.

End JSON.

(** ** The index manager (IndexManager.updateIndexes) *)

Module IndexManager.
Import Str QueryParser.

Section Indexes.
Context `{RT : Runtime}.

(** [a === b] on two values of rows: a primitive of the runtime. *)
Class StrictEquality := { strict_equal : value -> value -> bool }.

Context `{SE : StrictEquality}.

(** A row object, with the page hint that the insertion and the scan
    attach to it as the property [_pageId], which is not enumerable. *)
Record row := { data : object value; _pageId : option nat }.

(** Modelled from the spec: the index is an ordered map from the value
    of the field to the references of the rows; it is kept as the list of
    its entries. *)
Definition index := list (value * row).

(** Modelled from the spec: [index.insert(key, rowRef)]. *)
Definition index_insert (key : value) (r : row) (i : index) : index :=
  (i ++ [(key, r)])%list.

(** Modelled from the spec: [index.delete(key)] removes what the index
    holds under the key. *)
Definition index_delete (key : value) (i : index) : index :=
  List.filter (fun e => negb (strict_equal (fst e) key)) i.

(** [s.split('.')]. *)
Fixpoint split_dot (s : string) : list string :=
  match s with
  | EmptyString => [EmptyString]
  | String c s' =>
      if Ascii.eqb c "." then EmptyString :: split_dot s'
      else
        match split_dot s' with
        | x :: l => String c x :: l
        | [] => [String c EmptyString]
        end
  end.

(** [obj[field]] on a row. *)
Definition get (field : string) (r : row) : value := Scan.field (data r) field.

(** [obj.hasOwnProperty(field)]. *)
Definition hasOwnProperty (r : row) (field : string) : bool :=
  match obj_get (data r) field with Some _ => true | None => false end.

(** The body of the loop of [updateIndexes] on one index. The second
    element of the split key is [undefined] when the key has no dot, and
    is then read as the name [undefined]. *)
Definition update_index (table : string) (newObj oldObj : option row)
    (indexKey : string) (i : index) : index :=
  let parts := split_dot indexKey in
  let tbl := nth 0 parts EmptyString in
  let field := nth 1 parts "undefined" in
  if negb (String.eqb tbl table) then i
  else
    let i1 :=
      match oldObj with
      | Some old =>
          if hasOwnProperty old field then
            match newObj with
            | None => index_delete (get field old) i
            | Some new =>
                if negb (strict_equal (get field new) (get field old))
                then index_delete (get field old) i
                else i
            end
          else i
      | None => i
      end in
    match newObj with
    | Some new =>
        if hasOwnProperty new field then
          match oldObj with
          | None => index_insert (get field new) new i1
          | Some old =>
              if negb (strict_equal (get field new) (get field old))
              then index_insert (get field new) new i1
              else i1
          end
        else i1
    | None => i1
    end.

(** The map [db.indexes], from the key [table.field] to the index, in
    the order of insertion. *)
Definition indexes := list (string * index).

(** [updateIndexes(table, newObj, oldObj)]. *)
Definition updateIndexes (table : string) (newObj oldObj : option row)
    (ix : indexes) : indexes :=
  map (fun e => (fst e, update_index table newObj oldObj (fst e) (snd e))) ix.

(** [removeFromIndexes(table, data)]. *)
Definition removeFromIndexes (table : string) (r : row) (ix : indexes)
  : indexes :=
  map (fun e =>
         let parts := split_dot (fst e) in
         let tbl := nth 0 parts EmptyString in
         let field := nth 1 parts "undefined" in
         if String.eqb tbl table && hasOwnProperty r field
         then (fst e, index_delete (get field r) (snd e))
         else e) ix.

End Indexes.

End IndexManager.

(** ** The insert executor (InsertExecutor.insertMany) *)

Module InsertExecutor.
Import Str QueryParser Buffer Pager TableManager IndexManager.

Section Insert.
Context `{RT : Runtime} `{CO : !SchemaManager.Coercions}
        `{SR : !JSON.Serializer} `{SE : !StrictEquality}.

(** A trigger of the trigger manager. *)
Record trigger := {
  trigger_name : string;
  timing : string;
  event : string;
  action : string
}.

(** The engine as the insertion sees it: the pager, the catalog, the
    indexes, the schemas, the triggers by table, the audit log with its
    switch and the events handed to the observer. *)
Record database := {
  pager_ : pager;
  tables : catalog;
  indexes_ : indexes;
  schemas : object (object field_config);
  triggers : object (list trigger);
  audit_enabled : bool;
  audit_log : list (string * string * row);
  events : list (string * list row)
}.

(** What a trigger does: its action is parsed and run as a query of the
    engine, and an exception is caught and printed. *)
Class Actions := { run_action : string -> database -> database }.

Context `{AC : Actions}.

Definition with_pager (d : database) (p : pager) : database :=
  {| pager_ := p; tables := tables d; indexes_ := indexes_ d;
     schemas := schemas d; triggers := triggers d;
     audit_enabled := audit_enabled d; audit_log := audit_log d;
     events := events d |}.

Definition with_tables (d : database) (c : catalog) : database :=
  {| pager_ := pager_ d; tables := c; indexes_ := indexes_ d;
     schemas := schemas d; triggers := triggers d;
     audit_enabled := audit_enabled d; audit_log := audit_log d;
     events := events d |}.

Definition with_indexes (d : database) (ix : indexes) : database :=
  {| pager_ := pager_ d; tables := tables d; indexes_ := ix;
     schemas := schemas d; triggers := triggers d;
     audit_enabled := audit_enabled d; audit_log := audit_log d;
     events := events d |}.

Definition with_audit (d : database) (l : list (string * string * row))
  : database :=
  {| pager_ := pager_ d; tables := tables d; indexes_ := indexes_ d;
     schemas := schemas d; triggers := triggers d;
     audit_enabled := audit_enabled d; audit_log := l;
     events := events d |}.

Definition with_events (d : database) (l : list (string * list row))
  : database :=
  {| pager_ := pager_ d; tables := tables d; indexes_ := indexes_ d;
     schemas := schemas d; triggers := triggers d;
     audit_enabled := audit_enabled d; audit_log := audit_log d;
     events := l |}.

(** [triggerManager.executeTriggers(table, event, timing, context)]. *)
Definition matching (table event_ timing_ : string) (d : database)
  : list trigger :=
  List.filter
    (fun t => String.eqb (event t) (toUpperCase event_)
              && String.eqb (timing t) (toUpperCase timing_))
    (match obj_get (triggers d) table with Some l => l | None => [] end).

Definition executeTriggers (table event_ timing_ : string) (d : database)
  : database :=
  foldl (fun d t => run_action (action t) d) d
    (matching table event_ timing_ d).

(** [auditLogger.logInsert(table, data)]. *)
Definition logInsert (table : string) (r : row) (d : database) : database :=
  if audit_enabled d
  then with_audit d (audit_log d ++ [("INSERT", table, r)])%list
  else d.

(** The record of a row: its length on two bytes, then its bytes. *)
Definition record_of (dataBuf : buffer) : buffer :=
  ([byte_of (List.length dataBuf); byte_of (List.length dataBuf / 256)]
   ++ dataBuf)%list.

(** The local variables of the loop of [insertMany]. *)
Record cursor := {
  db : database;
  currentPageId : nat;
  pData : buffer;
  freeOffset : nat;
  count : nat;
  startPageChanged : bool;
  written : list row
}.

(** The branch of the loop for a record that does not fit: the page is
    written with its header, a page is allocated, the old page is linked
    to it and written again, and the new page becomes the current one. *)
Definition next_page (c : cursor) : res cursor :=
  let* p1 := writeUInt16LE (count c) 4 (pData c) in
  let* p2 := writeUInt16LE (freeOffset c) 6 p1 in
  let* pg1 := writePage (pager_ (db c)) (currentPageId c) p2 in
  let (newPageId, pg2) := allocPage pg1 in
  let* p3 := writeUInt32LE newPageId 0 p2 in
  let* pg3 := writePage pg2 (currentPageId c) p3 in
  let* p4 := readPage pg3 newPageId in
  let* freeOffset' := readUInt16LE p4 6 in
  let* count' := readUInt16LE p4 4 in
  Ok {| db := with_pager (db c) pg3; currentPageId := newPageId;
        pData := p4; freeOffset := freeOffset'; count := count';
        startPageChanged := true; written := written c |}.

(** The body of the loop of [insertMany] for one row. *)
Definition insert_row (table : string) (c : cursor) (validatedData : object value)
  : res cursor :=
  let dataBuf := from (JSON.stringify validatedData) in
  let recordLen := List.length dataBuf in
  let totalLen := 2 + recordLen in
  let* c1 :=
    if Nat.ltb PAGE_SIZE (freeOffset c + totalLen) then next_page c else Ok c in
  let* p1 := writeUInt16LE recordLen (freeOffset c1) (pData c1) in
  let p2 := copy dataBuf p1 (freeOffset c1 + 2) in
  let r := {| data := validatedData; _pageId := Some (currentPageId c1) |} in
  let d1 :=
    if negb (String.eqb table "_indexes")
    then with_indexes (db c1) (updateIndexes table (Some r) None (indexes_ (db c1)))
    else db c1 in
  let d2 := if negb (String.eqb table "_audit") then logInsert table r d1 else d1 in
  Ok {| db := d2; currentPageId := currentPageId c1; pData := p2;
        freeOffset := freeOffset c1 + totalLen; count := S (count c1);
        startPageChanged := startPageChanged c1;
        written := (written c1 ++ [r])%list |}.

Fixpoint insert_rows (table : string) (c : cursor) (rows : list (object value))
  : res cursor :=
  match rows with
  | [] => Ok c
  | validatedData :: rows' =>
      let* c' := insert_row table c validatedData in
      insert_rows table c' rows'
  end.

(** The loop that validates the rows against the schema of the table. *)
Fixpoint validate_all (d : database) (table : string)
    (dataArray : list (object value)) : res (list (object value)) :=
  match dataArray with
  | [] => Ok []
  | data :: dataArray' =>
      let* validatedData := SchemaManager.validateData (schemas d) table data in
      let* rest := validate_all d table dataArray' in
      Ok (validatedData :: rest)
  end.

Definition run_triggers (table timing_ : string) (rows : list (object value))
    (d : database) : database :=
  foldl (fun d _ => executeTriggers table "INSERT" timing_ d) d rows.

(** [insertMany(table, dataArray)]: the answer and the engine after the
    call, or the exception. The page that [readPage] gives is written back
    by [writePage] before it is read again. *)
Definition insertMany (table : string) (dataArray : list (object value))
    (d : database) : res (string * database) :=
  match dataArray with
  | [] => Ok ("Tidak ada bibit untuk ditanam.", d)
  | _ =>
      match findTableEntry (tables d) table with
      | None => Throw ("Kebun '" ++ table ++ "' tidak ditemukan.")
      | Some entry =>
          let* validatedDataArray := validate_all d table dataArray in
          let d1 := run_triggers table "BEFORE" validatedDataArray d in
          let firstPageId := lastPage entry in
          let* firstData := readPage (pager_ d1) firstPageId in
          let* firstOffset := readUInt16LE firstData 6 in
          let* firstCount := readUInt16LE firstData 4 in
          let* c :=
            insert_rows table
              {| db := d1; currentPageId := firstPageId; pData := firstData;
                 freeOffset := firstOffset; count := firstCount;
                 startPageChanged := false; written := [] |}
              validatedDataArray in
          let* p1 := writeUInt16LE (count c) 4 (pData c) in
          let* p2 := writeUInt16LE (freeOffset c) 6 p1 in
          let* pg := writePage (pager_ (db c)) (currentPageId c) p2 in
          let d2 := with_pager (db c) pg in
          let d3 :=
            if startPageChanged c
            then with_tables d2
                   (updateTableLastPage (tables d2) table (currentPageId c))
            else d2 in
          let d4 := run_triggers table "AFTER" validatedDataArray d3 in
          let d5 := with_events d4 (events d4 ++ [(table, written c)])%list in
          Ok (IntRuntime.string_of_int (Z.of_nat (List.length validatedDataArray))
              ++ " bibit tertanam.", d5)
      end
  end.

(** [execute(cmd)] on the table and the row of an INSERT command. *)
Definition execute (table : string) (data : object value) (d : database)
  : res (string * database) :=
  match data with
  | [] =>
      Throw "Data kosong / fiktif? Ini melanggar integritas (Korupsi Data)."
  | _ => insertMany table [data] d
  end.

End Insert.

End InsertExecutor.

(** ** The indexes and the rows of their tables *)

Module IndexSpec.
Import Str QueryParser IndexManager InsertExecutor.

Section Exactness.
Context `{RT : Runtime} `{CO : !SchemaManager.Coercions}
        `{SR : !JSON.Serializer} `{SE : !StrictEquality} `{AC : !Actions}.

(** A name without a dot. *)
Fixpoint no_dot (s : string) : bool :=
  match s with
  | EmptyString => true
  | String c s' => negb (Ascii.eqb c ".") && no_dot s'
  end.

(** The values of a field in the rows that have it. *)
Definition keys_of (field : string) (rows : list row) : list value :=
  omap (fun r => obj_get (data r) field) rows.

(** An index reflects the rows of its table for its field: its keys are
    the values of the field in the rows, each as often as it occurs. *)
Definition reflects (field : string) (i : index) (rows : list row) : Prop :=
  map fst i ≡ₚ keys_of field rows.

(** No row of [others] holds the value that [r] holds in the field. *)
Definition unique_key (field : string) (r : row) (others : list row) : Prop :=
  ∀ r' k, r' ∈ others -> obj_get (data r') field = Some k ->
          strict_equal k (get field r) = false.

(** The rows of an insertion as the indexes receive them. *)
Definition inserted (ix : indexes) (table : string) (rows : list row)
  : indexes :=
  foldl (fun ix r => updateIndexes table (Some r) None ix) ix rows.

(** The synchrony of the specification for insertions, on every table:
    an insertion that returns has passed each of its rows to the
    indexes. *)
Definition insert_updates_indexes : Prop :=
  ∀ table dataArray d message d',
    obj_get (triggers d) table = None ->
    insertMany table dataArray d = Ok (message, d') ->
    ∃ rows,
      Forall2 (fun r data0 =>
                 SchemaManager.validateData (schemas d) table data0
                 = Ok (data r)) rows dataArray
      ∧ indexes_ d' = inserted (indexes_ d) table rows.

End Exactness.

End IndexSpec.

(** ** An instance of the runtime for the examples of the storage *)

Module ExampleRuntime.
Import Str QueryParser IntRuntime.

#[export] Instance int_serializer : JSON.Serializer :=
  {| JSON.number_to_json := string_of_int |}.

(** Two arrays of the model stand for two objects, which are not
    equal. *)
Definition strict_equal_int (a b : value) : bool :=
  match a, b with
  | VUndefined, VUndefined => true
  | VNull, VNull => true
  | VBool x, VBool y => Bool.eqb x y
  | VNum x, VNum y => Z.eqb x y
  | VStr x, VStr y => String.eqb x y
  | _, _ => false
  end.

#[export] Instance int_equality : IndexManager.StrictEquality :=
  {| IndexManager.strict_equal := strict_equal_int |}.

(** The numbers of the primitive values; the examples have no field of
    dates, and no value is read as a date here. *)
Definition to_number_int (v : value) : option Z :=
  match v with
  | VUndefined => None
  | VNull => Some 0%Z
  | VBool true => Some 1%Z
  | VBool false => Some 0%Z
  | VNum n => Some n
  | VStr s => Number_int s
  | VArr _ => Number_int (Scan.to_String v)
  end.

#[export] Instance int_coercions : SchemaManager.Coercions :=
  {| SchemaManager.to_number := to_number_int;
     SchemaManager.to_iso_date := fun _ => None;
     SchemaManager.is_zero := Z.eqb 0;
     SchemaManager.is_one := Z.eqb 1 |}.

(** No trigger is defined in the examples. *)
#[export] Instance no_actions : InsertExecutor.Actions :=
  {| InsertExecutor.run_action := fun _ d => d |}.

Definition table_t : TableManager.catalog :=
  [("t", {| TableManager.startPage := 1; TableManager.lastPage := 1 |})].

(** A file of two pages with one empty table. *)
Definition empty_table : InsertExecutor.database :=
  {| InsertExecutor.pager_ := [Pager.fresh_page; Pager.fresh_page];
     InsertExecutor.tables := table_t;
     InsertExecutor.indexes_ := [];
     InsertExecutor.schemas := [];
     InsertExecutor.triggers := [];
     InsertExecutor.audit_enabled := false;
     InsertExecutor.audit_log := [];
     InsertExecutor.events := [] |}.

(** A row whose text has 4090 characters. *)
Definition long_row : object value :=
  [("a", VStr (string_of_list_ascii (repeat "x"%char 4090)))].

(** A file whose table of indexes is empty and is itself indexed on its
    field [table]. *)
Definition indexed_indexes : InsertExecutor.database :=
  {| InsertExecutor.pager_ := [Pager.fresh_page; Pager.fresh_page];
     InsertExecutor.tables :=
       [("_indexes",
         {| TableManager.startPage := 1; TableManager.lastPage := 1 |})];
     InsertExecutor.indexes_ := [("_indexes.table", [])];
     InsertExecutor.schemas := [];
     InsertExecutor.triggers := [];
     InsertExecutor.audit_enabled := false;
     InsertExecutor.audit_log := [];
     InsertExecutor.events := [] |}.

(** A row whose text has 2500 characters. *)
Definition medium_row : object value :=
  [("a", VStr (string_of_list_ascii (repeat "x"%char 2500)))].

(** The empty table [t] with an index on its field [id]. *)
Definition indexed_table : InsertExecutor.database :=
  {| InsertExecutor.pager_ := [Pager.fresh_page; Pager.fresh_page];
     InsertExecutor.tables := table_t;
     InsertExecutor.indexes_ := [("t.id", [])];
     InsertExecutor.schemas := [];
     InsertExecutor.triggers := [];
     InsertExecutor.audit_enabled := false;
     InsertExecutor.audit_log := [];
     InsertExecutor.events := [] |}.

Definition row_1 : object value := [("id", VNum 1%Z); ("name", VStr "A")].

(** The row that [createIndex] inserts for an index on [t.f]. *)
Definition index_record : object value :=
  [("table", VStr "t"); ("field", VStr "f")].

End ExampleRuntime.

(** ** The runs of the worker pool, with the timer of [execute] *)

Module ThreadPoolRuns.
Import ThreadPool.

(** The timer that [execute] arms for a request: when it fires and the
    request is still pending, the request is dropped; the load of its
    worker is left as it is. *)
Definition on_timeout (p : pool) (id : nat) : pool :=
  match pendingRequests p !! id with
  | None => p
  | Some _ =>
      {| workerCount := workerCount p;
         workers := workers p;
         isReady := isReady p;
         pendingRequests := delete id (pendingRequests p);
         requestIdCounter := requestIdCounter p;
         workerStats := workerStats p;
         activeTasks := activeTasks p |}
  end.

(** The states of the coordinator: after [start], a dispatch, a reply, a
    timer or the crash of a worker. *)
Inductive run : pool -> Prop :=
| run_start n : run (start n)
| run_execute p dbPath sql : run p -> run (snd (execute p dbPath sql))
| run_reply p id : run p -> run (_handleMessage p id)
| run_timeout p id : run p -> run (on_timeout p id)
| run_exit p index :
    run p -> (index < workerCount p)%nat -> run (on_exit p index).

(** The requests that wait for worker [i]. *)
Definition pending_on (p : pool) (i : nat) : gmap nat nat :=
  filter (fun kv => snd kv = i) (pendingRequests p).

(** What the runs keep. *)
Definition run_inv (p : pool) : Prop :=
  List.length (activeTasks p) = workerCount p
  ∧ List.length (workerStats p) = workerCount p
  ∧ (List.length (workers p) <= workerCount p)%nat
  ∧ (∀ id w, pendingRequests p !! id = Some w ->
             (id <= requestIdCounter p)%nat ∧ (w < workerCount p)%nat)
  ∧ (∀ i load, activeTasks p !! i = Some load ->
               (size (pending_on p i) <= load)%nat)
  ∧ sum_list (workerStats p) = requestIdCounter p.

(** The pool of two workers after one dispatch. *)
Definition one_dispatch : pool :=
  snd (execute (start 2) "/data/a.sawit" "SELECT * FROM t").

End ThreadPoolRuns.

(** ** The names of databases (DatabaseRegistry.validateName) *)

Module DatabaseRegistry.
Import Str.

(** A character of the class [[a-zA-Z0-9_-]]. *)
Definition name_char (c : ascii) : bool :=
  is_lower c || is_upper c || is_digit c
  || Nat.eqb (code c) 95 || Nat.eqb (code c) 45.

(** [/^[a-zA-Z0-9_-]+$/.test(name)]. *)
Definition well_named (name : string) : bool :=
  match name with
  | EmptyString => false
  | _ => forallb name_char (list_ascii_of_string name)
  end.

(** [s.includes(part)] on strings. *)
Fixpoint contains (s part : string) : bool :=
  startsWith s part
  || match s with
     | EmptyString => false
     | String _ s' => contains s' part
     end.

Definition name_required : string := "Database name required".
Definition name_invalid : string :=
  "Invalid database name. Only alphanumeric, hyphen, and underscore allowed.".
Definition name_traversal : string :=
  "Invalid database name (Path Traversal attempt).".

(** [validateName(name)]; [None] is an argument that is not a string. *)
Definition validateName (name : option string) : res bool :=
  match name with
  | None | Some EmptyString => Throw name_required
  | Some name =>
      if negb (well_named name) then Throw name_invalid
      else if contains name ".." || contains name "/"
              || contains name (String (ascii_of_nat 92) EmptyString)
      then Throw name_traversal
      else Ok true
  end.

(** [s.endsWith(suffix)]: a tail of [s] is the suffix. *)
Fixpoint endsWith (s suffix : string) : bool :=
  String.eqb s suffix
  || match s with
     | EmptyString => false
     | String _ s' => endsWith s' suffix
     end.

(** [s.substring(n)]. *)
Fixpoint substring_from (n : nat) (s : string) : string :=
  match n, s with
  | S n', String _ s' => substring_from n' s'
  | _, _ => s
  end.

(** [s.replace(pattern, replacement)] with a string as pattern: the
    first occurrence of the pattern is replaced. *)
Fixpoint replace_first (pattern replacement s : string) : string :=
  if startsWith s pattern
  then replacement ++ substring_from (String.length pattern) s
  else
    match s with
    | EmptyString => EmptyString
    | String c s' => String c (replace_first pattern replacement s')
    end.

Definition extension : string := ".sawit".

(** The name of the file of a database in the data directory. *)
Definition db_file (name : string) : string := name ++ extension.

(** [list()], on the names of the files of the data directory. *)
Definition list_ (files : list string) : list string :=
  map (replace_first extension EmptyString)
    (List.filter (fun file => endsWith file extension) files).

End DatabaseRegistry.

(** ** Plain tokens: words and numbers *)

Module Tokens.
Import Str QueryParser.

(** A word: a letter or an underscore followed by letters, digits and
    underscores. *)
Definition is_word_token (t : string) : bool :=
  match t with
  | String c w => is_alpha_ c && forallb is_word (list_ascii_of_string w)
  | EmptyString => false
  end.

(** A number without sign and fraction: one digit or more. *)
Definition is_digits_token (t : string) : bool :=
  match t with
  | String c w => is_digit c && forallb is_digit (list_ascii_of_string w)
  | EmptyString => false
  end.

Definition plain_token (t : string) : bool :=
  is_word_token t || is_digits_token t.

(** What follows a token in a text of tokens joined by spaces: nothing,
    or a white space. *)
Definition token_end (rest : list ascii) : Prop :=
  match rest with [] => True | c :: _ => is_space c = true end.

End Tokens.

(** ** Computations that return *)

Module ParserRuns.
Import QueryParser.

(** The computation returns, with a value or an exception. *)
Definition returns {A} (c : comp A) : Prop := ∃ r, c = Some r.

End ParserRuns.

(** ** The token lists of INSERT *)

Module InsertTokens.
Import Str QueryParser.

(** The items of a list separated by commas. *)
Fixpoint commas (l : list string) : list string :=
  match l with
  | [] => []
  | [x] => [x]
  | x :: l' => x :: "," :: commas l'
  end.

(** A token that is neither a comma nor a closing parenthesis. *)
Definition list_item (t : string) : bool :=
  negb (String.eqb t ",") && negb (String.eqb t ")").

(** The tokens of an INSERT statement. *)
Definition insert_tokens (insert into table values : string)
    (cols vals : list string) : list string :=
  ([insert; into; table; "("] ++ commas cols ++ [")"; values; "("]
   ++ commas vals ++ [")"])%list.

(** The keywords of the two dialects. *)
Definition insert_keywords (insert into values : string) : bool :=
  ((String.eqb (toUpperCase insert) "INSERT"
    && String.eqb (toUpperCase into) "INTO")
   || (String.eqb (toUpperCase insert) "TANAM"
       && String.eqb (toUpperCase into) "KE"))
  && includes ["BIBIT"; "VALUES"] (toUpperCase values).

End InsertTokens.

(** ** Runs of the engine *)

Module EngineRuns.
Import Str QueryParser Engine IntRuntime ExampleServices.

(** The engine on the services that log their calls, before and after
    a first SELECT. *)
Definition select_text : string := "SELECT * FROM t".

Definition select_command : command :=
  SELECT (Some "t") ["*"] [] None None None None false.

Definition fresh_engine : @db _ logging_stores := opened [].

Definition select_result : res (@output logging_stores) := Ok (Result "ok").

Definition after_select : @db _ logging_stores :=
  {| pager := true; queryString_ := select_text;
     queryCache := [(select_text, select_command)];
     transactionManager := {| tx_active := false; tx_buffer := [] |};
     storage := [selectExecutor_execute select_command] |}.

Definition after_bound_select : @db _ logging_stores :=
  {| pager := true; queryString_ := select_text;
     queryCache := [];
     transactionManager := {| tx_active := false; tx_buffer := [] |};
     storage := [selectExecutor_execute select_command] |}.

End EngineRuns.

(** ** Runs of the front-end *)

Module ServerRuns.
Import Str QueryParser Engine ExampleServices SawitServer IntRuntime.

(** Two open databases, and a connection that has entered the first. *)
Definition two_databases : list (string * @db _ failing_stores) :=
  [("kebun", failing_db); ("desa", failing_db)].

Definition in_kebun : connection := {| currentDatabase := Some "kebun" |}.

Definition after_failing_select : @db _ failing_stores :=
  with_cache failing_db "SELECT * FROM t" [("SELECT * FROM t", failing_select)].

End ServerRuns.

(** ** The listing of the indexes (IndexManager.showIndexes, listIndexes) *)

Module IndexListing.
Import Str QueryParser IndexManager.

Section Listing.
Context `{RT : Runtime}.

(** [index.stats()]: what is listed of an index. *)
Context {summary : Type} (stats : index -> summary).

(** The key under which [createIndex] stores the index of a field. *)
Definition index_key (table field : string) : string :=
  table ++ "." ++ field.

(** [listIndexes(tableName)]. *)
Definition listIndexes (tableName : string) (ix : indexes) : list summary :=
  map (fun e => stats (snd e))
    (List.filter (fun e => startsWith (fst e) (tableName ++ ".")) ix).

(** What [showIndexes] returns: a list, or a text when the list for a
    table is empty. *)
Inductive shown :=
| Listed (l : list summary)
| Nothing (message : string).

(** [showIndexes(table)]; a missing table and the empty name list every
    index. *)
Definition showIndexes (table : option string) (ix : indexes) : shown :=
  match table with
  | Some (String c t) =>
      match listIndexes (String c t) ix with
      | [] => Nothing ("Tidak ada indeks pada '" ++ String c t ++ "'")
      | l => Listed l
      end
  | _ => Listed (map (fun e => stats (snd e)) ix)
  end.

(** The indexes of a list of fields of tables, under their keys. *)
Definition keyed (entries : list (string * string * index)) : indexes :=
  map (fun e => (index_key (fst (fst e)) (snd (fst e)), snd e)) entries.

End Listing.

End IndexListing.

(** ** The types of a schema (SchemaManager.defineSchema, _isValidType) *)

Module SchemaTypes.
Import Str QueryParser SchemaManager.

Section Types.
Context `{RT : Runtime}.

Definition validTypes : list string :=
  ["TEKS"; "ANGKA"; "TANGGAL"; "BENAR_SALAH"; "STRING"; "NUMBER"; "DATE";
   "BOOLEAN"].

(** [_isValidType(type)]; a field without a type has no [toUpperCase]. *)
Definition _isValidType (type : option string) : res bool :=
  match type with
  | None => Throw (type_error "toUpperCase")
  | Some t => Ok (includes validTypes (toUpperCase t))
  end.

(** The first loop of [defineSchema], which checks the type of every
    field before anything is stored. *)
Fixpoint check_types (schemaDefinition : object field_config) : res unit :=
  match schemaDefinition with
  | [] => Ok tt
  | (field, config) :: rest =>
      let* valid := _isValidType (fc_type config) in
      if negb valid then
        Throw ("Invalid type '" ++ default "undefined" (fc_type config)
               ++ "' for field '" ++ field ++ "'")
      else check_types rest
  end.

(** The message of [_validateType] for a type that it does not know. *)
Definition unknown_type (type field : string) : string :=
  "Unknown type '" ++ type ++ "' for field '" ++ field ++ "'".

End Types.

End SchemaTypes.

Module SchemaExamples.
Import Str QueryParser SchemaManager IntRuntime.

(** A schema of three fields and a row for it. *)
Definition example_schema : object field_config :=
  [("name", {| fc_type := Some "teks"; fc_required := true;
               fc_default := None |});
   ("active", {| fc_type := Some "BOOLEAN"; fc_required := false;
                 fc_default := None |});
   ("unit", {| fc_type := Some "STRING"; fc_required := false;
               fc_default := Some (VStr "kg") |})].

Definition example_row : object value :=
  [("name", VStr "x"); ("active", VStr "false"); ("extra", VNull)].

Definition example_stored : object value :=
  [("name", VStr "x"); ("active", VBool false); ("unit", VStr "kg");
   ("extra", VNull)].

Definition example_age : value := VNum 3%Z.

End SchemaExamples.

(** ** The wildcards of LIKE *)

Module Wildcards.
Import Str RegExp.

(** The items that the pattern of the LIKE case stands for when no
    character of it is a syntax character: percent is any sequence of
    characters that [.] matches, underscore any one of them, every other
    character itself. *)
Fixpoint items_of (pattern : list ascii) : list item :=
  match pattern with
  | [] => []
  | c :: pattern' =>
      if Nat.eqb (code c) 37 then Star AnyChar :: items_of pattern'
      else if Nat.eqb (code c) 95 then One AnyChar :: items_of pattern'
      else One (Lit c) :: items_of pattern'
  end.

(** A pattern without syntax characters, and a text without line
    terminators. *)
Definition plain_pattern (p : string) : bool :=
  forallb (fun c => negb (is_meta c)) (list_ascii_of_string p).

Definition one_line (s : string) : bool :=
  forallb (fun c => negb (is_line_terminator c)) (list_ascii_of_string s).

End Wildcards.

(** ** The key of a statement in the statistics (StatsManager._hashQuery) *)

Module StatsManager.

(** [ToInt32]: the conversion of a number to a signed integer of 32 bits,
    which the shift and the bitwise conjunction apply to their operands
    and to their result. *)
Definition to_int32 (z : Z) : Z :=
  let m := (z mod 2 ^ 32)%Z in
  if (2 ^ 31 <=? m)%Z then (m - 2 ^ 32)%Z else m.

(** [a << n] and [a & b]. *)
Definition shl (a n : Z) : Z := to_int32 (Z.shiftl (to_int32 a) n).

Definition band (a b : Z) : Z := to_int32 (Z.land (to_int32 a) (to_int32 b)).

(** [query.charCodeAt(i)]. *)
Definition charCode (c : ascii) : Z := Z.of_nat (nat_of_ascii c).

(** The loop of [_hashQuery]; the sums stay far below 2^53, so that the
    arithmetic of the numbers is exact. *)
Fixpoint hash_loop (query : list ascii) (hash : Z) : Z :=
  match query with
  | [] => hash
  | c :: query' =>
      let char := charCode c in
      let hash1 := (shl hash 5 - hash + char)%Z in
      hash_loop query' (band hash1 hash1)
  end.

Definition hash_value (query : string) : Z :=
  hash_loop (list_ascii_of_string query) 0.

(** The digits of [toString(36)]. *)
Definition digit36 (d : Z) : ascii :=
  ascii_of_nat (Z.to_nat (if (d <? 10)%Z then 48 + d else 87 + d)%Z).

Fixpoint to_base36 (fuel : nat) (n : Z) (acc : string) : string :=
  match fuel with
  | O => acc
  | S fuel' =>
      let acc' := String (digit36 (n mod 36)) acc in
      if (n <? 36)%Z then acc' else to_base36 fuel' (n / 36) acc'
  end.

(** [n.toString(36)] on an integer of 32 bits, which has at most seven
    digits. *)
Definition toString36 (n : Z) : string :=
  if (n <? 0)%Z then "-" ++ to_base36 7 (- n) "" else to_base36 7 n "".

(** [_hashQuery(query)]. *)
Definition _hashQuery (query : string) : string :=
  toString36 (hash_value query).

(** The step of the polynomial hash with the multiplier 31. *)
Definition poly31 (h : Z) (c : ascii) : Z := (31 * h + charCode c)%Z.

End StatsManager.

(** ** The shape of a command *)

Module CommandShape.
Import Str QueryParser.

Section Shape.
Context `{RT : Runtime}.

(** A tree of conditions without its values: the keys, the operators
    and the connectives are kept. *)
Fixpoint node_shape (n : node) : node :=
  match n with
  | NCond key op _ => NCond key op VNull
  | NLogic op => NLogic op
  | NCompound logic conditions =>
      NCompound logic (map (option_map node_shape) conditions)
  end.

(** An object without its values: the names are kept in their order. *)
Definition object_shape (o : object value) : object value :=
  map (fun kv => (fst kv, VNull)) o.

(** A command without the values of its conditions, of its data and of
    its assignments. *)
Definition command_shape (cmd : command) : command :=
  match cmd with
  | SELECT table cols joins criteria sort limit offset distinct =>
      SELECT table cols joins (option_map node_shape criteria) sort limit
        offset distinct
  | DELETE table criteria => DELETE table (option_map node_shape criteria)
  | UPDATE table updates criteria =>
      UPDATE table (object_shape updates) (option_map node_shape criteria)
  | AGGREGATE table func field criteria groupBy having =>
      AGGREGATE table func field (option_map node_shape criteria) groupBy
        having
  | INSERT table data => INSERT table (object_shape data)
  | c => c
  end.

End Shape.

End CommandShape.

Module BindingExamples.
Import Str QueryParser IntRuntime.

(** A DELETE with a placeholder, and a binding whose value holds the
    text of a condition. *)
Definition delete_by_name : command :=
  DELETE (Some "t") (Some (NCond "name" "=" (VStr "@name"))).

Definition hostile_binding : object value :=
  [("name", VStr "x' OR 1 = 1")].

Definition delete_bound : command :=
  DELETE (Some "t") (Some (NCond "name" "=" (VStr "x' OR 1 = 1"))).

End BindingExamples.

(** ** The load balancer of the threads (ThreadManager._startMain) *)

Module ThreadManager.
Import Str QueryParser.

(** The state of the balancer: the number of the workers that were
    spawned, and [curWorker], which is [NaN] ([None]) once it has been
    reduced modulo zero. *)
Record balancer := { workers : nat; curWorker : option nat }.

(** The balancer as [_startMain] leaves it. *)
Definition started (numWorkers : nat) : balancer :=
  {| workers := numWorkers; curWorker := Some 0 |}.

(** The handler of a connection: the socket goes to [workers[curWorker]]
    and [curWorker] moves on. The result is the position of the worker
    that receives the socket; without a worker at that position,
    [postMessage] is called on [undefined]. *)
Definition on_connection (b : balancer) : res nat * balancer :=
  match curWorker b with
  | Some cur =>
      let next :=
        if Nat.eqb (workers b) 0 then None
        else Some ((cur + 1) mod workers b) in
      (if Nat.ltb cur (workers b) then Ok cur
       else Throw (type_error "postMessage"),
       {| workers := workers b; curWorker := next |})
  | None =>
      (Throw (type_error "postMessage"),
       {| workers := workers b; curWorker := None |})
  end.

(** The workers that receive the next [k] connections. *)
Fixpoint connections (k : nat) (b : balancer) : list (res nat) :=
  match k with
  | O => []
  | S k' =>
      let '(w, b') := on_connection b in
      w :: connections k' b'
  end.

End ThreadManager.

(** ** Authentication (SawitServer: hashPassword, verifyPassword,
       handleAuth, handleRequest) *)

Module Authentication.
Import Str QueryParser Buffer DatabaseRegistry.

(** The primitives of the [crypto] module and of the decoding of
    hexadecimal text: the digest of SHA-256 as hexadecimal text,
    [Buffer.from(text, 'hex')], and the text of sixteen random bytes. *)
Class Crypto := {
  sha256_hex : string -> string;
  from_hex : string -> buffer;
  random_salt : string
}.

#[export] Instance byte_eq_dec : EqDecision Byte.byte := Byte.byte_eq_dec.

Section Passwords.
Context `{CR : Crypto}.

(** [s.split(c)] for a separator of one character. *)
Fixpoint split_on (sep : ascii) (s : string) : list string :=
  match s with
  | EmptyString => [EmptyString]
  | String c s' =>
      if Ascii.eqb c sep then EmptyString :: split_on sep s'
      else
        match split_on sep s' with
        | x :: l => String c x :: l
        | [] => [String c EmptyString]
        end
  end.

(** [hashPassword(password, salt)]; the empty salt counts as none. *)
Definition hashPassword (password : string) (salt : option string) : string :=
  let salt :=
    match salt with
    | Some (String c s) => String c s
    | _ => random_salt
    end in
  salt ++ ":" ++ sha256_hex (salt ++ password).

(** [crypto.timingSafeEqual(a, b)], which refuses two buffers of
    different lengths. *)
Definition timingSafeEqual (a b : buffer) : res bool :=
  if Nat.eqb (List.length a) (List.length b) then Ok (bool_decide (a = b))
  else Throw "Input buffers must have the same byte length".

(** [try { return ... } catch (e) { return false }]. *)
Definition or_false (r : res bool) : bool :=
  match r with
  | Ok b => b
  | Throw _ => false
  end.

(** The text of [n] characters of code zero. *)
Fixpoint nuls (n : nat) : string :=
  match n with
  | O => EmptyString
  | S n' => String (ascii_of_nat 0) (nuls n')
  end.

(** [s.padEnd(maxLen, '\0')]. *)
Definition padEnd (s : string) (maxLen : nat) : string :=
  s ++ nuls (maxLen - String.length s).

(** [verifyPassword(password, storedHash)] on two strings of ASCII
    characters. *)
Definition verifyPassword (password storedHash : string) : bool :=
  if contains storedHash ":" then
    match split_on ":" storedHash with
    | salt :: hash :: _ =>
        let computedHash := sha256_hex (salt ++ password) in
        or_false (timingSafeEqual (from_hex hash) (from_hex computedHash))
    | _ => false
    end
  else
    let maxLen := Nat.max (String.length password) (String.length storedHash) in
    let paddedInput := padEnd password maxLen in
    let paddedStored := padEnd storedHash maxLen in
    or_false (timingSafeEqual (from paddedInput) (from paddedStored)).

(** *** The requests of a connection *)

(** A request: its type and, for an authentication, the name and the
    password of its payload, which are taken to be strings. *)
Record request := {
  type : string;
  username : string;
  password : string
}.

(** What a request is answered with: an error frame, the frame of a
    successful authentication, the frame that reports an exception of the
    handling, or whatever the handler of the type sends. *)
Inductive response :=
| error_frame (message : string)
| auth_success (message : string)
| invalid_request
| handled_by (type : string).

(** The accounts of the configuration: the password of each user. *)
Definition accounts : Type := object string.

(** [handleAuth]: [this.auth[username]] is the password of the account,
    what every object inherits under that name, on which
    [verifyPassword] raises, or [undefined]. The result carries the new
    value of [authenticated]. *)
Definition handleAuth (auth : option accounts) (r : request)
    (authenticated : bool) : response * bool :=
  match auth with
  | None => (auth_success "No authentication required", true)
  | Some users =>
      match obj_get users (username r) with
      | Some EmptyString => (error_frame "Invalid credentials", authenticated)
      | Some storedPassword =>
          if verifyPassword (password r) storedPassword
          then (auth_success "Authentication successful", true)
          else (error_frame "Invalid credentials", authenticated)
      | None =>
          if includes SchemaManager.prototype_keys (username r)
          then (invalid_request, authenticated)
          else (error_frame "Invalid credentials", authenticated)
      end
  end.

(** The truth value of [this.auth]. *)
Definition has_accounts (auth : option accounts) : bool :=
  match auth with
  | Some _ => true
  | None => false
  end.

Definition request_types : list string :=
  ["use"; "query"; "ping"; "list_databases"; "drop_database"; "stats"].

(** [handleRequest]: the check of the authentication, then the switch
    on the type. *)
Definition handleRequest (auth : option accounts) (r : request)
    (authenticated : bool) : response * bool :=
  if has_accounts auth && negb authenticated && negb (String.eqb (type r) "auth")
  then (error_frame "Authentication required", authenticated)
  else if String.eqb (type r) "auth" then handleAuth auth r authenticated
  else if includes request_types (type r)
  then (handled_by (type r), authenticated)
  else (error_frame ("Unknown request type: " ++ type r), authenticated).

(** The requests of one connection, in the order of their arrival. *)
Fixpoint serve (auth : option accounts) (rs : list request)
    (authenticated : bool) : list response :=
  match rs with
  | [] => []
  | r :: rs' =>
      let '(answer, authenticated') := handleRequest auth r authenticated in
      answer :: serve auth rs' authenticated'
  end.

(** A connection starts authenticated when the server has no accounts. *)
Definition session (auth : option accounts) (rs : list request)
  : list response :=
  serve auth rs (negb (has_accounts auth)).

(** A request that authenticates a user of the accounts. *)
Definition authenticates (users : accounts) (r : request) : Prop :=
  type r = "auth"
  ∧ ∃ storedPassword, obj_get users (username r) = Some storedPassword
      ∧ verifyPassword (password r) storedPassword = true.

End Passwords.

(** A toy instance of the primitives, used to run the definitions: the
    digest is the text itself in brackets. *)
Definition example_crypto : Crypto :=
  {| sha256_hex := fun s => "<" ++ s ++ ">";
     from_hex := list_byte_of_string;
     random_salt := "0f" |}.

Definition example_accounts : accounts := [("admin", "sawit")].

Definition example_requests : list request :=
  [{| type := "query"; username := ""; password := "" |};
   {| type := "auth"; username := "admin"; password := "sawit" |};
   {| type := "query"; username := ""; password := "" |}].

End Authentication.

(** ** Runs of the insertion *)

Module InsertRuns.
Import Str QueryParser Buffer Pager TableManager IndexManager InsertExecutor
       IntRuntime ExampleRuntime.

(** The loop of [insertMany] at its first turn on the empty table. *)
Definition first_turn : cursor :=
  {| db := empty_table; currentPageId := 1; pData := fresh_page;
     freeOffset := 8; count := 0; startPageChanged := false; written := [] |}.

End InsertRuns.

(** * Part II: theorems *)

Open Scope list_scope.

Module ThreadPoolFacts.
Import ThreadPool.

Lemma best_step_inv p n acc :
  best_inv p n acc -> best_inv p (S n) (best_step p acc n).
Proof.
  unfold best_inv, best_step, spawned. intros Hinv.
  destruct (workers p !! n) as [[w|]|] eqn:Hw.
  - destruct (activeTasks p !! n) as [load|] eqn:Hl.
    + destruct acc as [[m|] b]; simpl in *.
      * destruct (Nat.ltb_spec load m) as [Hlt|Hge]; simpl.
        -- split; [lia|]. split; [eauto|].
           intros j lj Hj [Hjw Hjl]. destruct (decide (j = n)) as [->|Hne].
           ++ rewrite Hl in Hjl. inversion Hjl; subst. lia.
           ++ destruct Hinv as (_ & _ & Hall).
              destruct (Hall j lj) as [H1 H2]; [lia|done|]. lia.
        -- destruct Hinv as (Hb & Hsp & Hall). split; [lia|]. split; [done|].
           intros j lj Hj [Hjw Hjl]. destruct (decide (j = n)) as [->|Hne].
           ++ rewrite Hl in Hjl. inversion Hjl; subst. lia.
           ++ apply Hall; [lia|done].
      * split; [lia|]. split; [eauto|].
        intros j lj Hj [Hjw Hjl]. destruct (decide (j = n)) as [->|Hne].
        -- rewrite Hl in Hjl. inversion Hjl; subst. lia.
        -- destruct Hinv as [_ Hno]. exfalso. apply (Hno j lj); [lia|done].
    + destruct acc as [[m|] b]; simpl in *.
      * destruct Hinv as (Hb & Hsp & Hall). split; [lia|]. split; [done|].
        intros j lj Hj [Hjw Hjl]. destruct (decide (j = n)) as [->|Hne].
        -- congruence.
        -- apply Hall; [lia|done].
      * destruct Hinv as [Hb Hno]. split; [done|].
        intros j lj Hj [Hjw Hjl]. destruct (decide (j = n)) as [->|Hne].
        -- congruence.
        -- apply (Hno j lj); [lia|done].
  - destruct acc as [[m|] b]; simpl in *.
    + destruct Hinv as (Hb & Hsp & Hall). split; [lia|]. split; [done|].
      intros j lj Hj [[w Hjw] Hjl]. destruct (decide (j = n)) as [->|Hne].
      * congruence.
      * apply Hall; [lia|]. split; eauto.
    + destruct Hinv as [Hb Hno]. split; [done|].
      intros j lj Hj [[w Hjw] Hjl]. destruct (decide (j = n)) as [->|Hne].
      * congruence.
      * apply (Hno j lj); [lia|]. split; eauto.
  - destruct acc as [[m|] b]; simpl in *.
    + destruct Hinv as (Hb & Hsp & Hall). split; [lia|]. split; [done|].
      intros j lj Hj [[w Hjw] Hjl]. destruct (decide (j = n)) as [->|Hne].
      * congruence.
      * apply Hall; [lia|]. split; eauto.
    + destruct Hinv as [Hb Hno]. split; [done|].
      intros j lj Hj [[w Hjw] Hjl]. destruct (decide (j = n)) as [->|Hne].
      * congruence.
      * apply (Hno j lj); [lia|]. split; eauto.
Qed.

Lemma best_loop_inv p n :
  best_inv p n (foldl (best_step p) (None, 0) (seq 0 n)).
Proof.
  induction n as [|n IH].
  - simpl. split; [done|]. intros j lj Hj. lia.
  - rewrite seq_S, foldl_app. simpl. by apply best_step_inv.
Qed.

Lemma length_incr i l : List.length (incr i l) = List.length l.
Proof. unfold incr. destruct (l !! i); [apply length_insert|done]. Qed.

Lemma length_decr i l : List.length (decr i l) = List.length l.
Proof.
  unfold decr. destruct (l !! i) as [[|x]|]; try done. apply length_insert.
Qed.

Lemma reachable_well_formed p : reachable p -> well_formed p.
Proof.
  induction 1 as [n|p dbPath sql _ [IH1 IH2]|p id _ [IH1 IH2]|p index _ [IH1 IH2] _].
  - split; simpl; rewrite !length_replicate; lia.
  - unfold execute. destruct (negb (isReady p)); [done|].
    destruct (workers p !! _getBestWorker p) as [[w|]|]; try done.
    split; simpl; [by rewrite length_incr|by rewrite length_insert].
  - unfold _handleMessage. destruct (pendingRequests p !! id); [|done].
    split; simpl; [by rewrite length_decr|done].
  - split; simpl; by rewrite length_insert.
Qed.

(** C1 (amended). The coordinator routes by load only: the worker chosen
    by [execute] does not depend on the database path (nor on which worker
    has the path open); whenever a query is dispatched, it goes to a
    spawned worker with the smallest active-task count, and among the
    workers with that count to the one with the lowest index; and a ready
    pool with at least one spawned worker always dispatches. *)
Theorem least_busy_routing (p : pool) (dbPath sql : string) :
  well_formed p ->
  (∀ dbPath' sql', fst (execute p dbPath' sql') = fst (execute p dbPath sql)) ∧
  (∀ i, fst (execute p dbPath sql) = Ok i ->
     ∃ load, candidate p i load ∧
       ∀ j lj, candidate p j lj ->
               (load <= lj)%nat ∧ (lj = load -> (i <= j)%nat)) ∧
  (isReady p = true -> (∃ j lj, candidate p j lj) ->
     ∃ i, fst (execute p dbPath sql) = Ok i).
Proof.
  intros [Hlen Hws].
  pose proof (best_loop_inv p (workerCount p)) as Hinv.
  unfold best_inv in Hinv. fold (_getBestWorker p) in Hinv.
  split; [|split].
  - intros dbPath' sql'. unfold execute.
    destruct (negb (isReady p)); [done|].
    by destruct (workers p !! _getBestWorker p) as [[w|]|].
  - intros i. unfold execute.
    destruct (negb (isReady p)); [done|].
    destruct (workers p !! _getBestWorker p) as [[w|]|] eqn:Hw; try done.
    simpl. intros [= <-].
    destruct (fst (foldl (best_step p) (None, 0) (seq 0 (workerCount p))))
      as [m|] eqn:Hacc.
    + destruct Hinv as (Hb & Hsp & Hall). exists m. split; [done|].
      intros j lj [Hj Hjs]. by apply Hall.
    + destruct Hinv as [Hb Hno]. exfalso.
      pose proof (lookup_lt_Some _ _ _ Hw) as Hlt. rewrite Hb in Hlt, Hw.
      destruct (lookup_lt_is_Some_2 (activeTasks p) 0) as [l0 Hl0]; [lia|].
      apply (Hno 0 l0); [lia|]. split; eauto.
  - intros Hready (j & lj & Hj & Hjs). unfold execute. rewrite Hready.
    cbn [negb].
    destruct (fst (foldl (best_step p) (None, 0) (seq 0 (workerCount p))))
      as [m|] eqn:Hacc.
    + destruct Hinv as (Hb & [[w Hw] Hl] & Hall). rewrite Hw. eauto.
    + destruct Hinv as [Hb Hno]. exfalso. by apply (Hno j lj).
Qed.

Lemma least_busy_routing_witness :
  well_formed (start 2) ∧
  ∃ i, fst (execute (start 2) "/data/db1.sawit" "SELECT * FROM t") = Ok i.
Proof.
  assert (Hwf : well_formed (start 2)) by (split; simpl; lia).
  split; [exact Hwf|].
  apply (least_busy_routing (start 2) "/data/db1.sawit" "SELECT * FROM t" Hwf);
    [reflexivity|].
  exists 0, 0. split; [simpl; lia|]. split; [eexists|]; reflexivity.
Defined.

(** C1, as stated, fails: with two idle workers, a first query on a path
    is posted to worker 0, which opens the file; while that query is still
    running a second query on the same path is posted to worker 1. *)
Lemma sticky_routing_counterexample : ¬ sticky_routing.
Proof.
  intros Hsticky.
  pose (p1 := snd (execute (start 2) "/data/db1.sawit" "SELECT * FROM t")).
  assert (Hreach : reachable p1) by (apply reach_execute, reach_start).
  assert (H : 1 = 0); [|discriminate H].
  apply (Hsticky p1 "/data/db1.sawit" "SELECT * FROM t" 0
           (worker_on_query {| dbCache := ∅ |} "/data/db1.sawit") 1 Hreach).
  - reflexivity.
  - simpl. set_solver.
  - reflexivity.
Qed.

End ThreadPoolFacts.

Module QueryParserFacts.
Import Str QueryParser WhereSpec.

Example tokenize_select :
  tokenize "SELECT * FROM t WHERE a.b >= -1.5 AND n = 'it\'s' OR x<>@p"
  = ["SELECT"; "*"; "FROM"; "t"; "WHERE"; "a.b"; ">="; "-1.5"; "AND"; "n";
     "="; "'it\'s'"; "OR"; "x"; "<>"; "@p"].
Proof. vm_compute. reflexivity. Qed.

Section WhereFacts.
Context `{RT : Runtime}.

Lemma includes_true l s : includes l s = true -> In s l.
Proof.
  unfold includes. intros H. apply existsb_exists in H as (w & Hin & Heq).
  apply String.eqb_eq in Heq. by subst.
Qed.

Lemma includes_false_cons l w s :
  includes (w :: l) s = false -> String.eqb s w = false ∧ includes l s = false.
Proof. unfold includes. simpl. intros H. by apply orb_false_elim in H. Qed.

Lemma stop_not_logic u :
  includes stop_words u = true -> includes logic_words u = false.
Proof.
  intros H. apply includes_true in H. unfold stop_words in H. simpl in H.
  repeat (destruct H as [<-|H]; [reflexivity|]). contradiction.
Qed.

Lemma logic_op_cases u :
  includes logic_words u = true -> logic_op u = "AND" ∨ logic_op u = "OR".
Proof.
  intros H. apply includes_true in H. simpl in H.
  repeat (destruct H as [<-|H]; [auto|]). contradiction.
Qed.

Lemma special_operator_ordinary toks key rawOp sc :
  includes special_ops rawOp = false ->
  let op0 := if String.eqb rawOp "SEPERTI" then "LIKE" else rawOp in
  special_operator toks key op0 sc = Ok (op0, sc, 2)
  ∧ includes ["IN"; "DALAM"; "NOT"; "TIDAK"] op0 = false.
Proof.
  intros Hsp op0. subst op0.
  destruct (String.eqb rawOp "SEPERTI") eqn:Hlike; [split; reflexivity|].
  unfold special_ops in Hsp.
  apply includes_false_cons in Hsp as [H1 Hsp].
  apply includes_false_cons in Hsp as [H2 Hsp].
  apply includes_false_cons in Hsp as [H3 Hsp].
  split.
  - unfold special_operator, includes. simpl existsb. rewrite H1, H2, H3. reflexivity.
  - exact Hsp.
Qed.

Lemma scan_comparison c more sc :
  ordinary c = true ->
  scan (comparison_tokens c ++ more)%list 0 sc
  = scan more 0 (sc ++ [condition_of c])%list.
Proof.
  unfold ordinary. intros H.
  apply andb_prop in H as [H Hop]. apply andb_prop in H as [Hlog Hstop].
  apply negb_true_iff in Hop, Hlog, Hstop.
  destruct c as [key op val].
  unfold comparison_tokens, condition_of in *.
  cbn [cmp_key cmp_op cmp_val app scan] in *.
  rewrite Hlog, Hstop.
  unfold single_condition.
  destruct (special_operator_ordinary (key :: op :: val :: more) key
              (toUpperCase op) sc Hop) as [Hs Hin].
  cbv zeta in Hs, Hin. rewrite Hs. cbn [res_bind]. rewrite Hin.
  reflexivity.
Qed.

Lemma scan_clause_end tail sc : clause_end tail -> scan tail 0 sc = Ok sc.
Proof.
  destruct tail as [|t tail]; [done|]. cbn [clause_end scan]. intros H.
  by rewrite (stop_not_logic _ H), H.
Qed.

Lemma scan_clause rest tail sc :
  Forall (fun jc => connective (fst jc) = true ∧ ordinary (snd jc) = true) rest ->
  clause_end tail ->
  scan (flat_map (fun jc => fst jc :: comparison_tokens (snd jc)) rest ++ tail)%list 0 sc
  = Ok (sc ++ clause_nodes rest)%list.
Proof.
  intros Hrest Hend. revert sc.
  induction Hrest as [|[j c] rest [Hj Hc] _ IH]; intros sc.
  - cbn [flat_map app clause_nodes]. rewrite app_nil_r. by apply scan_clause_end.
  - cbn [flat_map fst snd]. rewrite <- !app_assoc.
    change ((j :: comparison_tokens c) ++ ?l)%list
      with (j :: (comparison_tokens c ++ l))%list.
    cbn [scan]. unfold connective in Hj. cbn [fst] in Hj. rewrite Hj.
    cbn [snd] in Hc. rewrite (scan_comparison _ _ _ Hc), IH.
    unfold clause_nodes. cbn [flat_map fst snd]. by rewrite <- !app_assoc.
Qed.

Lemma and_groups_nonempty cur rest : and_groups cur rest ≠ [].
Proof.
  revert cur. induction rest as [|[j c] rest IH]; intros cur; [done|].
  cbn [and_groups]. destruct (is_and j); [apply IH|done].
Qed.

Lemma evens_interleave gs : evens (interleave gs) = gs.
Proof.
  induction gs as [|g [|g' gs] IH]; [done|done|].
  change (interleave (g :: g' :: gs))
    with (g :: Some (NLogic "OR") :: interleave (g' :: gs)).
  cbn [evens]. by rewrite IH.
Qed.

Lemma group_node_snoc cur c :
  cur ≠ [] ->
  group_node (cur ++ [c])
  = Some (NCompound "AND"
            (map (fun c => Some (condition_of c)) cur ++ [Some (condition_of c)])).
Proof.
  destruct cur as [|c1 [|c2 cur]]; [done|done|]. intros _.
  cbn [app group_node map]. by rewrite map_app.
Qed.

Lemma pass1_and cur c l p1 :
  cur ≠ [] ->
  pass1_loop (NLogic "AND" :: condition_of c :: l) (group_node cur) p1
  = pass1_loop l (group_node (cur ++ [c])) p1.
Proof.
  intros Hne. rewrite (group_node_snoc _ _ Hne).
  destruct cur as [|c1 [|c2 cur]]; [done| |]; reflexivity.
Qed.

Lemma pass1_or cur c l p1 :
  pass1_loop (NLogic "OR" :: condition_of c :: l) cur p1
  = pass1_loop l (group_node [c]) (p1 ++ [cur; Some (NLogic "OR")]).
Proof. reflexivity. Qed.

Lemma pass1_groups rest cur p1 :
  cur ≠ [] ->
  Forall (fun jc => connective (fst jc) = true ∧ ordinary (snd jc) = true) rest ->
  pass1_loop (clause_nodes rest) (group_node cur) p1
  = Ok (p1 ++ interleave (map group_node (and_groups cur rest))).
Proof.
  intros Hne Hrest. revert cur p1 Hne.
  induction Hrest as [|[j c] rest [Hj Hc] _ IH]; intros cur p1 Hne.
  - reflexivity.
  - cbn [fst snd] in Hj, Hc. unfold connective in Hj.
    unfold clause_nodes. cbn [flat_map fst snd app and_groups].
    fold (clause_nodes rest). unfold is_and.
    destruct (logic_op_cases _ Hj) as [-> | ->].
    + rewrite pass1_and by done. cbn [String.eqb Ascii.eqb Bool.eqb].
      apply IH. by destruct cur.
    + rewrite pass1_or, IH by done.
      change ("OR" =? "AND") with false. cbn [map].
      pose proof (and_groups_nonempty [c] rest) as Hg.
      destruct (and_groups [c] rest) as [|g gs]; [done|].
      cbn [map interleave]. by rewrite <- app_assoc.
Qed.


End WhereFacts.

Section ParserExamples.
Import IntRuntime.


Example where_tree_example :
  where_tree (cmp "a" "=" "'x'") example_rest
  = Some (NCompound "OR"
        [Some (NCond "a" "=" (VStr "x"));
         Some (NCompound "AND"
                 [Some (NCond "b" "=" (VNum 2%Z));
                  Some (NCond "c" ">" (VNum 3%Z))])]).
Proof. vm_compute. reflexivity. Qed.

End ParserExamples.

Section ParseFacts.
Context `{RT : Runtime}.

Lemma schema_loop_past_end fuel tokens i schema :
  (List.length tokens <= i)%nat -> schema_loop fuel tokens i schema = None.
Proof.
  revert i schema. induction fuel as [|fuel IH]; intros i schema Hi; [done|].
  cbn [schema_loop]. unfold tok_eq.
  rewrite (lookup_ge_None_2 tokens i) by done.
  rewrite (drop_ge tokens (i + 2)) by lia. cbn [schema_modifiers].
  rewrite (lookup_ge_None_2 tokens (i + 2)) by lia.
  apply IH. lia.
Qed.

(** C2 (failing input). On a schema definition whose parenthesis is not
    closed, [parse] returns nothing, whatever the fuel: the loop of
    [parseSchemaDefinition] runs past the end of the tokens for ever. *)
Theorem parse_unclosed_schema_never_returns (fuel : nat)
    (params : option (object value)) :
  parse fuel "SERTIFIKASI LAHAN t (a TEKS" params = None.
Proof.
  unfold parse.
  replace (tokenize "SERTIFIKASI LAHAN t (a TEKS")
    with ["SERTIFIKASI"; "LAHAN"; "t"; "("; "a"; "TEKS"]
    by (vm_compute; reflexivity).
  set (tokens := ["SERTIFIKASI"; "LAHAN"; "t"; "("; "a"; "TEKS"]).
  assert (Hloop : schema_loop fuel tokens 4 [] = None).
  { destruct fuel as [|fuel]; [done|].
    cbn [schema_loop]. change (tok_eq tokens 4 ")") with false. cbv iota.
    change (drop (4 + 2) tokens) with (@nil string). cbn [schema_modifiers].
    change (tok_eq tokens (4 + 2) ",") with false. cbv iota.
    apply schema_loop_past_end. subst tokens. simpl. lia. }
  subst tokens. cbv beta iota delta [parse_tokens].
  change (toUpperCase "SERTIFIKASI") with "SERTIFIKASI".
  assert (Hd : dispatch fuel ["SERTIFIKASI"; "LAHAN"; "t"; "("; "a"; "TEKS"]
                 "SERTIFIKASI" = None).
  { change (dispatch fuel ["SERTIFIKASI"; "LAHAN"; "t"; "("; "a"; "TEKS"]
                 "SERTIFIKASI")
      with (parseSchemaDefinition fuel
              ["SERTIFIKASI"; "LAHAN"; "t"; "("; "a"; "TEKS"]).
    unfold parseSchemaDefinition.
    change (upper_at ["SERTIFIKASI"; "LAHAN"; "t"; "("; "a"; "TEKS"] 0)
      with (@Ok string "SERTIFIKASI").
    change (upper_at ["SERTIFIKASI"; "LAHAN"; "t"; "("; "a"; "TEKS"] 1)
      with (@Ok string "LAHAN").
    cbn [comp_bind]. 
    change (throw_if (negb ("SERTIFIKASI" =? "SERTIFIKASI")) ?m) with (Ok tt).
    cbn [comp_bind].
    change (throw_if (negb ("LAHAN" =? "LAHAN")) ?m) with (Ok tt).
    cbn [comp_bind].
    change (required_token _ _) with (@Ok string "t"). cbn [comp_bind].
    change (throw_if _ _) with (Ok tt). cbn [comp_bind].
    by rewrite Hloop. }
  by rewrite Hd.
Qed.

(** What does hold of the [try] block: an exception raised by a parser
    or by the binding of the parameters is returned as an ERROR command
    that carries its message. *)
Lemma parse_tokens_catches fuel t0 tokens params m :
  dispatch fuel (t0 :: tokens) (toUpperCase t0) = Some (Throw m) ->
  parse_tokens fuel (t0 :: tokens) params = Some (ERROR m).
Proof. intros H. cbv beta iota delta [parse_tokens]. by rewrite H. Qed.

End ParseFacts.

End QueryParserFacts.

Module ScanFacts.
Import Str QueryParser Scan.

Section LikeFacts.
Context `{RT : Runtime} `{EV : !Evaluator}.

(** C4 (failing input). The scan of a row whose field is abc with the
    plain criteria [name LIKE 'a.c'] answers that the row matches: the dot
    of the pattern reaches the regular expression unescaped and stands for
    any character, whereas under LIKE it only matches itself. *)
Theorem like_dot_is_not_escaped :
  row_matches [("name", VStr "abc")] (Some (Plain "name" "LIKE" (VStr "a.c")))
  = Some (Ok true)
  ∧ like "a.c" "abc" = false.
Proof. split; vm_compute; reflexivity. Qed.

(** The same pattern on the value that it spells does match, in both. *)
Example like_dot_itself :
  row_matches [("name", VStr "A.C")] (Some (Plain "name" "LIKE" (VStr "a.c")))
  = Some (Ok true)
  ∧ like "a.c" "A.C" = true.
Proof. split; vm_compute; reflexivity. Qed.

(** A percent does not cross a line feed in the scan, as the dot of a
    regular expression does not match a line terminator. *)
Example like_percent_line_feed :
  let lf := String (ascii_of_nat 10) EmptyString in
  like_case (VStr "a%") (VStr ("a" ++ lf ++ "b")) = Some (Ok false)
  ∧ like "a%" ("a" ++ lf ++ "b") = true.
Proof. split; vm_compute; reflexivity. Qed.

End LikeFacts.

End ScanFacts.

Module EngineFacts.
Import Str QueryParser Engine.

Section DispatcherFacts.
Context `{RT : Runtime} `{ST : Stores} `{SV : !Services}.

Lemma query_closed fuel d queryString params :
  pager d = false ->
  query fuel d queryString params
  = Some (Ok (Message "Error: Database is closed."), d).
Proof. intros H. unfold query. by rewrite H. Qed.

Lemma try_execute_returns d cmd : ∃ o, fst (try_execute d cmd) = Ok o.
Proof.
  unfold try_execute. destruct (execute_command d cmd) as [[o|m] d']; eauto.
Qed.

Lemma try_execute_catches d cmd m d' :
  execute_command d cmd = (Throw m, d') ->
  try_execute d cmd = (Ok (Message ("Error: " ++ m)), d').
Proof. intros H. unfold try_execute. by rewrite H. Qed.

Lemma query_parse_error fuel d queryString message :
  pager d = true ->
  obj_get (queryCache d) queryString = None ->
  parse fuel queryString None = Some (ERROR message) ->
  fst <$> query fuel d queryString None
  = Some (Ok (Message ("Error: " ++ message))).
Proof.
  intros Hp Hc He. unfold query, resolve. by rewrite Hp, Hc, He.
Qed.

Lemma resolve_frame fuel d queryString params cmd d' :
  resolve fuel d queryString params = Some (Run cmd d') ->
  storage d' = storage d ∧ transactionManager d' = transactionManager d
  ∧ pager d' = pager d.
Proof.
  unfold resolve. intros H.
  destruct (obj_get (queryCache d) queryString) as [cached|], params as [ps|];
    try (injection H as <- <-; done);
    destruct (parse fuel queryString None) as [[]|]; try done;
    try (injection H as <- <-; done);
    match type of H with
    | context [_bindParameters ?c ps] =>
        destruct (_bindParameters c ps); try done; injection H as <- <-; done
    end.
Qed.


(** C10 (failing input). A DELETE whose WHERE clause ends with a
    connective parses to a criteria with an undefined entry; with a
    binding map, [_bindParameters] is called outside the [try] block and
    its [TypeError] leaves [query]. *)
Theorem query_raises_in_parameter_binding (fuel : nat) (s : store)
    (v : value) :
  fst <$> query fuel (opened s) "DELETE FROM t WHERE a = 1 AND"
            (Some [("x", v)])
  = Some (Throw "Cannot read properties of undefined (reading 'type')").
Proof.
  unfold query, resolve, parse.
  replace (tokenize "DELETE FROM t WHERE a = 1 AND")
    with ["DELETE"; "FROM"; "t"; "WHERE"; "a"; "="; "1"; "AND"]
    by (vm_compute; reflexivity).
  cbn [opened pager negb queryCache obj_get].
  set (tokens := ["DELETE"; "FROM"; "t"; "WHERE"; "a"; "="; "1"; "AND"]).
  assert (Hp : parse_tokens fuel tokens None
               = Some (DELETE (Some "t")
                         (Some (NCompound "AND"
                                  [Some (NCond "a" "=" (literal_guarded (Some "1")));
                                   None])))).
  { reflexivity. }
  rewrite Hp. cbn [_bindParameters bind_criteria _info_bindCriteria res_bind].
  destruct (literal_guarded (Some "1")) eqn:Hl; reflexivity.
Qed.

End DispatcherFacts.

Section EngineExamples.
Import IntRuntime ExampleServices.


(** Outside a transaction the same statement reaches the executor. *)
Example insert_outside_transaction :
  (storage ∘ snd) <$> query 10 (opened []) "INSERT INTO t (id) VALUES (1)" None
  = Some [insertExecutor_execute example_insert].
Proof. vm_compute. reflexivity. Qed.

End EngineExamples.

End EngineFacts.

Module SawitServerFacts.
Import Str QueryParser Engine SawitServer.

Section ServerFacts.
Context `{RT : Runtime} `{ST : Stores} `{SV : !Services} `{HS : !Host}.


(** An error frame is what the front-end sends when an exception leaves
    [query]. *)
Lemma escaped_exception_answers_error_frame fuel dbs c name d d' queryString
    params m :
  is_server_level queryString = false ->
  currentDatabase c = Some name ->
  obj_get dbs name = Some d ->
  query fuel d queryString params = Some (Throw m, d') ->
  handleQuery fuel dbs c queryString params
  = Some (error ("Query error: " ++ m), c, obj_set dbs name d').
Proof.
  intros Hs Hc Hd Hq. unfold handleQuery, getOrCreateDatabase.
  by rewrite Hs, Hc, Hd, Hq.
Qed.

End ServerFacts.

Section ServerExamples.
Import IntRuntime ExampleServices.



End ServerExamples.

End SawitServerFacts.

(** ** The schema manager *)

Module SchemaManagerFacts.
Import Str QueryParser Scan SchemaManager.

Lemma obj_get_set_eq {A} (o : object A) k v :
  obj_get (obj_set o k v) k = Some v.
Proof.
  induction o as [|[k' v'] o IH]; cbn.
  - now rewrite String.eqb_refl.
  - destruct (String.eqb_spec k k'); cbn.
    + now rewrite String.eqb_refl.
    + destruct (String.eqb_spec k k'); congruence.
Qed.

Lemma obj_get_set_neq {A} (o : object A) k k' v :
  k' <> k -> obj_get (obj_set o k v) k' = obj_get o k'.
Proof.
  intros Hne. induction o as [|[k0 v0] o IH]; cbn.
  - destruct (String.eqb_spec k' k); congruence.
  - destruct (String.eqb_spec k k0); cbn.
    + subst. destruct (String.eqb_spec k' k0); congruence.
    + destruct (String.eqb_spec k' k0); auto.
Qed.

Lemma obj_get_elem_of {A} (o : object A) k v :
  NoDup o.*1 -> (k, v) ∈ o -> obj_get o k = Some v.
Proof.
  induction o as [|[k0 v0] o IH]; cbn.
  - intros _ H. inversion H.
  - intros Hnd H. apply NoDup_cons in Hnd as [Hk Hnd].
    apply elem_of_cons in H as [H|H].
    + inversion H; subst. now rewrite String.eqb_refl.
    + destruct (String.eqb_spec k k0); subst; auto.
      exfalso. apply Hk. apply list_elem_of_fmap. now exists (k0, v).
Qed.

Lemma obj_get_None {A} (o : object A) k :
  obj_get o k = None -> k ∉ o.*1.
Proof.
  induction o as [|[k0 v0] o IH]; cbn.
  - intros _ H. inversion H.
  - destruct (String.eqb_spec k k0); [discriminate|].
    intros H Hin. apply elem_of_cons in Hin as [?|?]; [congruence|].
    now apply IH.
Qed.

Section ValidationFacts.
Context `{RT : Runtime} `{CO : !Coercions}.

Lemma validateType_coerced field v type v' :
  _validateType field v (Some type) = Ok v' -> coerced type v v'.
Proof.
  unfold _validateType, coerced, includes. cbn [existsb].
  set (u := toUpperCase type). clearbody u.
  destruct (String.eqb_spec u "TEKS"); [subst; cbn |].
  { destruct v; intros [=]; subst; repeat split; discriminate. }
  destruct (String.eqb_spec u "STRING"); [subst; cbn |].
  { destruct v; intros [=]; subst; repeat split; discriminate. }
  destruct (String.eqb_spec u "ANGKA"); [subst; cbn |].
  { destruct (to_number v) eqn:E; intros [=]; subst.
    repeat split; try discriminate. eauto. }
  destruct (String.eqb_spec u "NUMBER"); [subst; cbn |].
  { destruct (to_number v) eqn:E; intros [=]; subst.
    repeat split; try discriminate. eauto. }
  destruct (String.eqb_spec u "TANGGAL"); [subst; cbn |].
  { destruct (to_iso_date v) eqn:E; intros [=]; subst.
    repeat split; try discriminate. eauto. }
  destruct (String.eqb_spec u "DATE"); [subst; cbn |].
  { destruct (to_iso_date v) eqn:E; intros [=]; subst.
    repeat split; try discriminate. eauto. }
  assert (Hb : forall r : res value,
    (match v with
     | VBool _ => Ok v
     | VStr s =>
         if String.eqb s "true" then Ok (VBool true)
         else if String.eqb s "false" then Ok (VBool false) else r
     | VNum n =>
         if is_one n then Ok (VBool true)
         else if is_zero n then Ok (VBool false) else r
     | _ => r
     end) = Ok v' ->
    r = Ok v' \/
    exists b, v' = VBool b
      /\ (v = VBool b \/ v = VStr (if b then "true" else "false")
          \/ exists n, v = VNum n /\ (if b then is_one n else is_zero n) = true)).
  { intros r. destruct v as [| |b|m|s|l]; auto.
    - intros [=]; subst. right. exists b. auto.
    - destruct (is_one m) eqn:E1; [intros [=]; subst; right; exists true; eauto 10|].
      destruct (is_zero m) eqn:E0; [intros [=]; subst; right; exists false; eauto 10|].
      auto.
    - destruct (String.eqb_spec s "true");
        [intros [=]; subst; right; exists true; eauto 10|].
      destruct (String.eqb_spec s "false");
        [intros [=]; subst; right; exists false; eauto 10|].
      auto. }
  destruct (String.eqb_spec u "BENAR_SALAH"); [subst; cbn |].
  { intros H. apply Hb in H as [H|H]; [discriminate|].
    repeat split; try discriminate. auto. }
  destruct (String.eqb_spec u "BOOLEAN"); [subst; cbn |].
  { intros H. apply Hb in H as [H|H]; [discriminate|].
    repeat split; try discriminate. auto. }
  cbn. discriminate.
Qed.

Lemma validate_field_spec data validated field config validated' :
  validate_field data validated field config = Ok validated' ->
  field_validated data field config
    (obj_get validated field) (obj_get validated' field)
  ∧ ∀ k, k <> field -> obj_get validated' k = obj_get validated k.
Proof.
  unfold validate_field, field_validated, present.
  destruct (fc_required config) eqn:Hreq; cbn [andb].
  - destruct (Scan.field data field) eqn:Hv; cbn; try discriminate;
      destruct (default_of config) eqn:Hd; cbn;
      try (destruct (_validateType _ _ _) eqn:Ht; cbn; [|discriminate]);
      intros [=]; subst;
      (split; [repeat split; try discriminate; intros _;
               eexists; split; [reflexivity|apply obj_get_set_eq]
              |intros k Hk; now apply obj_get_set_neq]).
  - destruct (Scan.field data field) eqn:Hv; cbn;
      destruct (default_of config) eqn:Hd; cbn;
      try (destruct (_validateType _ _ _) eqn:Ht; cbn; [|discriminate]);
      intros [=]; subst;
      (split; [repeat split; try discriminate; intros _;
               try reflexivity; try apply obj_get_set_eq;
               try (eexists; split; [reflexivity|apply obj_get_set_eq])
              |intros k Hk; try reflexivity; now apply obj_get_set_neq]).
Qed.

Lemma validate_fields_other schema data validated out k :
  validate_fields schema data validated = Ok out ->
  k ∉ schema.*1 -> obj_get out k = obj_get validated k.
Proof.
  revert validated. induction schema as [|[f c] schema IH]; cbn; intros val.
  - now intros [=->].
  - destruct (validate_field data val f c) as [val'|] eqn:E; cbn;
      [|discriminate].
    intros H Hk. apply not_elem_of_cons in Hk as [Hkf Hk].
    rewrite (IH _ H Hk). now apply validate_field_spec in E as [_ ->].
Qed.

Lemma validate_fields_spec schema data validated out field config :
  validate_fields schema data validated = Ok out ->
  NoDup schema.*1 -> (field, config) ∈ schema ->
  field_validated data field config
    (obj_get validated field) (obj_get out field).
Proof.
  revert validated. induction schema as [|[f c] schema IH]; cbn; intros val.
  - intros _ _ H. inversion H.
  - destruct (validate_field data val f c) as [val'|] eqn:E; cbn;
      [|discriminate].
    intros H Hnd Hin. apply NoDup_cons in Hnd as [Hf Hnd].
    apply elem_of_cons in Hin as [Hin|Hin].
    + inversion Hin; subst.
      rewrite (validate_fields_other _ _ _ _ _ H Hf).
      now apply validate_field_spec in E as [? _].
    + assert (field <> f).
      { intros ->. apply Hf. apply list_elem_of_fmap. now exists (f, config). }
      apply validate_field_spec in E as [_ E]. rewrite <- (E field) by done.
      now apply IH.
Qed.

Lemma validate_fields_required schema data validated field config :
  (field, config) ∈ schema -> fc_required config = true ->
  present (Scan.field data field) = false ->
  ∃ message, validate_fields schema data validated = Throw message.
Proof.
  revert validated. induction schema as [|[f c] schema IH]; cbn; intros val Hin.
  - inversion Hin.
  - intros Hreq Hv. apply elem_of_cons in Hin as [Hin|Hin].
    + inversion Hin; subst. unfold validate_field. rewrite Hreq.
      unfold present in Hv. apply negb_false_iff in Hv. rewrite Hv. cbn. eauto.
    + destruct (validate_field data val f c) as [val'|]; cbn; eauto.
Qed.

Lemma extra_fields_schema schema entries validated k :
  has_property schema k = true ->
  obj_get (extra_fields schema entries validated) k = obj_get validated k.
Proof.
  intros Hk. revert validated.
  induction entries as [|[f v] entries IH]; cbn; intros val; auto.
  rewrite IH. destruct (has_property schema f) eqn:E; auto.
  apply obj_get_set_neq. congruence.
Qed.

Lemma extra_fields_other schema entries validated k :
  k ∉ entries.*1 ->
  obj_get (extra_fields schema entries validated) k = obj_get validated k.
Proof.
  revert validated.
  induction entries as [|[f v] entries IH]; cbn; intros val Hk; auto.
  apply not_elem_of_cons in Hk as [Hkf Hk]. rewrite IH by done.
  destruct (has_property schema f); auto. now apply obj_get_set_neq.
Qed.

Lemma extra_fields_spec schema entries validated k v :
  NoDup entries.*1 -> (k, v) ∈ entries -> has_property schema k = false ->
  obj_get (extra_fields schema entries validated) k = Some v.
Proof.
  revert validated.
  induction entries as [|[f w] entries IH]; cbn; intros val Hnd Hin Hk.
  - inversion Hin.
  - apply NoDup_cons in Hnd as [Hf Hnd].
    apply elem_of_cons in Hin as [Hin|Hin].
    + inversion Hin; subst. rewrite Hk.
      rewrite extra_fields_other by done. apply obj_get_set_eq.
    + now apply IH.
Qed.


(** X19. A required field that the row lacks, or holds [null] in, makes
    the validation throw. *)
Lemma validateData_required (schemas : object (object field_config)) tableName
    (schema : object field_config) data field config :
  obj_get schemas tableName = Some schema ->
  (field, config) ∈ schema -> fc_required config = true ->
  present (Scan.field data field) = false ->
  ∃ message, validateData schemas tableName data = Throw message.
Proof.
  unfold validateData. intros -> Hin Hreq Hv.
  destruct (validate_fields_required schema data [] field config Hin Hreq Hv)
    as [message ->]. cbn. eauto.
Qed.

(** The values that a BOOLEAN field accepts. *)
Lemma validateType_boolean field v b :
  v = VBool b ∨ v = VStr (if b then "true" else "false")
  ∨ (∃ n, v = VNum n ∧ is_one n = b ∧ is_zero n = negb b) ->
  _validateType field v (Some "BOOLEAN") = Ok (VBool b)
  ∧ _validateType field v (Some "BENAR_SALAH") = Ok (VBool b).
Proof.
  intros [->|[->|(n & -> & H1 & H0)]].
  - now cbn.
  - now destruct b.
  - cbn. rewrite H1, H0. now destruct b.
Qed.

(** A row of three fields against a schema of three: the text is kept,
    the boolean is read from its name, the default fills the field that
    the row lacks and the field that the schema does not name is kept. *)
Lemma validateData_example :
  let schema :=
    [("name", {| fc_type := Some "teks"; fc_required := true;
                 fc_default := None |});
     ("active", {| fc_type := Some "BOOLEAN"; fc_required := false;
                   fc_default := None |});
     ("unit", {| fc_type := Some "STRING"; fc_required := false;
                 fc_default := Some (VStr "kg") |})] in
  validateData [("t", schema)] "t"
    [("name", VStr "x"); ("active", VStr "false"); ("extra", VNull)]
  = Ok [("name", VStr "x"); ("active", VBool false); ("unit", VStr "kg");
        ("extra", VNull)].
Proof. reflexivity. Qed.

(** C7. A row with a field named [constructor], inserted into a table
    whose schema does not name that field, loses the field in the
    validation: [schema[field]] finds the constructor that every object
    inherits, and the field is not taken over. *)
Theorem validateData_drops_inherited_name :
  let schema := [("a", {| fc_type := Some "TEKS"; fc_required := false;
                          fc_default := None |})] in
  let data := [("a", VStr "x"); ("constructor", VStr "y")] in
  obj_get schema "constructor" = None
  ∧ validateData [("t", schema)] "t" data = Ok [("a", VStr "x")].
Proof. split; reflexivity. Qed.

End ValidationFacts.

End SchemaManagerFacts.

(** ** The insert executor *)

Module InsertExecutorFacts.
Import Str QueryParser Buffer Pager TableManager IndexManager InsertExecutor.

(** The inversion of a sequence of calls that returned. *)
Ltac bind_inv H :=
  repeat match type of H with
  | res_bind ?r _ = Ok _ =>
      let E := fresh "E" in
      destruct r eqn:E; cbn [res_bind] in H; [|discriminate H]
  end.

Ltac bind_step H x E :=
  match type of H with
  | res_bind ?r _ = Ok _ =>
      destruct r as [x|] eqn:E; cbn [res_bind] in H; [|discriminate H]
  end.

Section InsertFacts.
Context `{RT : Runtime} `{CO : !SchemaManager.Coercions}
        `{SR : !JSON.Serializer} `{SE : !StrictEquality} `{AC : !Actions}.

Lemma run_triggers_none table timing_ rows d :
  obj_get (triggers d) table = None ->
  run_triggers table timing_ rows d = d.
Proof.
  intros H. unfold run_triggers.
  induction rows as [|r rows IH]; cbn; [reflexivity|].
  unfold executeTriggers at 2, matching. rewrite H. cbn. exact IH.
Qed.

(** What the change of page leaves as it was. *)
Lemma next_page_frame c c' :
  next_page c = Ok c' ->
  indexes_ (db c') = indexes_ (db c) ∧ triggers (db c') = triggers (db c)
  ∧ tables (db c') = tables (db c) ∧ schemas (db c') = schemas (db c)
  ∧ written c' = written c ∧ startPageChanged c' = true.
Proof.
  unfold next_page. intros H. bind_inv H.
  cbn [allocPage] in H. bind_inv H.
  injection H as <-. cbn. repeat split; reflexivity.
Qed.

Lemma maybe_next_page_frame (b : bool) c c1 :
  (if b then next_page c else Ok c) = Ok c1 ->
  indexes_ (db c1) = indexes_ (db c) ∧ triggers (db c1) = triggers (db c)
  ∧ tables (db c1) = tables (db c) ∧ written c1 = written c.
Proof.
  destruct b.
  - intros H. apply next_page_frame in H. tauto.
  - intros [= <-]. auto.
Qed.

(** The row of one turn of the loop and what the turn does to the
    indexes. *)
Lemma insert_row_indexes table c validatedData c' :
  insert_row table c validatedData = Ok c' ->
  ∃ r, data r = validatedData
    ∧ written c' = written c ++ [r]
    ∧ indexes_ (db c')
      = (if negb (String.eqb table "_indexes")
         then updateIndexes table (Some r) None (indexes_ (db c))
         else indexes_ (db c))
    ∧ triggers (db c') = triggers (db c)
    ∧ tables (db c') = tables (db c).
Proof.
  unfold insert_row. intros H. bind_inv H. injection H as <-.
  apply maybe_next_page_frame in E as (Hi & Ht & Hc & Hw).
  eexists {| data := validatedData; _pageId := _ |}.
  split; [reflexivity|]. cbn. rewrite Hw. split; [reflexivity|].
  unfold logInsert.
  destruct (negb (String.eqb table "_indexes")),
    (negb (String.eqb table "_audit")); cbn;
    try destruct (audit_enabled _); cbn; rewrite ?Hi, ?Ht, ?Hc; auto.
Qed.

Lemma insert_rows_indexes table rows : ∀ c c',
  insert_rows table c rows = Ok c' ->
  ∃ rs, map data rs = rows
    ∧ written c' = written c ++ rs
    ∧ indexes_ (db c')
      = (if negb (String.eqb table "_indexes")
         then IndexSpec.inserted (indexes_ (db c)) table rs
         else indexes_ (db c))
    ∧ triggers (db c') = triggers (db c)
    ∧ tables (db c') = tables (db c).
Proof.
  induction rows as [|v rows IH]; cbn; intros c c' H.
  - injection H as <-. exists []. rewrite app_nil_r.
    destruct (negb _); auto.
  - bind_inv H. apply insert_row_indexes in E as (r0 & Hd & Hw & Hi & Ht & Hc).
    apply IH in H as (rs & Hd' & Hw' & Hi' & Ht' & Hc').
    exists (r0 :: rs). cbn. rewrite Hd, Hd', Hw', Hw, <- app_assoc.
    repeat split; auto; try congruence.
    rewrite Hi'. destruct (negb _); [|assumption]. now rewrite Hi.
Qed.

Lemma validate_all_spec d table dataArray : ∀ validated,
  validate_all d table dataArray = Ok validated ->
  Forall2 (fun v data0 =>
             SchemaManager.validateData (schemas d) table data0 = Ok v)
    validated dataArray.
Proof.
  induction dataArray as [|data0 l IH]; cbn; intros validated H.
  - injection H as <-. constructor.
  - bind_inv H. injection H as <-. constructor; auto.
Qed.

(** The indexes after an insertion that returns, on a table without
    triggers: each stored row has been passed to [updateIndexes], unless
    the table is the table of the indexes. *)
Lemma insertMany_indexes table dataArray d message d' :
  obj_get (triggers d) table = None ->
  insertMany table dataArray d = Ok (message, d') ->
  ∃ rows,
    Forall2 (fun r data0 =>
               SchemaManager.validateData (schemas d) table data0
               = Ok (data r)) rows dataArray
    ∧ indexes_ d'
      = (if negb (String.eqb table "_indexes")
         then IndexSpec.inserted (indexes_ d) table rows
         else indexes_ d).
Proof.
  intros Htr. unfold insertMany.
  destruct dataArray as [|data0 l] eqn:Hda.
  - intros [= _ <-]. exists []. split; [constructor|].
    now destruct (negb _).
  - rewrite <- Hda.
    destruct (findTableEntry (tables d) table) as [entry|]; [|discriminate].
    intros H. bind_step H validated Ev.
    rewrite run_triggers_none in H by assumption.
    bind_step H firstData Er. bind_step H firstOffset Eo.
    bind_step H firstCount Ec. bind_step H c Ei.
    bind_step H p1 E1. bind_step H p2 E2. bind_step H pg Ew.
    apply insert_rows_indexes in Ei as (rs & Hd & Hw & Hi & Ht & Hc).
    cbn in Hi, Ht, Hc.
    rewrite run_triggers_none in H.
    2:{ destruct (startPageChanged c); cbn; congruence. }
    injection H as _ <-. exists rs. split.
    + apply validate_all_spec in Ev. subst validated.
      clear -Ev. revert Ev. generalize dataArray.
      induction rs as [|r rs IH]; intros l' H; inversion H; subst;
        constructor; auto.
    + cbn. destruct (startPageChanged c); cbn; exact Hi.
Qed.

(** *** The bytes of a page *)

Lemma to_nat_byte_of n : Byte.to_nat (byte_of n) = n mod 256.
Proof.
  unfold byte_of. destruct (Byte.of_nat (n mod 256)) eqn:E; cbn.
  - now apply Byte.to_of_nat.
  - apply Byte.of_nat_None_iff in E.
    pose proof (Nat.mod_upper_bound n 256). lia.
Qed.

Lemma insert_pair_take_drop {A} (o : nat) (lo hi : A) (buf : list A) :
  S o < List.length buf ->
  <[S o := hi]> (<[o := lo]> buf) = take o buf ++ [lo; hi] ++ drop (o + 2) buf.
Proof.
  revert buf. induction o as [|o IH]; intros [|a [|b buf]] H; cbn in *; try lia.
  - reflexivity.
  - f_equal. apply (IH (b :: buf)). cbn. lia.
Qed.

Lemma writeUInt16LE_ok value offset buf :
  value < 256 * 256 -> S offset < List.length buf ->
  writeUInt16LE value offset buf
  = Ok (take offset buf ++ [byte_of value; byte_of (value / 256)]
        ++ drop (offset + 2) buf).
Proof.
  intros Hv Ho. unfold writeUInt16LE.
  destruct (N.ltb_spec 65535 (N.of_nat value)); [lia|].
  destruct (Nat.ltb_spec (S offset) (List.length buf)); [|lia].
  f_equal. now apply insert_pair_take_drop.
Qed.

Lemma readUInt16LE_at value (before after : buffer) :
  value < 256 * 256 ->
  readUInt16LE (before ++ [byte_of value; byte_of (value / 256)] ++ after)
    (List.length before) = Ok value.
Proof.
  intros Hv. unfold readUInt16LE.
  rewrite (lookup_app_r before) by lia.
  rewrite (lookup_app_r before) by lia.
  replace (List.length before - List.length before) with 0 by lia.
  replace (S (List.length before) - List.length before) with 1 by lia.
  cbn -[Nat.mul Nat.div Nat.modulo]. rewrite !to_nat_byte_of. f_equal.
  rewrite (Nat.mod_small (value / 256)).
  - rewrite Nat.add_comm. symmetry. apply Nat.div_mod_eq.
  - apply Nat.Div0.div_lt_upper_bound. exact Hv.
Qed.

Lemma PAGE_SIZE_small : PAGE_SIZE < 256 * 256.
Proof. apply Nat.ltb_lt. vm_compute. reflexivity. Qed.

Lemma copy_fits (source target : buffer) targetStart :
  targetStart + List.length source <= List.length target ->
  copy source target targetStart
  = take targetStart target ++ source
    ++ drop (targetStart + List.length source) target.
Proof.
  intros H. unfold copy. now rewrite (take_ge source) by lia.
Qed.

Lemma copy_record (p dataBuf : buffer) (lo hi : Byte.byte) offset :
  offset + 2 + List.length dataBuf <= List.length p ->
  copy dataBuf (take offset p ++ [lo; hi] ++ drop (offset + 2) p) (offset + 2)
  = take offset p ++ ([lo; hi] ++ dataBuf)
    ++ drop (offset + 2 + List.length dataBuf) p.
Proof.
  intros Hfit.
  assert (Ht : List.length (take offset p) = offset)
    by (rewrite length_take; lia).
  rewrite copy_fits.
  2:{ rewrite !length_app, length_take, length_drop.
      cbn [List.length]. lia. }
  rewrite (app_assoc (take offset p)).
  rewrite take_app_length'.
  2:{ rewrite length_app, Ht. cbn [List.length]. lia. }
  rewrite drop_app_ge.
  2:{ rewrite length_app, Ht. cbn [List.length]. lia. }
  rewrite drop_drop. rewrite length_app, Ht. cbn [List.length].
  replace (offset + 2 + (offset + 2 + List.length dataBuf - (offset + 2)))
    with (offset + 2 + List.length dataBuf) by lia.
  now rewrite <- !app_assoc.
Qed.

(** The frame of the updates of the engine in one turn of the loop. *)
Lemma row_effects_pager table (d : database) r :
  pager_ (if negb (String.eqb table "_audit")
          then logInsert table r
                 (if negb (String.eqb table "_indexes")
                  then with_indexes d
                         (updateIndexes table (Some r) None (indexes_ d))
                  else d)
          else if negb (String.eqb table "_indexes")
               then with_indexes d
                      (updateIndexes table (Some r) None (indexes_ d))
               else d) = pager_ d.
Proof.
  unfold logInsert.
  destruct (negb (String.eqb table "_audit")),
    (negb (String.eqb table "_indexes")); cbn;
    try destruct (audit_enabled d); reflexivity.
Qed.

(** X29. A record that fits is appended into the current page: the page,
    the pager and the flag of the change of page are as before, the record is
    written at the free offset, which moves past it, and the count of
    the page grows by one. *)
Lemma insert_row_fits table c validatedData :
  let dataBuf := from (JSON.stringify validatedData) in
  List.length (pData c) = PAGE_SIZE ->
  freeOffset c + 2 + List.length dataBuf <= PAGE_SIZE ->
  ∃ c', insert_row table c validatedData = Ok c'
    ∧ currentPageId c' = currentPageId c
    ∧ pager_ (db c') = pager_ (db c)
    ∧ startPageChanged c' = startPageChanged c
    ∧ pData c'
      = take (freeOffset c) (pData c) ++ record_of dataBuf
        ++ drop (freeOffset c + 2 + List.length dataBuf) (pData c)
    ∧ freeOffset c' = freeOffset c + 2 + List.length dataBuf
    ∧ count c' = S (count c).
Proof.
  intros dataBuf Hlen Hfit. pose proof PAGE_SIZE_small as Hsmall.
  unfold insert_row. fold dataBuf.
  destruct (Nat.ltb_spec PAGE_SIZE (freeOffset c + (2 + List.length dataBuf)));
    [lia|].
  cbn [res_bind]. rewrite writeUInt16LE_ok by lia. cbn [res_bind].
  eexists. split; [reflexivity|]. cbn [currentPageId db startPageChanged pData
                                        freeOffset count].
  rewrite row_effects_pager, copy_record by lia.
  repeat split; try reflexivity; lia.
Qed.

Lemma header_split (p : buffer) :
  List.length p = PAGE_SIZE ->
  ∃ b0 b1 b2 b3 b4 b5 b6 b7 rest,
    p = b0 :: b1 :: b2 :: b3 :: b4 :: b5 :: b6 :: b7 :: rest.
Proof.
  intros H.
  destruct p as [|b0 [|b1 [|b2 [|b3 [|b4 [|b5 [|b6 [|b7 rest]]]]]]]];
    try (vm_compute in H; discriminate H).
  now exists b0, b1, b2, b3, b4, b5, b6, b7, rest.
Qed.

Lemma four_bytes n :
  n < 256 * (256 * (256 * 256)) ->
  (((n / 256 / 256 / 256) mod 256 * 256 + (n / 256 / 256) mod 256) * 256
   + (n / 256) mod 256) * 256 + n mod 256 = n.
Proof.
  intros H.
  assert (H1 : n / 256 < 256 * (256 * 256))
    by (apply Nat.Div0.div_lt_upper_bound; exact H).
  assert (H2 : n / 256 / 256 < 256 * 256)
    by (apply Nat.Div0.div_lt_upper_bound; exact H1).
  assert (H3 : n / 256 / 256 / 256 < 256)
    by (apply Nat.Div0.div_lt_upper_bound; exact H2).
  rewrite (Nat.mod_small _ _ H3).
  pose proof (Nat.div_mod_eq n 256) as E0.
  pose proof (Nat.div_mod_eq (n / 256) 256) as E1.
  pose proof (Nat.div_mod_eq (n / 256 / 256) 256) as E2.
  set (a := n / 256) in *. set (b := a / 256) in *. set (c := b / 256) in *.
  set (r0 := n mod 256) in *. set (r1 := a mod 256) in *.
  set (r2 := b mod 256) in *. clearbody a b c r0 r1 r2. lia.
Qed.

(** A record that does not fit in the current page, and fits in a page:
    a page is allocated at the end of the file, the current page is
    written with its count, its free offset and the number of the new
    page as its next page, and the record is written at the beginning of
    the new page, which is the current page from then on. *)
Lemma insert_row_new_page table c validatedData :
  let dataBuf := from (JSON.stringify validatedData) in
  let newPageId := List.length (pager_ (db c)) in
  List.length (pData c) = PAGE_SIZE ->
  PAGE_SIZE < freeOffset c + 2 + List.length dataBuf ->
  10 + List.length dataBuf <= PAGE_SIZE ->
  currentPageId c < List.length (pager_ (db c)) ->
  count c < 256 * 256 -> freeOffset c < 256 * 256 ->
  newPageId < 256 * (256 * (256 * 256)) ->
  ∃ c' old, insert_row table c validatedData = Ok c'
    ∧ currentPageId c' = newPageId
    ∧ startPageChanged c' = true
    ∧ pager_ (db c') = <[currentPageId c := old]> (pager_ (db c)) ++ [fresh_page]
    ∧ next_of old = newPageId
    ∧ readUInt16LE old 4 = Ok (count c)
    ∧ readUInt16LE old 6 = Ok (freeOffset c)
    ∧ drop 8 old = drop 8 (pData c)
    ∧ pData c'
      = take 8 fresh_page ++ record_of dataBuf
        ++ drop (10 + List.length dataBuf) fresh_page
    ∧ freeOffset c' = 10 + List.length dataBuf
    ∧ count c' = 1.
Proof.
  intros dataBuf newPageId Hlen Hbig Hfit Hcur Hcount Hfree Hnew.
  pose proof PAGE_SIZE_small as Hsmall.
  destruct (header_split _ Hlen) as (b0 & b1 & b2 & b3 & b4 & b5 & b6 & b7
                                     & rest & Hp).
  assert (Hfresh : List.length fresh_page = PAGE_SIZE)
    by (vm_compute; reflexivity).
  unfold insert_row. fold dataBuf.
  destruct (Nat.ltb_spec PAGE_SIZE (freeOffset c + (2 + List.length dataBuf)));
    [|lia].
  unfold next_page. rewrite Hp.
  unfold writeUInt16LE at 1.
  destruct (N.ltb_spec 65535 (N.of_nat (count c))); [lia|].
  cbn [List.length Nat.ltb Nat.leb res_bind insert list_insert].
  unfold writeUInt16LE at 1.
  destruct (N.ltb_spec 65535 (N.of_nat (freeOffset c))); [lia|].
  cbn [List.length Nat.ltb Nat.leb res_bind insert list_insert].
  unfold writePage at 1.
  destruct (Nat.ltb_spec (currentPageId c) (List.length (pager_ (db c))));
    [|lia].
  cbn [res_bind allocPage]. unfold pager.
  rewrite length_insert. fold newPageId.
  unfold writeUInt32LE.
  destruct (N.ltb_spec 4294967295 (N.of_nat newPageId)); [lia|].
  cbn [List.length Nat.ltb Nat.leb res_bind insert list_insert Nat.add].
  unfold writePage. unfold pager.
  rewrite length_app, length_insert. cbn [List.length].
  destruct (Nat.ltb_spec (currentPageId c) (List.length (pager_ (db c)) + 1));
    [|lia].
  cbn [res_bind].
  rewrite insert_app_l by (rewrite length_insert; lia).
  rewrite list_insert_insert_eq.
  unfold readPage. unfold pager.
  rewrite lookup_app_r by (rewrite length_insert; fold newPageId; lia).
  rewrite length_insert. fold newPageId.
  replace (newPageId - newPageId) with 0 by lia.
  cbn [lookup list_lookup res_bind].
  replace (readUInt16LE fresh_page 6) with (Ok 8 : res nat)
    by (vm_compute; reflexivity).
  replace (readUInt16LE fresh_page 4) with (Ok 0 : res nat)
    by (vm_compute; reflexivity).
  cbn [res_bind currentPageId db startPageChanged pData freeOffset count
       written].
  rewrite writeUInt16LE_ok by lia. cbn [res_bind].
  eexists _, _. split; [reflexivity|].
  cbn [currentPageId db startPageChanged pData freeOffset count pager_
       with_pager].
  rewrite row_effects_pager. cbn [pager_ with_pager].
  rewrite (copy_record fresh_page dataBuf _ _ 8) by lia.
  split; [reflexivity|]. split; [reflexivity|]. split; [reflexivity|].
  split.
  { cbn [next_of]. rewrite !to_nat_byte_of. now apply four_bytes. }
  split.
  { apply (readUInt16LE_at (count c) [_; _; _; _]). exact Hcount. }
  split.
  { apply (readUInt16LE_at (freeOffset c) [_; _; _; _; _; _]). exact Hfree. }
  split; [reflexivity|]. split; [reflexivity|]. split; [lia|reflexivity].
Qed.

Lemma writeUInt16LE_inv value offset buf buf' :
  writeUInt16LE value offset buf = Ok buf' ->
  value < 256 * 256 ∧ S offset < List.length buf
  ∧ buf' = <[S offset := byte_of (value / 256)]> (<[offset := byte_of value]> buf).
Proof.
  unfold writeUInt16LE.
  destruct (N.ltb_spec 65535 (N.of_nat value)); [discriminate|].
  destruct (Nat.ltb_spec (S offset) (List.length buf)); [|discriminate].
  intros [= <-]. repeat split; [lia|assumption].
Qed.

(** The header that the end of [insertMany], and the change of page,
    write into a page. *)
Lemma write_header (p p1 p2 : buffer) count_ freeOffset_ :
  List.length p = PAGE_SIZE ->
  writeUInt16LE count_ 4 p = Ok p1 ->
  writeUInt16LE freeOffset_ 6 p1 = Ok p2 ->
  readUInt16LE p2 4 = Ok count_ ∧ readUInt16LE p2 6 = Ok freeOffset_
  ∧ take 4 p2 = take 4 p ∧ drop 8 p2 = drop 8 p.
Proof.
  intros Hlen H1 H2.
  destruct (header_split _ Hlen) as (b0 & b1 & b2 & b3 & b4 & b5 & b6 & b7
                                     & rest & ->).
  apply writeUInt16LE_inv in H1 as (Hc & _ & ->).
  apply writeUInt16LE_inv in H2 as (Hf & _ & ->).
  cbn [insert list_insert]. repeat split.
  - apply (readUInt16LE_at count_ [_; _; _; _]). exact Hc.
  - apply (readUInt16LE_at freeOffset_ [_; _; _; _; _; _]). exact Hf.
Qed.

(** The flag of the change of page stays down only when the current page
    has not changed. *)
Lemma insert_row_flag table c validatedData c' :
  insert_row table c validatedData = Ok c' ->
  startPageChanged c' = false ->
  currentPageId c' = currentPageId c ∧ startPageChanged c = false.
Proof.
  unfold insert_row. intros H. bind_step H c1 E1. bind_step H p1 E2.
  injection H as <-. cbn.
  destruct (Nat.ltb _ _).
  - apply next_page_frame in E1. intros Hf.
    destruct E1 as (_ & _ & _ & _ & _ & E1). congruence.
  - injection E1 as <-. auto.
Qed.

Lemma insert_rows_flag table rows : ∀ c c',
  insert_rows table c rows = Ok c' ->
  startPageChanged c' = false ->
  currentPageId c' = currentPageId c ∧ startPageChanged c = false.
Proof.
  induction rows as [|v rows IH]; cbn; intros c c' H Hf.
  - injection H as <-. auto.
  - bind_step H c1 E. destruct (IH _ _ H Hf) as [Hc Hf1].
    destruct (insert_row_flag _ _ _ _ E Hf1) as [Hc1 Hf0].
    split; congruence.
Qed.

Lemma findTableEntry_update (c : catalog) name entry pageId :
  findTableEntry c name = Some entry ->
  findTableEntry (updateTableLastPage c name pageId) name
  = Some {| startPage := startPage entry; lastPage := pageId |}.
Proof.
  unfold findTableEntry, updateTableLastPage. intros ->.
  apply SchemaManagerFacts.obj_get_set_eq.
Qed.

(** The end of an insertion that returns, on a table without triggers:
    the entry of the table in the catalog has the current page of the end
    of the loop as its last page, the catalog being left as it was when
    no page was allocated; and the current page is written with the count
    and the free offset of the end of the loop. *)
Lemma insertMany_lastPage table dataArray d message d' entry :
  obj_get (triggers d) table = None ->
  findTableEntry (tables d) table = Some entry ->
  dataArray <> [] ->
  insertMany table dataArray d = Ok (message, d') ->
  ∃ validated firstData firstOffset firstCount c page,
    validate_all d table dataArray = Ok validated
    ∧ readPage (pager_ d) (lastPage entry) = Ok firstData
    ∧ readUInt16LE firstData 6 = Ok firstOffset
    ∧ readUInt16LE firstData 4 = Ok firstCount
    ∧ insert_rows table
        {| db := d; currentPageId := lastPage entry; pData := firstData;
           freeOffset := firstOffset; count := firstCount;
           startPageChanged := false; written := [] |} validated = Ok c
    ∧ findTableEntry (tables d') table
      = Some {| startPage := startPage entry; lastPage := currentPageId c |}
    ∧ (startPageChanged c = false -> tables d' = tables d)
    ∧ pager_ d' = <[currentPageId c := page]> (pager_ (db c))
    ∧ (List.length (pData c) = PAGE_SIZE ->
       readUInt16LE page 4 = Ok (count c)
       ∧ readUInt16LE page 6 = Ok (freeOffset c)
       ∧ take 4 page = take 4 (pData c) ∧ drop 8 page = drop 8 (pData c)).
Proof.
  intros Htr Hentry Hne. unfold insertMany.
  destruct dataArray as [|data0 l] eqn:Hda; [contradiction|].
  rewrite <- Hda. rewrite Hentry.
  intros H. bind_step H validated Ev.
  rewrite run_triggers_none in H by assumption.
  bind_step H firstData Er. bind_step H firstOffset Eo.
  bind_step H firstCount Ec. bind_step H c Ei.
  bind_step H p1 E1. bind_step H p2 E2. bind_step H pg Ew.
  pose proof (insert_rows_indexes _ _ _ _ Ei) as (rs & _ & _ & _ & Ht & Hc).
  cbn in Ht, Hc.
  rewrite run_triggers_none in H.
  2:{ destruct (startPageChanged c); cbn; congruence. }
  injection H as _ <-.
  exists validated, firstData, firstOffset, firstCount, c, p2.
  repeat (split; [assumption || reflexivity|]).
  unfold writePage in Ew.
  destruct (Nat.ltb _ _); [|discriminate]. injection Ew as <-.
  split; [|split; [|split]].
  - destruct (startPageChanged c) eqn:Hflag; cbn.
    + apply findTableEntry_update. congruence.
    + destruct (insert_rows_flag _ _ _ _ Ei Hflag) as [-> _].
      cbn [tables with_pager currentPageId]. unfold findTableEntry in *.
      rewrite Hc, Hentry. now destruct entry.
  - intros ->. cbn. exact Hc.
  - destruct (startPageChanged c); reflexivity.
  - intros Hlen. exact (write_header _ _ _ _ _ Hlen E1 E2).
Qed.

End InsertFacts.

Section InsertExamples.
Import IntRuntime ExampleRuntime.

(** C5. A row whose record is longer than a page is stored cut: the
    insertion of a row of 4098 bytes of JSON into an empty table
    allocates page 2, links page 1 to it, writes the length 4098 at
    offset 8 and only the first 4086 bytes of the record after it, and
    leaves a free offset of 4108 in the header of a page of 4096
    bytes. *)
Theorem insertMany_cuts_long_record :
  let dataBuf := from (JSON.stringify long_row) in
  List.length dataBuf = 4098
  ∧ ∃ message d page,
      insertMany "t" [long_row] empty_table = Ok (message, d)
      ∧ findTableEntry (tables d) "t" = Some {| startPage := 1; lastPage := 2 |}
      ∧ pager_ d !! 2 = Some page
      ∧ List.length page = PAGE_SIZE
      ∧ readUInt16LE page 4 = Ok 1
      ∧ readUInt16LE page 6 = Ok 4108
      ∧ readUInt16LE page 8 = Ok 4098
      ∧ drop 10 page = take 4086 dataBuf.
Proof.
  split; [vm_compute; reflexivity|].
  eexists _, _, _. split; [vm_compute; reflexivity|].
  repeat split; vm_compute; reflexivity.
Qed.

(** Two rows of 2508 bytes of JSON: the first is appended into page 1,
    the second does not fit after it and is written into the new page 2,
    to which page 1 is linked and which the catalog names as the last
    page. *)
Example insertMany_splits :
  ∃ message d page1 page2,
    insertMany "t" [medium_row; medium_row] empty_table = Ok (message, d)
    ∧ message = "2 bibit tertanam."
    ∧ findTableEntry (tables d) "t" = Some {| startPage := 1; lastPage := 2 |}
    ∧ pager_ d !! 1 = Some page1 ∧ pager_ d !! 2 = Some page2
    ∧ next_of page1 = 2 ∧ readUInt16LE page1 4 = Ok 1
    ∧ readUInt16LE page1 6 = Ok 2518
    ∧ take 2510 (drop 8 page1) = record_of (from (JSON.stringify medium_row))
    ∧ next_of page2 = 0 ∧ readUInt16LE page2 4 = Ok 1
    ∧ readUInt16LE page2 6 = Ok 2518
    ∧ take 2510 (drop 8 page2) = record_of (from (JSON.stringify medium_row)).
Proof.
  eexists _, _, _, _. split; [vm_compute; reflexivity|].
  repeat split; vm_compute; reflexivity.
Qed.

End InsertExamples.

End InsertExecutorFacts.

(** ** The index manager *)

Module IndexManagerFacts.
Import Str QueryParser Buffer Pager TableManager IndexManager InsertExecutor
       IndexSpec InsertExecutorFacts.

Section IndexFacts.
Context `{RT : Runtime} `{CO : !SchemaManager.Coercions}
        `{SR : !JSON.Serializer} `{SE : !StrictEquality} `{AC : !Actions}.

Lemma split_dot_nonempty s : split_dot s <> [].
Proof.
  destruct s as [|c s]; cbn; [discriminate|].
  destruct (Ascii.eqb c "."); [discriminate|].
  destruct (split_dot s); discriminate.
Qed.

Lemma split_dot_no_dot s : no_dot s = true -> split_dot s = [s].
Proof.
  induction s as [|c s IH]; cbn; [reflexivity|].
  destruct (Ascii.eqb c "."); cbn; [discriminate|].
  intros H. now rewrite (IH H).
Qed.

Lemma split_dot_key table rest :
  no_dot table = true ->
  split_dot (table ++ "." ++ rest) = table :: split_dot rest.
Proof.
  induction table as [|c s IH]; intros H; [reflexivity|].
  change (String c s ++ "." ++ rest)%string
    with (String c (s ++ "." ++ rest)%string).
  cbn [split_dot no_dot] in *.
  destruct (Ascii.eqb c "."); [discriminate|].
  now rewrite (IH H).
Qed.

Lemma split_dot_index_key table field :
  no_dot table = true -> no_dot field = true ->
  split_dot (table ++ "." ++ field) = [table; field].
Proof.
  intros Ht Hf. now rewrite split_dot_key, split_dot_no_dot.
Qed.

(** The three uses of [updateIndexes] on the index of a field of the
    table. *)
Lemma update_index_insert table field new i :
  no_dot table = true -> no_dot field = true ->
  update_index table (Some new) None (table ++ "." ++ field) i
  = if hasOwnProperty new field then index_insert (get field new) new i
    else i.
Proof.
  intros Ht Hf. unfold update_index.
  rewrite split_dot_index_key by done. cbn [nth].
  now rewrite String.eqb_refl.
Qed.

Lemma update_index_delete table field old i :
  no_dot table = true -> no_dot field = true ->
  update_index table None (Some old) (table ++ "." ++ field) i
  = if hasOwnProperty old field then index_delete (get field old) i else i.
Proof.
  intros Ht Hf. unfold update_index.
  rewrite split_dot_index_key by done. cbn [nth].
  now rewrite String.eqb_refl.
Qed.

Lemma update_index_update table field new old i :
  no_dot table = true -> no_dot field = true ->
  update_index table (Some new) (Some old) (table ++ "." ++ field) i
  = let changed := negb (strict_equal (get field new) (get field old)) in
    let i1 :=
      if hasOwnProperty old field && changed
      then index_delete (get field old) i else i in
    if hasOwnProperty new field && changed
    then index_insert (get field new) new i1 else i1.
Proof.
  intros Ht Hf. unfold update_index.
  rewrite split_dot_index_key by done. cbn [nth].
  rewrite String.eqb_refl. cbn.
  destruct (hasOwnProperty old field), (hasOwnProperty new field),
    (strict_equal (get field new) (get field old)); reflexivity.
Qed.

Lemma update_index_other table table' field new old i :
  no_dot table' = true -> table' <> table ->
  update_index table new old (table' ++ "." ++ field) i = i.
Proof.
  intros Ht Hne. unfold update_index. rewrite split_dot_key by done.
  cbn [nth]. destruct (String.eqb_spec table' table); [contradiction|].
  reflexivity.
Qed.

Lemma keys_of_app field l1 l2 :
  keys_of field (l1 ++ l2) = keys_of field l1 ++ keys_of field l2.
Proof. unfold keys_of. apply omap_app. Qed.

Lemma hasOwnProperty_get field r :
  hasOwnProperty r field = true ->
  obj_get (data r) field = Some (get field r).
Proof.
  unfold hasOwnProperty, get, Scan.field.
  now destruct (obj_get (data r) field).
Qed.

Lemma hasOwnProperty_none field r :
  hasOwnProperty r field = false -> obj_get (data r) field = None.
Proof.
  unfold hasOwnProperty. now destruct (obj_get (data r) field).
Qed.

Lemma keys_of_cons field r rows :
  keys_of field (r :: rows)
  = (if hasOwnProperty r field then [get field r] else []) ++ keys_of field rows.
Proof.
  unfold keys_of. cbn. destruct (hasOwnProperty r field) eqn:E.
  - now rewrite (hasOwnProperty_get _ _ E).
  - now rewrite (hasOwnProperty_none _ _ E).
Qed.

Lemma map_fst_index_delete k (i : index) :
  map fst (index_delete k i)
  = List.filter (fun k' => negb (strict_equal k' k)) (map fst i).
Proof.
  unfold index_delete. induction i as [|[k' r] i IH]; cbn; [reflexivity|].
  destruct (strict_equal k' k); cbn; now rewrite IH.
Qed.

Lemma filter_Permutation {A} (p : A -> bool) (l l' : list A) :
  l ≡ₚ l' -> List.filter p l ≡ₚ List.filter p l'.
Proof.
  induction 1; cbn.
  - reflexivity.
  - destruct (p x); [constructor|]; assumption.
  - destruct (p x), (p y); try reflexivity; try (now constructor).
  - etransitivity; eassumption.
Qed.

Lemma filter_keys_unique field old others :
  unique_key field old others ->
  List.filter (fun k' => negb (strict_equal k' (get field old)))
    (keys_of field others) = keys_of field others.
Proof.
  unfold unique_key. induction others as [|r others IH]; intros Hu.
  - reflexivity.
  - rewrite keys_of_cons. rewrite List.filter_app. rewrite IH.
    + f_equal. destruct (hasOwnProperty r field) eqn:E; [|reflexivity].
      cbn. rewrite (Hu r (get field r)); [reflexivity|left|].
      now apply hasOwnProperty_get.
    + intros r' k Hin. apply Hu. now right.
Qed.

Lemma keys_of_remove field old l1 l2 :
  unique_key field old (l1 ++ l2) ->
  (hasOwnProperty old field = true ->
   strict_equal (get field old) (get field old) = true) ->
  List.filter (fun k' => negb (strict_equal k' (get field old)))
    (keys_of field (l1 ++ old :: l2)) = keys_of field (l1 ++ l2).
Proof.
  intros Hu Hrefl.
  rewrite !keys_of_app, keys_of_cons, !List.filter_app.
  rewrite !filter_keys_unique.
  - f_equal. destruct (hasOwnProperty old field); [|reflexivity].
    cbn. now rewrite Hrefl.
  - intros r k Hin. apply Hu. apply elem_of_app. now right.
  - intros r k Hin. apply Hu. apply elem_of_app. now left.
Qed.

Lemma reflects_insert field i rows new :
  reflects field i rows ->
  reflects field
    (if hasOwnProperty new field then index_insert (get field new) new i else i)
    (rows ++ [new]).
Proof.
  unfold reflects. intros H. rewrite keys_of_app, keys_of_cons.
  destruct (hasOwnProperty new field); cbn.
  - unfold index_insert. rewrite map_app. cbn. now rewrite H.
  - now rewrite app_nil_r.
Qed.

Lemma reflects_delete field i l1 old l2 :
  reflects field i (l1 ++ old :: l2) ->
  unique_key field old (l1 ++ l2) ->
  (hasOwnProperty old field = true ->
   strict_equal (get field old) (get field old) = true) ->
  reflects field
    (if hasOwnProperty old field then index_delete (get field old) i else i)
    (l1 ++ l2).
Proof.
  unfold reflects. intros H Hu Hrefl.
  destruct (hasOwnProperty old field) eqn:E.
  - rewrite map_fst_index_delete.
    rewrite (filter_Permutation _ _ _ H).
    rewrite keys_of_remove; auto.
  - rewrite H. rewrite !keys_of_app, keys_of_cons, E. reflexivity.
Qed.

Lemma reflects_replace field i l1 new l2 :
  reflects field i (l1 ++ l2) ->
  reflects field
    (if hasOwnProperty new field then index_insert (get field new) new i else i)
    (l1 ++ new :: l2).
Proof.
  unfold reflects. intros H. rewrite !keys_of_app, keys_of_cons.
  rewrite keys_of_app in H.
  destruct (hasOwnProperty new field); cbn.
  - unfold index_insert. rewrite map_app. cbn. rewrite H.
    rewrite <- !Permutation_middle. now rewrite app_nil_r.
  - exact H.
Qed.

(** An entry of the map of indexes is updated in its place. *)
Lemma updateIndexes_entry table new old (ix : indexes) key i :
  (key, i) ∈ ix ->
  (key, update_index table new old key i) ∈ updateIndexes table new old ix.
Proof.
  intros H. unfold updateIndexes.
  apply (list_elem_of_fmap_2
           (fun e => (fst e, update_index table new old (fst e) (snd e)))) in H.
  exact H.
Qed.

Lemma inserted_reflects table field rows : ∀ (ix : indexes) i rows0,
  no_dot table = true -> no_dot field = true ->
  ((table ++ "." ++ field)%string, i) ∈ ix ->
  reflects field i rows0 ->
  ∃ i', ((table ++ "." ++ field)%string, i') ∈ inserted ix table rows
        ∧ reflects field i' (rows0 ++ rows).
Proof.
  induction rows as [|r rows IH]; cbn; intros ix i rows0 Ht Hf Hin Hr.
  - exists i. now rewrite app_nil_r.
  - apply (updateIndexes_entry table (Some r) None) in Hin.
    rewrite update_index_insert in Hin by assumption.
    destruct (IH _ _ (rows0 ++ [r]) Ht Hf Hin (reflects_insert _ _ _ r Hr))
      as (i' & Hin' & Hr').
    exists i'. split; [exact Hin'|]. now rewrite <- app_assoc in Hr'.
Qed.


End IndexFacts.

Section IndexExamples.
Import IntRuntime ExampleRuntime.



End IndexExamples.

End IndexManagerFacts.

(** ** The runs of the worker pool *)

Module ThreadPoolRunsFacts.
Import ThreadPool ThreadPoolRuns.

Lemma sum_list_insert (l : list nat) i x y :
  l !! i = Some x -> sum_list (<[i := y]> l) + x = sum_list l + y.
Proof.
  revert i. induction l as [|a l IH]; intros [|i] H; simpl in *;
    try discriminate.
  - injection H as ->. generalize (sum_list l). intros s. lia.
  - specialize (IH _ H). unfold insert in *.
    revert IH. generalize (sum_list (list_insert i y l)), (sum_list l).
    intros s s' IH. lia.
Qed.

Lemma best_worker_in_range p w :
  workers p !! _getBestWorker p = Some (Some w) ->
  (_getBestWorker p < List.length (workers p))%nat.
Proof. intros H. now apply lookup_lt_Some in H. Qed.

Lemma size_pending_insert (m : gmap nat nat) id w i :
  m !! id = None ->
  size (filter (fun kv : nat * nat => snd kv = i) (<[id := w]> m))
  = (if decide (w = i) then 1 else 0)
    + size (filter (fun kv : nat * nat => snd kv = i) m).
Proof.
  intros Hnone. rewrite map_filter_insert. cbn.
  destruct (decide (w = i)).
  - rewrite map_size_insert_None; [lia|].
    apply map_lookup_filter_None. now left.
  - now rewrite delete_id.
Qed.

Lemma size_pending_delete (m : gmap nat nat) id w i :
  m !! id = Some w ->
  size (filter (fun kv : nat * nat => snd kv = i) (delete id m))
  + (if decide (w = i) then 1 else 0)
  = size (filter (fun kv : nat * nat => snd kv = i) m).
Proof.
  intros Hsome. rewrite map_filter_delete.
  destruct (decide (w = i)).
  - rewrite map_size_delete_Some; [|].
    + assert (size (filter (fun kv : nat * nat => snd kv = i) m) <> 0).
      { intros Hz. apply map_size_empty_iff in Hz.
        assert (H : filter (fun kv : nat * nat => snd kv = i) m !! id = Some w)
          by (apply map_lookup_filter_Some; auto).
        rewrite Hz in H. discriminate. }
      lia.
    + exists w. apply map_lookup_filter_Some. auto.
  - rewrite delete_id; [lia|].
    apply map_lookup_filter_None. right. intros x Hx. cbn. congruence.
Qed.

Lemma run_keeps_inv p : run p -> run_inv p.
Proof.
  induction 1 as [n|p dbPath sql Hrun IH|p id Hrun IH|p id Hrun IH
                 |p index Hrun IH Hidx].
  - (* start *)
    unfold run_inv, start, pending_on. cbn.
    rewrite !length_replicate. repeat split; try lia.
    + rewrite lookup_empty in H. discriminate.
    + rewrite lookup_empty in H. discriminate.
    + intros i load _. rewrite map_filter_empty, map_size_empty. lia.
    + induction n; cbn; auto.
  - (* execute *)
    pose proof IH as (Ha & Hs & Hw & Hp & Hl & Hsum).
    unfold execute. destruct (isReady p); cbn; [|exact IH].
    destruct (workers p !! _getBestWorker p) as [[w|]|] eqn:Hbest; cbn;
      [|exact IH..].
    pose proof (best_worker_in_range _ _ Hbest) as Hrange.
    set (b := _getBestWorker p) in *.
    assert (Hfresh : pendingRequests p !! S (requestIdCounter p) = None).
    { destruct (pendingRequests p !! S (requestIdCounter p)) eqn:E; auto.
      apply Hp in E. lia. }
    destruct (lookup_lt_is_Some_2 (activeTasks p) b) as [load Hload]; [lia|].
    destruct (lookup_lt_is_Some_2 (workerStats p) b) as [st Hst]; [lia|].
    unfold run_inv, pending_on, incr. cbn. rewrite Hload, Hst.
    rewrite !length_insert. repeat split; auto.
    + destruct (decide (id = S (requestIdCounter p))) as [->|Hne].
      * lia.
      * rewrite lookup_insert_ne in H by congruence.
        apply Hp in H. lia.
    + destruct (decide (id = S (requestIdCounter p))) as [->|Hne].
      * rewrite lookup_insert_eq in H. injection H as <-. lia.
      * rewrite lookup_insert_ne in H by congruence.
        now apply Hp in H.
    + intros i l Hi. rewrite size_pending_insert by assumption.
      destruct (decide (b = i)) as [<-|Hne].
      * rewrite list_lookup_insert_eq in Hi by lia. injection Hi as <-.
        specialize (Hl _ _ Hload). unfold pending_on in Hl. lia.
      * rewrite list_lookup_insert_ne in Hi by assumption.
        specialize (Hl _ _ Hi). unfold pending_on in Hl. lia.
    + pose proof (sum_list_insert _ _ _ (S st) Hst). lia.
  - (* reply *)
    pose proof IH as (Ha & Hs & Hw & Hp & Hl & Hsum).
    unfold _handleMessage.
    destruct (pendingRequests p !! id) as [w|] eqn:Hid; [|exact IH].
    pose proof (size_pending_delete _ _ _ w Hid) as Hdel.
    destruct (decide (w = w)); [|congruence].
    assert (Hlen : List.length (decr w (activeTasks p)) = workerCount p).
    { unfold decr. destruct (activeTasks p !! w) as [[|x]|];
        rewrite ?length_insert; assumption. }
    unfold run_inv, pending_on. cbn. repeat split; auto.
    + apply lookup_delete_Some in H as [_ H]. now apply Hp in H.
    + apply lookup_delete_Some in H as [_ H]. now apply Hp in H.
    + intros i l Hi.
      pose proof (size_pending_delete _ _ _ i Hid) as Hdi.
      unfold decr in Hi.
      destruct (activeTasks p !! w) as [[|x]|] eqn:Hw0.
      * specialize (Hl _ _ Hw0). unfold pending_on in Hl. lia.
      * destruct (decide (w = i)) as [<-|Hne].
        -- rewrite list_lookup_insert_eq in Hi
             by (apply lookup_lt_Some in Hw0; assumption).
           injection Hi as <-.
           specialize (Hl _ _ Hw0). unfold pending_on in Hl. lia.
        -- rewrite list_lookup_insert_ne in Hi by assumption.
           specialize (Hl _ _ Hi). unfold pending_on in Hl. lia.
      * destruct (decide (w = i)) as [<-|Hne]; [congruence|].
        specialize (Hl _ _ Hi). unfold pending_on in Hl. lia.
  - (* timer *)
    pose proof IH as (Ha & Hs & Hw & Hp & Hl & Hsum).
    unfold on_timeout.
    destruct (pendingRequests p !! id) as [w|] eqn:Hid; [|exact IH].
    unfold run_inv, pending_on. cbn. repeat split; auto.
    + apply lookup_delete_Some in H as [_ H]. now apply Hp in H.
    + apply lookup_delete_Some in H as [_ H]. now apply Hp in H.
    + intros i l Hi.
      pose proof (size_pending_delete _ _ _ i Hid) as Hdi.
      specialize (Hl _ _ Hi). unfold pending_on in Hl.
      destruct (decide (w = i)); lia.
  - (* exit *)
    pose proof IH as (Ha & Hs & Hw & Hp & Hl & Hsum).
    unfold run_inv, pending_on, on_exit, _cleanupTasks. cbn.
    rewrite !length_insert. repeat split; auto.
    + apply map_lookup_filter_Some in H as [H _]. now apply Hp in H.
    + apply map_lookup_filter_Some in H as [H _]. now apply Hp in H.
    + intros i l Hi.
      destruct (decide (index = i)) as [<-|Hne].
      * rewrite map_filter_filter.
        rewrite map_empty_filter_2.
        -- rewrite map_size_empty. lia.
        -- intros k v _ [? ?]. cbn in *. congruence.
      * rewrite list_lookup_insert_ne in Hi by assumption.
        specialize (Hl _ _ Hi). unfold pending_on in Hl.
        etransitivity; [|exact Hl].
        rewrite map_filter_comm.
        apply map_subseteq_size, map_filter_subseteq.
Qed.

(** X1. In every state of the coordinator, timers and crashes included,
    the load counter of a worker is at least the number of the requests
    that wait for this worker: the least-busy choice never takes a worker
    for less loaded than its pending requests make it. *)
Theorem load_covers_pending p i load :
  run p -> activeTasks p !! i = Some load ->
  (size (pending_on p i) <= load)%nat.
Proof.
  intros Hrun Hload.
  destruct (run_keeps_inv p Hrun) as (_ & _ & _ & _ & Hl & _).
  now apply Hl.
Qed.

Lemma load_covers_pending_witness :
  run one_dispatch ∧ activeTasks one_dispatch !! 0 = Some 1
  ∧ (size (pending_on one_dispatch 0) <= 1)%nat.
Proof.
  assert (Hrun : run one_dispatch) by (apply run_execute, run_start).
  split; [exact Hrun|]. split; [reflexivity|].
  apply (load_covers_pending one_dispatch 0 1 Hrun). reflexivity.
Defined.

(** X2. A dispatch never replaces a request that is still pending: the
    identifier it takes is new, every pending request stays as it is,
    and the new request is recorded for the chosen worker. *)
Theorem dispatch_keeps_pending_requests p dbPath sql i :
  run p -> fst (execute p dbPath sql) = Ok i ->
  let p' := snd (execute p dbPath sql) in
  pendingRequests p !! requestIdCounter p' = None
  ∧ pendingRequests p ⊆ pendingRequests p'
  ∧ pendingRequests p' !! requestIdCounter p' = Some i.
Proof.
  intros Hrun. destruct (run_keeps_inv p Hrun) as (_ & _ & _ & Hp & _ & _).
  unfold execute. destruct (isReady p); cbn; [|discriminate].
  destruct (workers p !! _getBestWorker p) as [[w|]|]; cbn; try discriminate.
  intros [= <-].
  assert (Hfresh : pendingRequests p !! S (requestIdCounter p) = None).
  { destruct (pendingRequests p !! S (requestIdCounter p)) eqn:E; auto.
    apply Hp in E. lia. }
  split; [exact Hfresh|]. split.
  - now apply insert_subseteq.
  - apply lookup_insert_eq.
Qed.

Lemma dispatch_keeps_pending_requests_witness :
  run one_dispatch
  ∧ fst (execute one_dispatch "/data/b.sawit" "SELECT * FROM u") = Ok 1
  ∧ pendingRequests one_dispatch
    ⊆ pendingRequests
        (snd (execute one_dispatch "/data/b.sawit" "SELECT * FROM u")).
Proof.
  assert (Hrun : run one_dispatch) by (apply run_execute, run_start).
  split; [exact Hrun|]. split; [reflexivity|].
  apply (dispatch_keeps_pending_requests one_dispatch "/data/b.sawit"
           "SELECT * FROM u" 1 Hrun eq_refl).
Defined.

(** X3. The counts of queries that [getStats] reports for the workers
    add up to the number of requests dispatched so far, whatever replies,
    timers and crashes came in between. *)
Theorem stats_count_dispatches p :
  run p -> sum_list (workerStats p) = requestIdCounter p.
Proof.
  intros Hrun.
  now destruct (run_keeps_inv p Hrun) as (_ & _ & _ & _ & _ & Hsum).
Qed.

Lemma stats_count_dispatches_witness :
  run one_dispatch ∧ sum_list (workerStats one_dispatch) = 1.
Proof.
  assert (Hrun : run one_dispatch) by (apply run_execute, run_start).
  split; [exact Hrun|]. exact (stats_count_dispatches one_dispatch Hrun).
Defined.

End ThreadPoolRunsFacts.

(** ** The names of databases *)

Module DatabaseRegistryFacts.
Import Str DatabaseRegistry.

Lemma contains_char s c rest :
  contains s (String c rest) = true -> In c (list_ascii_of_string s).
Proof.
  induction s as [|d s IH]; cbn.
  - discriminate.
  - destruct (ascii_dec c d) as [->|Hne]; [auto|].
    cbn. intros H. right. now apply IH.
Qed.

Lemma well_named_chars name :
  well_named name = true ->
  name <> EmptyString ∧ Forall (fun c => name_char c = true)
                          (list_ascii_of_string name).
Proof.
  unfold well_named. destruct name as [|c s]; [discriminate|].
  intros H. split; [discriminate|].
  apply Forall_forall. intros x Hx.
  rewrite forallb_forall in H. apply H. now apply list_elem_of_In.
Qed.

Lemma validateName_valid name :
  validateName (Some name) = Ok true ->
  name <> EmptyString
  ∧ Forall (fun c => name_char c = true) (list_ascii_of_string name).
Proof.
  unfold validateName. destruct name as [|c s]; [discriminate|].
  destruct (well_named (String c s)) eqn:Hw; cbn [negb]; [|discriminate].
  intros _. by apply well_named_chars.
Qed.

(** X4. A name that [validateName] accepts is not empty and is made of
    letters, digits, underscores and hyphens only, so it holds no dot, no
    slash and no backslash; the test for path traversal that follows the
    test of the characters therefore never rejects a name. *)
Theorem validateName_safe name :
  (validateName name = Ok true ->
   ∃ s, name = Some s ∧ s <> EmptyString
        ∧ Forall (fun c => name_char c = true) (list_ascii_of_string s)
        ∧ contains s ".." = false ∧ contains s "/" = false
        ∧ contains s (String (ascii_of_nat 92) EmptyString) = false)
  ∧ validateName name <> Throw name_traversal.
Proof.
  assert (Hfree : ∀ s c rest,
             well_named s = true -> name_char c = false ->
             contains s (String c rest) = false).
  { intros s c rest Hs Hc.
    destruct (contains s (String c rest)) eqn:E; [|reflexivity].
    apply contains_char in E. apply well_named_chars in Hs as [_ Hs].
    rewrite Forall_forall in Hs. apply list_elem_of_In, Hs in E. congruence. }
  unfold validateName.
  destruct name as [[|c s]|]; [split; [discriminate|discriminate]| |
                               split; [discriminate|discriminate]].
  destruct (well_named (String c s)) eqn:Hw; cbn [negb].
  - rewrite (Hfree _ "."%char "." Hw eq_refl).
    rewrite (Hfree _ "/"%char EmptyString Hw eq_refl).
    rewrite (Hfree _ (ascii_of_nat 92) EmptyString Hw eq_refl). cbn.
    split; [|discriminate]. intros _. exists (String c s).
    destruct (well_named_chars _ Hw) as [Hne Hall].
    repeat split; auto.
  - split; discriminate.
Qed.

Lemma validateName_safe_witness :
  validateName (Some "kebun_1") = Ok true
  ∧ contains "kebun_1" ".." = false ∧ contains "kebun_1" "/" = false.
Proof.
  split; [reflexivity|].
  destruct (proj1 (validateName_safe (Some "kebun_1")) eq_refl)
    as (s & [= <-] & _ & _ & Hdots & Hslash & _).
  split; assumption.
Defined.

Lemma endsWith_db_file name : endsWith (db_file name) extension = true.
Proof.
  unfold db_file. induction name as [|c name IH]; [reflexivity|].
  change (String c name ++ extension)%string
    with (String c (name ++ extension)%string).
  cbn [endsWith]. rewrite IH. apply orb_true_r.
Qed.

Lemma replace_first_cons c s :
  c <> "."%char ->
  replace_first extension EmptyString (String c s)
  = String c (replace_first extension EmptyString s).
Proof.
  intros Hc.
  change (replace_first extension EmptyString (String c s))
    with (if startsWith (String c s) extension
          then (EmptyString
                ++ substring_from (String.length extension) (String c s))%string
          else String c (replace_first extension EmptyString s)).
  change (startsWith (String c s) extension)
    with (if ascii_dec "." c then startsWith s "sawit" else false).
  destruct (ascii_dec "." c); [congruence|reflexivity].
Qed.

Lemma replace_first_db_file name :
  Forall (fun c => name_char c = true) (list_ascii_of_string name) ->
  replace_first extension EmptyString (db_file name) = name.
Proof.
  unfold db_file. induction name as [|c name IH]; intros H; [reflexivity|].
  change (String c name ++ extension)%string
    with (String c (name ++ extension)%string).
  cbn [list_ascii_of_string] in H. apply Forall_cons in H as [Hc H].
  rewrite replace_first_cons by (intros ->; discriminate Hc).
  by rewrite (IH H).
Qed.



End DatabaseRegistryFacts.

(** ** The tokenizer *)

Module TokenizeFacts.
Import Str QueryParser Tokens.

Lemma span_all (p : ascii -> bool) w rest :
  forallb p w = true ->
  match rest with [] => True | c :: _ => p c = false end ->
  span p (w ++ rest) = (w, rest).
Proof.
  induction w as [|c w IH]; cbn; intros Hw Hr.
  - destruct rest as [|c r]; [reflexivity|]. cbn. now rewrite Hr.
  - apply andb_true_iff in Hw as [Hc Hw]. rewrite Hc.
    now rewrite (IH Hw Hr).
Qed.

Lemma alpha_not_digit c : is_alpha_ c = true -> is_digit c = false.
Proof.
  destruct c as [[] [] [] [] [] [] [] []]; vm_compute; congruence.
Qed.

Lemma alpha_not_space c : is_alpha_ c = true -> is_space c = false.
Proof.
  destruct c as [[] [] [] [] [] [] [] []]; vm_compute; congruence.
Qed.

Lemma digit_not_space c : is_digit c = true -> is_space c = false.
Proof.
  destruct c as [[] [] [] [] [] [] [] []]; vm_compute; congruence.
Qed.

Lemma space_not_word c : is_space c = true -> is_word c = false.
Proof.
  destruct c as [[] [] [] [] [] [] [] []]; vm_compute; congruence.
Qed.

Lemma space_not_digit c : is_space c = true -> is_digit c = false.
Proof.
  destruct c as [[] [] [] [] [] [] [] []]; vm_compute; congruence.
Qed.

Lemma space_not_dot c : is_space c = true -> Nat.eqb (code c) 46 = false.
Proof.
  destruct c as [[] [] [] [] [] [] [] []]; vm_compute; congruence.
Qed.

Lemma word_start_no_op c b :
  is_alpha_ c || is_digit c = true ->
  includes two_char_ops (String c (String b EmptyString)) = false.
Proof.
  destruct c as [[] [] [] [] [] [] [] []]; vm_compute; try congruence;
    intros _; destruct b as [[] [] [] [] [] [] [] []]; reflexivity.
Qed.

Lemma digit_not_alpha c : is_digit c = true -> is_alpha_ c = false.
Proof.
  destruct c as [[] [] [] [] [] [] [] []]; vm_compute; congruence.
Qed.

Lemma digit_not_at_minus c :
  is_digit c = true ->
  Nat.eqb (code c) 64 = false ∧ Nat.eqb (code c) 45 = false.
Proof.
  destruct c as [[] [] [] [] [] [] [] []]; vm_compute; split; congruence.
Qed.

Lemma lex_word c w rest :
  is_alpha_ c = true -> forallb is_word w = true -> token_end rest ->
  lex_token (c :: w ++ rest) = Some (c :: w, rest).
Proof.
  intros Hc Hw Hr. unfold lex_token, first_of. cbn [foldr].
  assert (Hop : lex_op2 (c :: w ++ rest) = None).
  { unfold lex_op2. destruct (w ++ rest) as [|b r]; [reflexivity|].
    rewrite word_start_no_op; [reflexivity|]. now rewrite Hc. }
  rewrite Hop. unfold lex_ident. rewrite Hc.
  rewrite (span_all is_word w rest Hw).
  - destruct rest as [|d [|e r]]; try reflexivity.
    cbn in Hr. now rewrite (space_not_dot _ Hr).
  - destruct rest as [|d r]; [exact I|]. now apply space_not_word.
Qed.

Lemma lex_digits_token c w rest :
  is_digit c = true -> forallb is_digit w = true -> token_end rest ->
  lex_token (c :: w ++ rest) = Some (c :: w, rest).
Proof.
  intros Hc Hw Hr. unfold lex_token, first_of. cbn [foldr].
  assert (Hop : lex_op2 (c :: w ++ rest) = None).
  { unfold lex_op2. destruct (w ++ rest) as [|b r]; [reflexivity|].
    rewrite word_start_no_op; [reflexivity|]. rewrite Hc. apply orb_true_r. }
  rewrite Hop. unfold lex_ident. rewrite (digit_not_alpha _ Hc).
  unfold lex_param. destruct (digit_not_at_minus _ Hc) as [-> Hminus].
  unfold lex_number. rewrite Hminus. unfold lex_digits.
  change (c :: w ++ rest) with ((c :: w) ++ rest).
  rewrite (span_all is_digit (c :: w) rest).
  - destruct rest as [|d r]; [reflexivity|].
    cbn in Hr. now rewrite (space_not_dot _ Hr).
  - cbn. now rewrite Hc.
  - destruct rest as [|d r]; [exact I|]. now apply space_not_digit.
Qed.

Lemma lex_plain t rest :
  plain_token t = true -> token_end rest ->
  ∃ c w, list_ascii_of_string t = c :: w ∧ is_space c = false
         ∧ lex_token (c :: w ++ rest) = Some (c :: w, rest).
Proof.
  unfold plain_token, is_word_token, is_digits_token.
  destruct t as [|c w]; [discriminate|]. intros H Hr.
  exists c, (list_ascii_of_string w). split; [reflexivity|].
  apply orb_true_iff in H as [H|H]; apply andb_true_iff in H as [Hc Hw].
  - split; [now apply alpha_not_space|]. now apply lex_word.
  - split; [now apply digit_not_space|]. now apply lex_digits_token.
Qed.

Lemma list_ascii_of_string_app s t :
  list_ascii_of_string (s ++ t)
  = list_ascii_of_string s ++ list_ascii_of_string t.
Proof.
  induction s as [|c s IH]; [reflexivity|].
  change (String c s ++ t)%string with (String c (s ++ t)%string).
  cbn. now rewrite IH.
Qed.

Lemma length_chars s :
  List.length (list_ascii_of_string s) = String.length s.
Proof. induction s as [|c s IH]; cbn; congruence. Qed.

Lemma tokenize_loop_space fuel c cs :
  is_space c = true ->
  tokenize_loop (S fuel) (c :: cs) = tokenize_loop (S fuel) cs.
Proof. intros H. cbn. rewrite H. now destruct (span is_space cs). Qed.

Lemma tokenize_loop_joined ts : ∀ fuel,
  Forall (fun t => plain_token t = true) ts ->
  (List.length (list_ascii_of_string (join_space ts)) < fuel)%nat ->
  tokenize_loop fuel (list_ascii_of_string (join_space ts)) = ts.
Proof.
  induction ts as [|t ts IH]; intros fuel Hall Hfuel.
  - destruct fuel; reflexivity.
  - inversion Hall as [|? ? Ht Hts]; subst.
    destruct fuel as [|fuel]; [lia|].
    destruct ts as [|t' ts].
    + cbn [join_space] in *.
      destruct (lex_plain t [] Ht I) as (c & w & Hcs & Hsp & Hlex).
      rewrite Hcs. rewrite app_nil_r in Hlex.
      cbn [tokenize_loop span]. rewrite Hsp. cbn [snd]. rewrite Hlex.
      rewrite <- Hcs, string_of_list_ascii_of_string.
      f_equal. destruct fuel; reflexivity.
    + assert (Hjoin : list_ascii_of_string (join_space (t :: t' :: ts))
                      = list_ascii_of_string t
                        ++ " "%char :: list_ascii_of_string (join_space (t' :: ts))).
      { change (join_space (t :: t' :: ts))
          with (t ++ " " ++ join_space (t' :: ts))%string.
        now rewrite list_ascii_of_string_app. }
      rewrite Hjoin in *.
      destruct (lex_plain t (" "%char :: list_ascii_of_string
                                           (join_space (t' :: ts))) Ht eq_refl)
        as (c & w & Hcs & Hsp & Hlex).
      rewrite Hcs in *. cbn [app] in *.
      cbn [tokenize_loop span]. rewrite Hsp. cbn [snd]. rewrite Hlex.
      rewrite <- Hcs, string_of_list_ascii_of_string. f_equal.
      cbn [List.length] in Hfuel. rewrite length_app in Hfuel.
      cbn [List.length] in Hfuel.
      destruct fuel as [|fuel]; [lia|].
      rewrite tokenize_loop_space by reflexivity.
      apply IH; [assumption|]. lia.
Qed.

(** X5. A text made of words and unsigned numbers separated by single
    spaces is cut back into exactly these tokens. *)
Theorem tokenize_joined_tokens ts :
  Forall (fun t => plain_token t = true) ts ->
  tokenize (join_space ts) = ts.
Proof.
  intros Hall. unfold tokenize. apply tokenize_loop_joined; [assumption|].
  rewrite length_chars. lia.
Qed.

Lemma tokenize_joined_tokens_witness :
  Forall (fun t => plain_token t = true) ["LIHAT"; "INDEKS"; "t_1"; "42"]
  ∧ tokenize "LIHAT INDEKS t_1 42" = ["LIHAT"; "INDEKS"; "t_1"; "42"].
Proof.
  assert (H : Forall (fun t => plain_token t = true)
                ["LIHAT"; "INDEKS"; "t_1"; "42"])
    by (repeat constructor).
  split; [exact H|].
  exact (tokenize_joined_tokens ["LIHAT"; "INDEKS"; "t_1"; "42"] H).
Defined.

Lemma lex_digits_nonempty cs t r : lex_digits cs = Some (t, r) -> t <> [].
Proof.
  unfold lex_digits. destruct (span is_digit cs) as [[|d ds] rest];
    [discriminate|].
  destruct rest as [|dot rest1]; [intros [= <- _]; discriminate|].
  destruct (Nat.eqb (code dot) 46); [|intros [= <- _]; discriminate].
  destruct (span is_digit rest1) as [[|f fs] rest2];
    intros [= <- _]; discriminate.
Qed.

Lemma lex_token_nonempty cs t r : lex_token cs = Some (t, r) -> t <> [].
Proof.
  unfold lex_token, first_of. cbn [foldr].
  destruct (lex_op2 cs) as [[t1 r1]|] eqn:E1.
  { intros [= <- _]. unfold lex_op2 in E1.
    destruct cs as [|a [|b rest]]; try discriminate.
    destruct (includes _ _); [|discriminate]. now injection E1 as <- _. }
  destruct (lex_ident cs) as [[t2 r2]|] eqn:E2.
  { intros [= <- _]. unfold lex_ident in E2.
    destruct cs as [|c rest]; [discriminate|].
    destruct (is_alpha_ c); [|discriminate].
    destruct (span is_word rest) as [w rest1].
    destruct rest1 as [|dot [|d rest2]]; try (injection E2 as <- _; discriminate).
    destruct (_ && _); [destruct (span is_word rest2)|];
      injection E2 as <- _; discriminate. }
  destruct (lex_param cs) as [[t3 r3]|] eqn:E3.
  { intros [= <- _]. unfold lex_param in E3.
    destruct cs as [|c rest]; [discriminate|].
    destruct (Nat.eqb (code c) 64); [|discriminate].
    destruct (span is_word rest) as [[|x w] rest1]; [discriminate|].
    injection E3 as <- _. discriminate. }
  destruct (lex_number cs) as [[t4 r4]|] eqn:E4.
  { intros [= <- _]. unfold lex_number in E4.
    destruct cs as [|c rest]; [discriminate|].
    destruct (Nat.eqb (code c) 45).
    - destruct (lex_digits rest) as [[t' r']|]; [|discriminate].
      injection E4 as <- _. discriminate.
    - now apply lex_digits_nonempty in E4. }
  destruct (lex_quoted cs) as [[t5 r5]|] eqn:E5.
  { intros [= <- _]. unfold lex_quoted in E5.
    destruct cs as [|q rest]; [discriminate|].
    destruct (quote_char q); [|discriminate].
    destruct (lex_quoted_body q rest) as [[t' r']|]; [|discriminate].
    injection E5 as <- _. discriminate. }
  destruct (lex_punct cs) as [[t6 r6]|] eqn:E6; [|discriminate].
  intros [= <- _]. unfold lex_punct in E6.
  destruct cs as [|c rest]; [discriminate|].
  destruct (existsb _ _); [|discriminate]. now injection E6 as <- _.
Qed.

Lemma tokenize_loop_nonempty fuel : ∀ cs,
  Forall (fun t => t <> EmptyString) (tokenize_loop fuel cs).
Proof.
  induction fuel as [|fuel IH]; intros cs; cbn [tokenize_loop];
    [constructor|].
  destruct (snd (span is_space cs)) as [|c rest]; [constructor|].
  destruct (lex_token (c :: rest)) as [[t r]|] eqn:E; [|apply IH].
  constructor; [|apply IH].
  apply lex_token_nonempty in E. destruct t; [contradiction|discriminate].
Qed.

(** X6. No token is the empty string, whatever the text: the tests of
    the parser on the truth of a token only fail on a missing token. *)
Theorem tokenize_no_empty_token sql :
  Forall (fun t => t <> EmptyString) (tokenize sql).
Proof. apply tokenize_loop_nonempty. Qed.

End TokenizeFacts.

(** ** The parser returns *)

Module ParseReturns.
Import Str QueryParser ParserRuns.

Section Returns.
Context `{RT : Runtime}.

Lemma returns_some {A} (r : res A) : returns (Some r).
Proof. now exists r. Qed.

Lemma returns_bind {A B} (c : comp A) (k : A -> comp B) :
  returns c -> (∀ a, returns (k a)) -> returns (comp_bind c k).
Proof.
  intros [[a|m] ->] Hk; cbn; [apply Hk|apply returns_some].
Qed.

Ltac returning :=
  repeat first
    [ apply returns_some
    | apply returns_bind; [|intros ?]
    | match goal with
      | |- returns (if ?b then _ else _) => destruct b
      | |- returns (let (_, _) := ?p in _) => destruct p
      | |- returns (match ?p with (_, _) => _ end) => destruct p
      end ].

Lemma update_loop_returns fuel : ∀ tokens i updates,
  (List.length tokens - i < fuel)%nat ->
  returns (update_loop fuel tokens i updates).
Proof.
  induction fuel as [|fuel IH]; intros tokens i updates Hf; [lia|].
  cbn [update_loop].
  destruct (tokens !! i) as [key|] eqn:Hi; [|apply returns_some].
  apply lookup_lt_Some in Hi.
  destruct (includes _ _); [apply returns_some|].
  destruct (String.eqb key ","); [apply IH; lia|].
  destruct (negb _); [apply returns_some|].
  destruct (literal_present _); [apply IH; lia|apply returns_some].
Qed.

Lemma skip_outer_join_ge tokens i : (i <= skip_outer_join tokens i)%nat.
Proof.
  unfold skip_outer_join.
  destruct (tok_is tokens i ["OUTER"]);
    match goal with |- context [tok_is ?t ?j join_words] =>
      destruct (tok_is t j join_words) end; lia.
Qed.

Lemma join_keyword_progress tokens i token :
  match join_keyword tokens i token with
  | JoinAgain i' => (i < i')%nat
  | JoinBreak _ => True
  | JoinOf _ j => (i < j)%nat
  end.
Proof.
  unfold join_keyword.
  pose proof (skip_outer_join_ge tokens (S i)).
  repeat match goal with
         | |- context [if ?b then _ else _] => destruct b
         end; try exact I; lia.
Qed.

Lemma joins_loop_returns fuel : ∀ tokens i joins,
  (List.length tokens - i < fuel)%nat ->
  returns (joins_loop fuel tokens i joins).
Proof.
  induction fuel as [|fuel IH]; intros tokens i joins Hf; [lia|].
  cbn [joins_loop].
  destruct (tokens !! i) as [t|] eqn:Hi; [|apply returns_some].
  apply lookup_lt_Some in Hi.
  pose proof (join_keyword_progress tokens i (toUpperCase t)) as Hp.
  destruct (join_keyword tokens i (toUpperCase t)) as [i'|i'|joinType j].
  - apply IH. lia.
  - apply returns_some.
  - destruct (String.eqb joinType "CROSS"); [apply IH; lia|].
    destruct (negb _); [apply returns_some|apply IH; lia].
Qed.

Lemma parseSelect_returns fuel tokens :
  (List.length tokens < fuel)%nat -> returns (parseSelect fuel tokens).
Proof.
  intros Hf. unfold parseSelect.
  destruct (select_cols _ _ _) as [cols i1].
  apply returns_bind; [apply returns_some|intros _].
  apply returns_bind; [apply joins_loop_returns; lia|intros [joins i2]].
  returning.
Qed.

Lemma parseUpdate_returns fuel tokens :
  (List.length tokens < fuel)%nat -> returns (parseUpdate fuel tokens).
Proof.
  intros Hf. unfold parseUpdate.
  apply returns_bind; [apply returns_some|intros t0].
  apply returns_bind; [apply returns_some|intros _].
  apply returns_bind; [apply update_loop_returns; lia|intros [updates i]].
  returning.
Qed.

Lemma parseExplain_returns fuel tokens :
  (List.length tokens < fuel)%nat -> returns (parseExplain fuel tokens).
Proof.
  intros Hf. unfold parseExplain.
  destruct (drop 1 tokens) as [|t inner] eqn:Hd; [apply returns_some|].
  assert (Hlen : (List.length (t :: inner) < fuel)%nat).
  { rewrite <- Hd, length_drop. lia. }
  apply returns_bind; [|intros ?; apply returns_some].
  destruct (includes ["PANEN"; "SELECT"] _);
    [now apply parseSelect_returns|].
  destruct (includes ["GUSUR"; "DELETE"] _); [apply returns_some|].
  destruct (includes ["PUPUK"; "UPDATE"] _);
    [now apply parseUpdate_returns|].
  destruct (String.eqb _ _); apply returns_some.
Qed.

Lemma parseCreateViewOrTrigger_returns fuel tokens :
  (List.length tokens < fuel)%nat ->
  returns (parseCreateViewOrTrigger fuel tokens).
Proof.
  intros Hf. unfold parseCreateViewOrTrigger.
  apply returns_bind; [apply returns_some|intros t1].
  destruct (String.eqb t1 "TEROPONG");
    [|destruct (String.eqb t1 "KENTONGAN"); apply returns_some].
  unfold parseCreateView.
  do 7 (apply returns_bind; [apply returns_some|intros ?]).
  apply returns_bind; [|intros ?; apply returns_some].
  apply parseSelect_returns. rewrite length_drop. lia.
Qed.

Lemma dispatch_returns fuel tokens cmd :
  (List.length tokens < fuel)%nat ->
  cmd <> "SERTIFIKASI" -> cmd <> "SIMPAN" ->
  returns (dispatch fuel tokens cmd).
Proof.
  intros Hf Hschema Hproc. unfold dispatch.
  destruct (String.eqb_spec cmd "SERTIFIKASI"); [contradiction|].
  destruct (String.eqb_spec cmd "SIMPAN"); [contradiction|].
  repeat match goal with
         | |- returns (if ?b then _ else _) => destruct b
         end;
    try (apply returns_some);
    auto using parseSelect_returns, parseUpdate_returns, parseExplain_returns,
      parseCreateViewOrTrigger_returns.
Qed.

(** X7. The parser returns a command on every statement that does not
    begin with the keyword of a schema definition or of a stored
    procedure, well formed or not: its loops over the tokens all move
    forward. *)
Theorem parse_returns fuel queryString params :
  (List.length (tokenize queryString) < fuel)%nat ->
  (∀ t0, head (tokenize queryString) = Some t0 ->
         toUpperCase t0 <> "SERTIFIKASI" ∧ toUpperCase t0 <> "SIMPAN") ->
  ∃ cmd, parse fuel queryString params = Some cmd.
Proof.
  intros Hf Hkey. unfold parse, parse_tokens.
  destruct (tokenize queryString) as [|t0 rest]; [eexists; reflexivity|].
  destruct (Hkey t0 eq_refl) as [Hs Hp].
  destruct (dispatch_returns fuel (t0 :: rest) (toUpperCase t0) Hf Hs Hp)
    as [[cmd|m] ->]; cbn [comp_bind].
  - destruct params as [ps|]; [destruct (_bindParameters cmd ps)|];
      eexists; reflexivity.
  - eexists; reflexivity.
Qed.

End Returns.

Section ReturnsExamples.
Import IntRuntime.

Lemma parse_returns_witness :
  (List.length (tokenize "UPDATE t SET a = 1, b = 'x' WHERE c > 2") < 20)%nat
  ∧ ∃ cmd, parse 20 "UPDATE t SET a = 1, b = 'x' WHERE c > 2" None = Some cmd.
Proof.
  assert (H : (List.length (tokenize "UPDATE t SET a = 1, b = 'x' WHERE c > 2")
               < 20)%nat) by (vm_compute; lia).
  split; [exact H|].
  apply (parse_returns 20 "UPDATE t SET a = 1, b = 'x' WHERE c > 2" None H).
  intros t0 Ht. vm_compute in Ht. injection Ht as <-.
  split; vm_compute; discriminate.
Defined.

End ReturnsExamples.

End ParseReturns.

(** ** The parser of INSERT *)

Module ParseInsertFacts.
Import Str QueryParser InsertTokens.

Section InsertFacts2.
Context `{RT : Runtime}.

Lemma list_item_spec t : list_item t = true -> String.eqb t "," = false ∧ String.eqb t ")" = false.
Proof.
  unfold list_item. intros H. apply andb_true_iff in H as [H1 H2].
  now rewrite negb_true_iff in H1, H2.
Qed.

Lemma insert_cols_commas cols : ∀ rest i acc,
  forallb list_item cols = true ->
  insert_cols (commas cols ++ ")" :: rest) i acc
  = Ok ((acc ++ cols)%list, i + List.length (commas cols)).
Proof.
  induction cols as [|c cols IH]; intros rest i acc Hall.
  - cbn. rewrite app_nil_r. f_equal. f_equal. lia.
  - cbn [forallb] in Hall. apply andb_true_iff in Hall as [Hc Hall].
    destruct (list_item_spec _ Hc) as [Hcomma Hparen].
    destruct cols as [|c' cols].
    + cbn. rewrite Hparen, Hcomma. cbn. f_equal. f_equal. lia.
    + specialize (IH rest (S (S i)) (acc ++ [c])%list Hall).
      change (commas (c :: c' :: cols)) with (c :: "," :: commas (c' :: cols)).
      cbn [app insert_cols]. rewrite Hparen, Hcomma.
      cbn [String.eqb Ascii.eqb Bool.eqb].
      change (String.eqb "," ")") with false.
      change (String.eqb "," ",") with true. cbn iota.
      destruct (commas (c' :: cols) ++ ")" :: rest) eqn:E.
      { destruct (commas (c' :: cols)); discriminate. }
      rewrite IH. rewrite <- app_assoc. cbn [List.length app].
      f_equal. f_equal. lia.
Qed.

Lemma insert_vals_commas vals : ∀ acc,
  forallb list_item vals = true ->
  insert_vals (commas vals ++ [")"]) acc
  = Ok (acc ++ map insert_literal vals)%list.
Proof.
  induction vals as [|v vals IH]; intros acc Hall.
  - cbn. now rewrite app_nil_r.
  - cbn [forallb] in Hall. apply andb_true_iff in Hall as [Hv Hall].
    destruct (list_item_spec _ Hv) as [Hcomma Hparen].
    destruct vals as [|v' vals].
    + cbn. rewrite Hparen, Hcomma. reflexivity.
    + change (commas (v :: v' :: vals)) with (v :: "," :: commas (v' :: vals)).
      cbn [app insert_vals]. rewrite Hparen, Hcomma.
      change (String.eqb "," ")") with false.
      change (String.eqb "," ",") with true. cbn iota.
      rewrite IH by assumption. cbn [map]. now rewrite <- app_assoc.
Qed.

Lemma obj_set_fresh {A} (o : object A) k (v : A) :
  obj_get o k = None -> obj_set o k v = (o ++ [(k, v)])%list.
Proof.
  induction o as [|[k' v'] o IH]; cbn; [reflexivity|].
  destruct (String.eqb k k'); [discriminate|]. intros H. now rewrite IH.
Qed.

Lemma obj_get_app_None {A} (o o' : object A) k :
  obj_get o k = None -> obj_get (o ++ o') k = obj_get o' k.
Proof.
  induction o as [|[k' v'] o IH]; cbn; [reflexivity|].
  destruct (String.eqb k k'); [discriminate|]. exact IH.
Qed.

Lemma zip_object_combine cols : ∀ (vals : list value) data,
  NoDup cols -> (∀ c, c ∈ cols -> obj_get data c = None) ->
  List.length cols = List.length vals ->
  zip_object cols vals data = (data ++ combine cols vals)%list.
Proof.
  induction cols as [|c cols IH]; intros [|v vals] data Hnd Hfresh Hlen;
    try discriminate; cbn.
  - now rewrite app_nil_r.
  - apply NoDup_cons in Hnd as [Hc Hnd].
    rewrite obj_set_fresh by (apply Hfresh; left).
    rewrite IH; auto.
    + now rewrite <- app_assoc.
    + intros c' Hc'. rewrite obj_get_app_None by (apply Hfresh; now right).
      cbn. destruct (String.eqb_spec c' c); [subst; contradiction|reflexivity].
Qed.

Lemma parseInsert_tokens insert into table values cols vals :
  insert_keywords insert into values = true ->
  forallb list_item cols = true -> forallb list_item vals = true ->
  NoDup cols -> List.length cols = List.length vals ->
  parseInsert (insert_tokens insert into table values cols vals)
  = Ok (INSERT (Some table) (combine cols (map insert_literal vals))).
Proof.
  intros Hkw Hcols Hvals Hnd Hlen.
  unfold insert_keywords in Hkw.
  apply andb_true_iff in Hkw as [Hkw Hvalues].
  set (n := List.length (commas cols)).
  set (T := insert_tokens insert into table values cols vals).
  assert (H0 : T !! 0 = Some insert) by reflexivity.
  assert (H1 : T !! 1 = Some into) by reflexivity.
  assert (H2 : T !! 2 = Some table) by reflexivity.
  assert (H3 : T !! 3 = Some "(") by reflexivity.
  assert (Hd4 : drop 4 T
                = commas cols ++ ")" :: values :: "(" :: commas vals ++ [")"])
    by reflexivity.
  assert (Hat : ∀ k, T !! (4 + n + k)
                     = ([")"; values; "("] ++ commas vals ++ [")"]) !! k).
  { intros k. unfold T, insert_tokens.
    rewrite lookup_app_r by (cbn [List.length]; lia).
    rewrite lookup_app_r by (cbn [List.length]; fold n; lia).
    f_equal. cbn [List.length]. fold n. lia. }
  assert (Hv : T !! S (4 + n) = Some values).
  { replace (S (4 + n)) with (4 + n + 1) by lia. now rewrite Hat. }
  assert (Hp : T !! S (S (4 + n)) = Some "(").
  { replace (S (S (4 + n))) with (4 + n + 2) by lia. now rewrite Hat. }
  assert (Hdrop : drop (S (S (S (4 + n)))) T = commas vals ++ [")"]).
  { unfold T, insert_tokens.
    replace (S (S (S (4 + n)))) with (4 + (n + 3)) by lia.
    rewrite (drop_app_add' [insert; into; table; "("]) by reflexivity.
    rewrite (drop_app_add' (commas cols)) by reflexivity.
    reflexivity. }
  clearbody T.
  assert (Hhead :
    (if String.eqb (toUpperCase insert) "INSERT"
     then throw_if (negb (String.eqb (toUpperCase into) "INTO"))
            "Syntax: INSERT INTO [table] ..."
     else throw_if (negb (String.eqb (toUpperCase into) "KE"))
            "Syntax: TANAM KE [kebun] ...") = Ok tt).
  { apply orb_true_iff in Hkw as [H|H]; apply andb_true_iff in H as [Ha Hb].
    - now rewrite Ha, Hb.
    - rewrite Hb. apply String.eqb_eq in Ha. now rewrite Ha. }
  unfold parseInsert, upper_at, tok_eq.
  rewrite H0, H1, H2, H3, Hd4. cbn [res_bind]. rewrite Hhead.
  cbn [res_bind]. rewrite String.eqb_refl. cbn [negb throw_if res_bind].
  rewrite insert_cols_commas by assumption. cbn [res_bind app]. fold n.
  rewrite Hv. cbn [res_bind]. rewrite Hvalues. cbn [negb throw_if res_bind].
  rewrite Hp, String.eqb_refl. cbn [negb throw_if res_bind].
  rewrite Hdrop, insert_vals_commas by assumption. cbn [app res_bind].
  rewrite length_map, Hlen, Nat.eqb_refl. cbn [negb throw_if res_bind].
  rewrite zip_object_combine;
    [reflexivity | assumption | reflexivity | now rewrite length_map].
Qed.


End InsertFacts2.

Section InsertExamples2.
Import IntRuntime.


End InsertExamples2.

End ParseInsertFacts.

(** ** The statement cache of the engine *)

Module EngineCacheFacts.
Import Str QueryParser Engine SchemaManagerFacts ParserRuns ParseReturns.

Section CacheFacts.
Context `{RT : Runtime} `{ST : Stores} `{SV : !Services}.

Lemma returning_frame d c :
  queryCache (returning d c).2 = queryCache d
  ∧ queryString_ (returning d c).2 = queryString_ d
  ∧ pager (returning d c).2 = pager d.
Proof. unfold returning. by destruct (perform c (storage d)). Qed.

Lemma write_frame d kind cmd c :
  queryCache (write d kind cmd c).2 = queryCache d
  ∧ queryString_ (write d kind cmd c).2 = queryString_ d
  ∧ pager (write d kind cmd c).2 = pager d.
Proof.
  unfold write. destruct (isActive (transactionManager d)).
  - done.
  - apply returning_frame.
Qed.

(** The switch of [query] leaves the cache, the text of the statement and
    the pager as they are. *)
Lemma execute_command_frame d cmd :
  queryCache (execute_command d cmd).2 = queryCache d
  ∧ queryString_ (execute_command d cmd).2 = queryString_ d
  ∧ pager (execute_command d cmd).2 = pager d.
Proof.
  destruct cmd; cbn [execute_command];
    try apply returning_frame; try apply write_frame; try done;
    try (match goal with
         | |- context [match ?x with _ => _ end] => destruct x
         end; apply returning_frame);
    repeat case_match; done.
Qed.

Lemma try_execute_frame d cmd :
  queryCache (try_execute d cmd).2 = queryCache d
  ∧ queryString_ (try_execute d cmd).2 = queryString_ d
  ∧ pager (try_execute d cmd).2 = pager d.
Proof.
  unfold try_execute. pose proof (execute_command_frame d cmd) as H.
  by destruct (execute_command d cmd) as [[] ?].
Qed.

Lemma try_execute_ok d cmd : ∃ o, (try_execute d cmd).1 = Ok o.
Proof.
  unfold try_execute. destruct (execute_command d cmd) as [[o|m] d']; eauto.
Qed.

(** What the first half of [query] gives without parameters. *)
Lemma resolve_without_parameters fuel d queryString r :
  resolve fuel d queryString None = Some r ->
  (∃ cached, obj_get (queryCache d) queryString = Some cached
     ∧ r = Run cached
             (with_cache d queryString
                (cache_delete (queryCache d) queryString
                 ++ [(queryString, cached)])))
  ∨ (obj_get (queryCache d) queryString = None
     ∧ ((∃ message, parse fuel queryString None = Some (ERROR message)
           ∧ r = Return (Ok (Message ("Error: " ++ message)))
                   (with_cache d queryString (queryCache d)))
        ∨ (∃ templateCmd, parse fuel queryString None = Some templateCmd
             ∧ r = Run templateCmd
                     (with_cache d queryString
                        (evict (obj_set (queryCache d) queryString
                                  templateCmd)))))).
Proof.
  unfold resolve. destruct (obj_get (queryCache d) queryString) as [cached|].
  - intros [= <-]. left. eauto.
  - intros H. right. split; [reflexivity|].
    destruct (parse fuel queryString None) as [cmd|]; [|discriminate].
    destruct cmd; injection H as <-; eauto.
Qed.

(** What the first half of [query] gives with parameters. *)
Lemma resolve_with_parameters fuel d queryString ps r :
  resolve fuel d queryString (Some ps) = Some r ->
  (∃ o, r = Return o (with_cache d queryString (queryCache d)))
  ∨ (∃ cmd, r = Run cmd (with_cache d queryString (queryCache d))).
Proof.
  unfold resolve. intros H.
  assert (Hp : match parse fuel queryString None with
               | None => None
               | Some (ERROR message) =>
                   Some (Return (Ok (Message ("Error: " ++ message)))
                           (with_cache d queryString (queryCache d)))
               | Some templateCmd =>
                   match _bindParameters templateCmd ps with
                   | Throw m =>
                       Some (Return (Throw m)
                               (with_cache d queryString (queryCache d)))
                   | Ok cmd =>
                       Some (Run cmd (with_cache d queryString (queryCache d)))
                   end
               end = Some r).
  { by destruct (obj_get (queryCache d) queryString). }
  clear H. destruct (parse fuel queryString None) as [cmd|]; [|discriminate].
  destruct cmd;
    try (injection Hp as <-; left; eexists; reflexivity);
    match type of Hp with
    | context [_bindParameters ?c ps] =>
        destruct (_bindParameters c ps);
        injection Hp as <-; eauto
    end.
Qed.

(** *** The keys of the cache *)

Lemma obj_set_absent {A} (o : object A) k (v : A) :
  obj_get o k = None -> obj_set o k v = o ++ [(k, v)].
Proof.
  induction o as [|[k' v'] o IH]; cbn; [reflexivity|].
  destruct (String.eqb k k'); [discriminate|]. intros H. by rewrite IH.
Qed.

Lemma cache_delete_last (cache : list (string * command)) key cmd :
  key ∉ cache.*1 -> cache_delete (cache ++ [(key, cmd)]) key = cache.
Proof.
  induction cache as [|[k c] cache IH]; cbn; intros Hk.
  - by rewrite String.eqb_refl.
  - apply not_elem_of_cons in Hk as [Hne Hk].
    destruct (String.eqb_spec k key); [congruence|]. by rewrite IH.
Qed.

Lemma obj_get_last {A} (o : object A) key (v : A) :
  key ∉ o.*1 -> obj_get (o ++ [(key, v)]) key = Some v.
Proof.
  induction o as [|[k c] o IH]; cbn; intros Hk.
  - by rewrite String.eqb_refl.
  - apply not_elem_of_cons in Hk as [Hne Hk].
    destruct (String.eqb_spec key k); [congruence|]. by apply IH.
Qed.

Lemma cache_delete_keys (cache : list (string * command)) key cached :
  obj_get cache key = Some cached ->
  (cache.*1) ≡ₚ (key :: (cache_delete cache key).*1).
Proof.
  induction cache as [|[k c] cache IH]; cbn; [discriminate|].
  rewrite (String.eqb_sym k key).
  destruct (String.eqb_spec key k) as [->|Hne]; [reflexivity|].
  intros H. cbn. rewrite (IH H). apply (Permutation_swap key k).
Qed.

Lemma lookup_keeps_keys_apart (cache : list (string * command)) key cached :
  NoDup cache.*1 -> obj_get cache key = Some cached ->
  NoDup (cache_delete cache key).*1
  ∧ (key ∉ (cache_delete cache key).*1)
  ∧ S (List.length (cache_delete cache key)) = List.length cache.
Proof.
  intros Hnd Hget. pose proof (cache_delete_keys _ _ _ Hget) as Hp.
  rewrite Hp in Hnd. apply NoDup_cons in Hnd as [Hk Hnd].
  split; [assumption|]. split; [assumption|].
  apply Permutation_length in Hp. cbn in Hp.
  rewrite !length_fmap in Hp. by symmetry.
Qed.

Lemma evict_snoc (cache : list (string * command)) e :
  evict (cache ++ [e])
  = drop (S (List.length cache) - queryCacheLimit) cache ++ [e].
Proof.
  unfold evict. rewrite length_app. cbn [List.length].
  replace (List.length cache + 1) with (S (List.length cache)) by lia.
  rewrite drop_app_le; [reflexivity|]. unfold queryCacheLimit. lia.
Qed.

Lemma NoDup_drop_keys (cache : list (string * command)) n :
  NoDup cache.*1 -> NoDup (drop n cache).*1.
Proof.
  intros H. rewrite fmap_drop.
  pose proof (sublist_drop (cache.*1) n) as Hs. eauto using sublist_NoDup.
Qed.

Lemma not_elem_of_drop_keys (cache : list (string * command)) n key :
  key ∉ cache.*1 -> key ∉ (drop n cache).*1.
Proof.
  intros H Hin. apply H. rewrite fmap_drop in Hin.
  by apply (subseteq_drop n (cache.*1)).
Qed.

(** The cache after the first half of [query] that hands over a command:
    the statement is its last entry, under a key that no other entry
    has. *)
Lemma resolve_cache fuel d queryString cmd d1 :
  NoDup (queryCache d).*1 ->
  resolve fuel d queryString None = Some (Run cmd d1) ->
  ∃ cache, queryCache d1 = cache ++ [(queryString, cmd)]
    ∧ (queryString ∉ cache.*1) ∧ NoDup cache.*1
    ∧ queryString_ d1 = queryString
    ∧ List.length cache < Nat.max (List.length (queryCache d)) queryCacheLimit.
Proof.
  intros Hnd H.
  apply resolve_without_parameters in H
    as [(cached & Hget & [= -> ->])|(Hget & [(m & _ & [=])|(t & _ & [= -> ->])])].
  - destruct (lookup_keeps_keys_apart _ _ _ Hnd Hget) as (Hn & Hk & Hl).
    exists (cache_delete (queryCache d) queryString).
    repeat split; try assumption. lia.
  - rewrite (obj_set_absent _ _ _ Hget), evict_snoc.
    eexists. split; [reflexivity|]. split; [|split; [|split]].
    + by apply not_elem_of_drop_keys, obj_get_None.
    + by apply NoDup_drop_keys.
    + reflexivity.
    + rewrite length_drop. unfold queryCacheLimit. lia.
Qed.

(** X9. A call of [query] without parameters raises no exception: it
    returns a value, which is a text for a statement that does not parse
    and for a statement whose execution fails. *)
Theorem query_without_parameters_never_raises (fuel : nat) (d d' : db)
    (queryString : string) (r : res output) :
  query fuel d queryString None = Some (r, d') -> ∃ o, r = Ok o.
Proof.
  unfold query. destruct (negb (pager d)).
  - intros [= <- _]. eauto.
  - destruct (resolve fuel d queryString None) as [res|] eqn:E; [|discriminate].
    apply resolve_without_parameters in E
      as [(cached & _ & ->)|(_ & [(m & _ & ->)|(t & _ & ->)])].
    + intros [= H]. destruct (try_execute_ok
        (with_cache d queryString
           (cache_delete (queryCache d) queryString ++ [(queryString, cached)]))
        cached) as [o Ho].
      rewrite H in Ho. cbn in Ho. eauto.
    + intros [= <- _]. eauto.
    + intros [= H]. destruct (try_execute_ok
        (with_cache d queryString
           (evict (obj_set (queryCache d) queryString t))) t) as [o Ho].
      rewrite H in Ho. cbn in Ho. eauto.
Qed.

(** X10. The cache of parsed statements stays a map of at most
    [queryCacheLimit] entries: whatever statement [query] is given, with
    or without parameters, the keys of the cache stay distinct and their
    number stays within the limit. *)
Theorem query_keeps_cache_bounded (fuel : nat) (d d' : db)
    (queryString : string) (params : option (object value))
    (r : res output) :
  NoDup (queryCache d).*1 ->
  List.length (queryCache d) <= queryCacheLimit ->
  query fuel d queryString params = Some (r, d') ->
  NoDup (queryCache d').*1 ∧ List.length (queryCache d') <= queryCacheLimit.
Proof.
  intros Hnd Hlen. unfold query. destruct (negb (pager d)).
  { by intros [= _ <-]. }
  destruct (resolve fuel d queryString params) as [res|] eqn:E; [|discriminate].
  assert (Hres : match res with
                 | Return _ d1 | Run _ d1 =>
                     NoDup (queryCache d1).*1
                     ∧ List.length (queryCache d1) <= queryCacheLimit
                 end).
  { destruct params as [ps|].
    - apply resolve_with_parameters in E as [[o ->]|[cmd ->]]; by cbn.
    - destruct res as [o d1|cmd d1].
      + apply resolve_without_parameters in E
          as [(cached & _ & [=])|(_ & [(m & _ & [= _ ->])|(t & _ & [=])])].
        by cbn.
      + destruct (resolve_cache _ _ _ _ _ Hnd E) as (cache & -> & Hk & Hn & _ & Hl).
        split.
        * rewrite fmap_app. apply NoDup_app. split; [assumption|].
          split; [|apply NoDup_singleton].
          intros x Hx Hin. apply list_elem_of_singleton in Hin. by subst.
        * rewrite length_app. cbn [List.length]. lia. }
  destruct res as [o d1|cmd d1].
  - by intros [= _ <-].
  - intros [= H]. destruct (try_execute_frame d1 cmd) as (Hc & _).
    rewrite H in Hc. cbn in Hc. by rewrite Hc.
Qed.


(** X12. A call of [query] with parameters does not change the
    cache of parsed statements. *)
Theorem query_with_parameters_leaves_cache (fuel : nat) (d d' : db)
    (queryString : string) (ps : object value) (r : res output) :
  query fuel d queryString (Some ps) = Some (r, d') ->
  queryCache d' = queryCache d.
Proof.
  unfold query. destruct (negb (pager d)).
  { by intros [= _ <-]. }
  destruct (resolve fuel d queryString (Some ps)) as [res|] eqn:E;
    [|discriminate].
  apply resolve_with_parameters in E as [[o ->]|[cmd ->]].
  - by intros [= _ <-].
  - intros [= H].
    destruct (try_execute_frame (with_cache d queryString (queryCache d)) cmd)
      as (Hc & _).
    rewrite H in Hc. exact Hc.
Qed.

Lemma try_execute_value d cmd :
  ∃ o d', try_execute d cmd = (Ok o, d').
Proof.
  destruct (try_execute_ok d cmd) as [o Ho].
  destruct (try_execute d cmd) as [r d']. cbn in Ho. subst. eauto.
Qed.

(** X30. With fuel beyond the number of the tokens, a call of [query]
    without parameters returns a value on every statement that does not
    begin with the keyword of a schema definition or of a stored
    procedure: it neither runs on without end nor raises. *)
Theorem query_returns_value (fuel : nat) (d : db) (queryString : string) :
  (List.length (tokenize queryString) < fuel)%nat ->
  (∀ t0, head (tokenize queryString) = Some t0 ->
         toUpperCase t0 <> "SERTIFIKASI" ∧ toUpperCase t0 <> "SIMPAN") ->
  ∃ o d', query fuel d queryString None = Some (Ok o, d').
Proof.
  intros Hf Hkey.
  assert (Hparse : ∃ cmd, parse fuel queryString None = Some cmd).
  { unfold parse, parse_tokens.
    destruct (tokenize queryString) as [|t0 rest]; [eexists; reflexivity|].
    destruct (Hkey t0 eq_refl) as [Hs Hp].
    destruct (dispatch_returns fuel (t0 :: rest) (toUpperCase t0) Hf Hs Hp)
      as [[cmd|m] ->]; cbn [comp_bind]; eexists; reflexivity. }
  destruct Hparse as [cmd Hparse].
  unfold query. destruct (negb (pager d)); [eauto|].
  unfold resolve. destruct (obj_get (queryCache d) queryString) as [cached|].
  - destruct (try_execute_value
                (with_cache d queryString
                   (cache_delete (queryCache d) queryString
                    ++ [(queryString, cached)])) cached) as (o & d' & ->).
    eauto.
  - rewrite Hparse.
    destruct cmd;
      try match goal with
          | |- context [try_execute ?d1 ?c] =>
              destruct (try_execute_value d1 c) as (o & d' & ->)
          end; eauto.
Qed.

End CacheFacts.

Section CacheExamples.
Import IntRuntime ExampleServices EngineRuns.

Lemma query_without_parameters_never_raises_witness :
  query 10 fresh_engine select_text None = Some (select_result, after_select)
  ∧ ∃ o, select_result = Ok o.
Proof.
  split; [reflexivity|].
  apply (query_without_parameters_never_raises 10 fresh_engine after_select
           select_text select_result).
  reflexivity.
Defined.

Lemma query_keeps_cache_bounded_witness :
  query 10 fresh_engine select_text None = Some (select_result, after_select)
  ∧ NoDup (queryCache after_select).*1
  ∧ List.length (queryCache after_select) <= queryCacheLimit.
Proof.
  split; [reflexivity|].
  apply (query_keeps_cache_bounded 10 fresh_engine after_select select_text None
           select_result).
  - apply NoDup_nil_2.
  - unfold queryCacheLimit. simpl. lia.
  - reflexivity.
Defined.


Lemma query_with_parameters_leaves_cache_witness :
  query 10 fresh_engine select_text (Some [])
  = Some (select_result, after_bound_select)
  ∧ queryCache after_bound_select = queryCache fresh_engine.
Proof.
  split; [reflexivity|].
  apply (query_with_parameters_leaves_cache 10 fresh_engine after_bound_select
           select_text [] select_result).
  reflexivity.
Defined.

Lemma query_returns_value_witness :
  (List.length (tokenize select_text) < 10)%nat
  ∧ ∃ o d', query 10 fresh_engine select_text None = Some (Ok o, d').
Proof.
  assert (H : (List.length (tokenize select_text) < 10)%nat)
    by (vm_compute; lia).
  split; [exact H|].
  apply (query_returns_value 10 fresh_engine select_text H).
  intros t0 Ht. vm_compute in Ht. injection Ht as <-.
  split; vm_compute; discriminate.
Defined.

End CacheExamples.

End EngineCacheFacts.

(** ** The databases of the front-end *)

Module ServerFrameFacts.
Import Str QueryParser Engine SawitServer SchemaManagerFacts.

Section FrameFacts.
Context `{RT : Runtime} `{ST : Stores} `{SV : !Services} `{HS : !Host}.

Lemma getOrCreateDatabase_frame (dbs dbs1 : databases) name d other :
  getOrCreateDatabase dbs name = Ok (d, dbs1) -> other <> name ->
  obj_get dbs1 other = obj_get dbs other.
Proof.
  unfold getOrCreateDatabase. destruct (obj_get dbs name) as [d0|].
  - by intros [= _ <-].
  - destruct (open_database name) as [d0|m]; cbn; [|discriminate].
    intros [= _ <-] Hne. by apply obj_get_set_neq.
Qed.


End FrameFacts.

Section FrameExamples.
Import IntRuntime ExampleServices ServerRuns.


End FrameExamples.

End ServerFrameFacts.

(** ** The indexes of a table *)

Module IndexListingFacts.
Import Str QueryParser IndexManager IndexSpec IndexListing.

Section ListingFacts.
Context `{RT : Runtime} `{SE : !StrictEquality}.
Context {summary : Type} (stats : index -> summary).

(** X14. Removing a row from the indexes is the update of the indexes
    with the row as the old one and no new one: [removeFromIndexes] and
    [updateIndexes] leave the same indexes. *)
Theorem removeFromIndexes_is_update (table : string) (r : row)
    (ix : indexes) :
  removeFromIndexes table r ix = updateIndexes table None (Some r) ix.
Proof.
  unfold removeFromIndexes, updateIndexes. apply map_ext. intros [key i].
  unfold update_index. cbn [fst snd].
  destruct (String.eqb (nth 0 (split_dot key) "") table); cbn [negb andb];
    [|reflexivity].
  by destruct (hasOwnProperty r (nth 1 (split_dot key) "undefined")).
Qed.

Lemma startsWith_key t f tableName :
  no_dot t = true -> no_dot tableName = true ->
  startsWith (index_key t f) (tableName ++ ".") = String.eqb t tableName.
Proof.
  unfold index_key. revert t.
  induction tableName as [|a tableName IH]; intros [|b t] Ht Hn.
  - by destruct f.
  - change (String b t ++ "." ++ f)%string
      with (String b (t ++ "." ++ f)%string).
    change ("" ++ ".")%string with ".".
    cbn [startsWith String.eqb no_dot] in *.
    destruct (ascii_dec "." b) as [<-|]; [discriminate|reflexivity].
  - change (String a tableName ++ ".")%string
      with (String a (tableName ++ ".")%string).
    change ("" ++ "." ++ f)%string with (String "." f).
    cbn [startsWith String.eqb no_dot] in *.
    destruct (ascii_dec a ".") as [->|]; [discriminate|reflexivity].
  - change (String b t ++ "." ++ f)%string
      with (String b (t ++ "." ++ f)%string).
    change (String a tableName ++ ".")%string
      with (String a (tableName ++ ".")%string).
    cbn [startsWith String.eqb no_dot] in *.
    apply andb_true_iff in Ht as [_ Ht]. apply andb_true_iff in Hn as [_ Hn].
    destruct (ascii_dec a b) as [->|Hne].
    + rewrite Ascii.eqb_refl. by apply IH.
    + destruct (Ascii.eqb_spec b a); [congruence|reflexivity].
Qed.

(** X15. For tables whose names have no dot, [listIndexes] lists the
    indexes that were created on the fields of the table, in the order of
    their creation, and no index of another table. *)
Theorem listIndexes_lists_table (tableName : string)
    (entries : list (string * string * index)) :
  no_dot tableName = true ->
  Forall (fun e => no_dot (fst (fst e)) = true) entries ->
  listIndexes stats tableName (keyed entries)
  = map (fun e => stats (snd e))
      (List.filter (fun e => String.eqb (fst (fst e)) tableName) entries).
Proof.
  intros Hn Hall. unfold listIndexes, keyed.
  induction Hall as [|[[t f] i] entries Ht Hall IH]; [reflexivity|].
  cbn [map List.filter fst snd] in *.
  rewrite (startsWith_key t f tableName Ht Hn).
  destruct (String.eqb t tableName); cbn [map]; by rewrite IH.
Qed.

End ListingFacts.

Section ListingExamples.
Import IntRuntime ExampleRuntime.

Lemma listIndexes_lists_table_witness :
  no_dot "t" = true
  ∧ listIndexes (@List.length _) "t"
      (keyed [("t", "id", []); ("tt", "id", []); ("t", "a.b", [])])
    = [0; 0].
Proof.
  split; [reflexivity|].
  refine (eq_trans
            (listIndexes_lists_table (@List.length _) "t"
               [("t", "id", []); ("tt", "id", []); ("t", "a.b", [])] _ _) _).
  - reflexivity.
  - repeat constructor.
  - reflexivity.
Defined.

End ListingExamples.

End IndexListingFacts.

(** ** The types of a schema *)

Module SchemaTypesFacts.
Import Str QueryParser Scan SchemaManager SchemaTypes SchemaManagerFacts.

Section TypesFacts.
Context `{RT : Runtime} `{CO : !Coercions}.

Lemma valid_type_known type :
  includes validTypes (toUpperCase type) = true ->
  includes ["TEKS"; "STRING"] (toUpperCase type)
  || includes ["ANGKA"; "NUMBER"] (toUpperCase type)
  || includes ["TANGGAL"; "DATE"] (toUpperCase type)
  || includes ["BENAR_SALAH"; "BOOLEAN"] (toUpperCase type) = true.
Proof.
  unfold includes, validTypes. cbn [existsb].
  generalize (toUpperCase type). intros u.
  destruct (String.eqb u "TEKS"), (String.eqb u "ANGKA"),
    (String.eqb u "TANGGAL"), (String.eqb u "BENAR_SALAH"),
    (String.eqb u "STRING"), (String.eqb u "NUMBER"),
    (String.eqb u "DATE"), (String.eqb u "BOOLEAN"); done.
Qed.

Lemma known_type_validates field v type :
  includes validTypes (toUpperCase type) = true ->
  _validateType field v (Some type) <> Throw (unknown_type type field).
Proof.
  intros H. apply valid_type_known in H. unfold _validateType, unknown_type.
  destruct (includes ["TEKS"; "STRING"] (toUpperCase type)).
  { destruct v; intros [= E]; cbv [String.append] in E; discriminate E. }
  destruct (includes ["ANGKA"; "NUMBER"] (toUpperCase type)).
  { destruct (to_number v); intros [= E]; cbv [String.append] in E;
      discriminate E. }
  destruct (includes ["TANGGAL"; "DATE"] (toUpperCase type)).
  { destruct (to_iso_date v); intros [= E]; cbv [String.append] in E;
      discriminate E. }
  destruct (includes ["BENAR_SALAH"; "BOOLEAN"] (toUpperCase type));
    [|discriminate H].
  destruct v; repeat case_match; intros [= E]; cbv [String.append] in E;
    discriminate E.
Qed.

Lemma check_types_spec schemaDefinition field config :
  check_types schemaDefinition = Ok tt ->
  (field, config) ∈ schemaDefinition ->
  ∃ type, fc_type config = Some type
    ∧ includes validTypes (toUpperCase type) = true.
Proof.
  induction schemaDefinition as [|[f c] rest IH]; intros Hc Hin.
  - inversion Hin.
  - cbn [check_types] in Hc. unfold _isValidType in Hc.
    destruct (fc_type c) as [type|] eqn:Ht; [|discriminate Hc].
    cbn [res_bind] in Hc.
    destruct (includes validTypes (toUpperCase type)) eqn:Hv;
      [|discriminate Hc].
    apply elem_of_cons in Hin as [[= -> ->]|Hin]; eauto.
Qed.

(** X16. The types that [defineSchema] accepts are types that the
    validation knows: in a schema that passes the check of
    [defineSchema] every field has a type, and [_validateType] never
    fails on a field of the schema for an unknown type, whatever the
    value. *)
Theorem defined_schema_has_known_types
    (schemaDefinition : object field_config) (field : string)
    (config : field_config) :
  check_types schemaDefinition = Ok tt ->
  (field, config) ∈ schemaDefinition ->
  ∃ type, fc_type config = Some type
    ∧ ∀ v, _validateType field v (fc_type config)
           <> Throw (unknown_type type field).
Proof.
  intros Hc Hin.
  destruct (check_types_spec _ _ _ Hc Hin) as (type & Ht & Hv).
  exists type. split; [assumption|]. intros v. rewrite Ht.
  by apply known_type_validates.
Qed.

(** X17. A type that [defineSchema] refuses is a type that the
    validation does not know: [_validateType] fails on it for every
    value. *)
Theorem refused_type_is_unknown (type field : string) (v : value) :
  _isValidType (Some type) = Ok false ->
  _validateType field v (Some type) = Throw (unknown_type type field).
Proof.
  unfold _isValidType, _validateType, validTypes, includes. cbn [existsb].
  generalize (toUpperCase type). intros u [= H].
  destruct (String.eqb u "TEKS"), (String.eqb u "ANGKA"),
    (String.eqb u "TANGGAL"), (String.eqb u "BENAR_SALAH"),
    (String.eqb u "STRING"), (String.eqb u "NUMBER"),
    (String.eqb u "DATE"), (String.eqb u "BOOLEAN"); done.
Qed.

End TypesFacts.

Section TypesExamples.
Import IntRuntime ExampleRuntime SchemaExamples.

Lemma defined_schema_has_known_types_witness :
  check_types example_schema = Ok tt
  ∧ ∃ type,
      Some "BOOLEAN" = Some type
      ∧ ∀ v, _validateType "active" v (Some "BOOLEAN")
             <> Throw (unknown_type type "active").
Proof.
  split; [reflexivity|].
  apply (defined_schema_has_known_types example_schema "active"
           {| fc_type := Some "BOOLEAN"; fc_required := false;
              fc_default := None |}).
  - reflexivity.
  - apply list_elem_of_further, list_elem_of_here.
Defined.

Lemma refused_type_is_unknown_witness :
  _isValidType (Some "INTEGER") = Ok false
  ∧ _validateType "age" example_age (Some "INTEGER")
    = Throw (unknown_type "INTEGER" "age").
Proof.
  split; [reflexivity|].
  apply (refused_type_is_unknown "INTEGER" "age" example_age). reflexivity.
Defined.


Lemma validateData_required_witness :
  ∃ message,
    validateData [("t", example_schema)] "t" [("active", VBool true)]
    = Throw message.
Proof.
  apply (validateData_required [("t", example_schema)] "t" example_schema
           [("active", VBool true)] "name"
           {| fc_type := Some "teks"; fc_required := true;
              fc_default := None |}).
  - reflexivity.
  - apply list_elem_of_here.
  - reflexivity.
  - reflexivity.
Defined.

End TypesExamples.

End SchemaTypesFacts.

(** ** The wildcards of LIKE *)

Module WildcardsFacts.
Import Str QueryParser RegExp Scan Wildcards.

Lemma chars_app (s t : string) :
  list_ascii_of_string (s ++ t)
  = list_ascii_of_string s ++ list_ascii_of_string t.
Proof.
  induction s as [|c s IH]; [reflexivity|].
  change (String c s ++ t)%string with (String c (s ++ t)%string).
  cbn [list_ascii_of_string]. by rewrite IH.
Qed.

Lemma like_pattern_cons c p :
  like_pattern (String c p)
  = if Nat.eqb (code c) 37 then (".*" ++ like_pattern p)%string
    else if Nat.eqb (code c) 95 then ("." ++ like_pattern p)%string
    else String c (like_pattern p).
Proof.
  unfold like_pattern. cbn [replace_all].
  change (code "%") with 37. change (code "_") with 95.
  destruct (Nat.eqb (code c) 37); [reflexivity|].
  cbn [replace_all]. change (code "_") with 95.
  by destruct (Nat.eqb (code c) 95).
Qed.

Lemma not_meta c :
  is_meta c = false ->
  Nat.eqb (code c) 42 = false ∧ Nat.eqb (code c) 46 = false
  ∧ Nat.eqb (code c) 36 = false.
Proof.
  unfold is_meta, metachars. cbn [existsb]. intros H.
  repeat (apply orb_false_iff in H as [? H]). auto.
Qed.

(** The source of the pattern does not begin with a star. *)
Lemma like_source_head p :
  plain_pattern p = true ->
  ∃ d rest, list_ascii_of_string (like_pattern p ++ "$") = d :: rest
    ∧ Nat.eqb (code d) 42 = false.
Proof.
  destruct p as [|c p]; intros H.
  - by exists "$"%char, [].
  - unfold plain_pattern in H. cbn [list_ascii_of_string forallb] in H.
    apply andb_true_iff in H as [Hc _]. apply negb_true_iff in Hc.
    destruct (not_meta c Hc) as (Hstar & _).
    rewrite like_pattern_cons.
    destruct (Nat.eqb (code c) 37); [|destruct (Nat.eqb (code c) 95)].
    + by eexists _, _.
    + by eexists _, _.
    + by eexists _, _.
Qed.

Lemma compile_items_cons c d cs :
  compile_items (c :: d :: cs)
  = match atom_of c with
    | None => None
    | Some a =>
        if Nat.eqb (code d) 42
        then cons (Star a) <$> compile_items cs
        else cons (One a) <$> compile_items (d :: cs)
    end.
Proof. reflexivity. Qed.

Lemma compile_items_like p :
  plain_pattern p = true ->
  compile_items (list_ascii_of_string (like_pattern p ++ "$"))
  = Some (items_of (list_ascii_of_string p)).
Proof.
  induction p as [|c p IH]; intros H; [reflexivity|].
  assert (Hp : plain_pattern p = true).
  { unfold plain_pattern in *. cbn [list_ascii_of_string forallb] in H.
    by apply andb_true_iff in H as [_ H]. }
  assert (Hc : is_meta c = false).
  { unfold plain_pattern in H. cbn [list_ascii_of_string forallb] in H.
    apply andb_true_iff in H as [H _]. by apply negb_true_iff in H. }
  destruct (not_meta c Hc) as (Hstar & Hdot & Hdollar).
  destruct (like_source_head p Hp) as (d & rest & Hd & Hds).
  specialize (IH Hp). rewrite like_pattern_cons.
  cbn [list_ascii_of_string items_of].
  destruct (Nat.eqb (code c) 37) eqn:H37.
  - change ((".*" ++ like_pattern p) ++ "$")%string
      with (String "." (String "*" (like_pattern p ++ "$"))).
    cbn [list_ascii_of_string]. rewrite compile_items_cons.
    change (atom_of ".") with (Some AnyChar). change (code "*") with 42.
    cbn [Nat.eqb]. by rewrite IH.
  - destruct (Nat.eqb (code c) 95) eqn:H95.
    + change (("." ++ like_pattern p) ++ "$")%string
        with (String "." (like_pattern p ++ "$")).
      cbn [list_ascii_of_string]. rewrite Hd in *.
      rewrite compile_items_cons. change (atom_of ".") with (Some AnyChar).
      rewrite Hds. by rewrite IH.
    + change (String c (like_pattern p) ++ "$")%string
        with (String c (like_pattern p ++ "$")).
      cbn [list_ascii_of_string]. rewrite Hd in *.
      rewrite compile_items_cons. unfold atom_of. rewrite Hdot, Hc, Hds.
      by rewrite IH.
Qed.

Lemma match_items_like pattern : ∀ s,
  forallb (fun c => negb (is_line_terminator c)) s = true ->
  match_items (items_of pattern) s = like_spec pattern s.
Proof.
  induction pattern as [|p pattern IH]; intros s Hs; [reflexivity|].
  cbn [items_of like_spec].
  destruct (Nat.eqb (code p) 37).
  - cbn [match_items]. induction s as [|c s IHs].
    + simpl. by rewrite IH.
    + pose proof Hs as Hcs. cbn [forallb] in Hs.
      apply andb_true_iff in Hs as [Hc Hs'].
      specialize (IHs Hs'). simpl. simpl in IHs.
      rewrite (IH (c :: s) Hcs), Hc, IHs. reflexivity.
  - destruct (Nat.eqb (code p) 95); cbn [match_items orb].
    + destruct s as [|c s]; [reflexivity|].
      cbn [forallb] in Hs. apply andb_true_iff in Hs as [Hc Hs'].
      cbn [atom_matches]. rewrite Hc. by rewrite IH.
    + destruct s as [|c s]; [reflexivity|].
      cbn [forallb] in Hs. apply andb_true_iff in Hs as [Hc Hs'].
      cbn [atom_matches]. by rewrite IH.
Qed.

Section LikeCase.
Context `{RT : Runtime}.

(** X20. On a pattern without syntax characters of regular expressions
    and a value whose text has no line terminator, the LIKE of the scan
    is the match with wildcards: percent stands for any sequence of
    characters, underscore for any one character and every other
    character for itself, without regard to case. *)
Theorem like_case_is_wildcard_match (p : string) (val : value) :
  plain_pattern p = true -> one_line (to_String val) = true ->
  like_case (VStr p) val = Some (Ok (like p (to_String val))).
Proof.
  intros Hp Hs. unfold like_case, compile.
  change ("^" ++ like_pattern p ++ "$")%string
    with (String "^" (like_pattern p ++ "$")).
  cbn [list_ascii_of_string]. change (code "^") with 94. cbn [Nat.eqb].
  rewrite (compile_items_like p Hp). unfold test, like.
  by rewrite (match_items_like _ _ Hs).
Qed.

End LikeCase.

Section LikeCaseExamples.
Import IntRuntime.

Lemma like_case_is_wildcard_match_witness :
  plain_pattern "Ten%_a" = true ∧ one_line "tenera" = true
  ∧ like_case (VStr "Ten%_a") (VStr "tenera") = Some (Ok true).
Proof.
  split; [reflexivity|]. split; [reflexivity|].
  refine (eq_trans
            (like_case_is_wildcard_match "Ten%_a" (VStr "tenera") _ _) _);
    reflexivity.
Defined.

End LikeCaseExamples.

End WildcardsFacts.

(** ** The key of a statement in the statistics *)

Module StatsManagerFacts.
Import StatsManager.

Local Open Scope Z_scope.

Lemma to_int32_mod z : to_int32 z mod 2 ^ 32 = z mod 2 ^ 32.
Proof.
  unfold to_int32. destruct (2 ^ 31 <=? z mod 2 ^ 32).
  - rewrite <- (Z.mod_add _ 1) by lia.
    replace (z mod 2 ^ 32 - 2 ^ 32 + 1 * 2 ^ 32) with (z mod 2 ^ 32) by lia.
    apply Z.mod_mod. lia.
  - apply Z.mod_mod. lia.
Qed.

Lemma to_int32_ext x y : x mod 2 ^ 32 = y mod 2 ^ 32 -> to_int32 x = to_int32 y.
Proof. unfold to_int32. by intros ->. Qed.

Lemma to_int32_range z : - 2 ^ 31 <= to_int32 z < 2 ^ 31.
Proof.
  unfold to_int32. pose proof (Z.mod_pos_bound z (2 ^ 32) ltac:(lia)).
  destruct (Z.leb_spec (2 ^ 31) (z mod 2 ^ 32)); lia.
Qed.

Lemma to_int32_idem z : to_int32 (to_int32 z) = to_int32 z.
Proof. apply to_int32_ext, to_int32_mod. Qed.

Lemma band_diag x : band x x = to_int32 x.
Proof. unfold band. rewrite Z.land_diag. apply to_int32_idem. Qed.

Lemma hash_step h0 c :
  band (shl (to_int32 h0) 5 - to_int32 h0 + charCode c)
       (shl (to_int32 h0) 5 - to_int32 h0 + charCode c)
  = to_int32 (poly31 h0 c).
Proof.
  rewrite band_diag. apply to_int32_ext. unfold shl, poly31.
  rewrite to_int32_idem, Z.shiftl_mul_pow2 by lia.
  rewrite Z.add_mod, Zminus_mod, to_int32_mod by lia.
  rewrite (Z.mul_mod (to_int32 h0)), !to_int32_mod by lia.
  rewrite <- (Z.mul_mod h0), <- Zminus_mod, <- Z.add_mod by lia.
  f_equal. lia.
Qed.

Lemma hash_loop_fold query : ∀ h0,
  hash_loop query (to_int32 h0) = to_int32 (fold_left poly31 query h0).
Proof.
  induction query as [|c query IH]; intros h0; [reflexivity|].
  cbn [hash_loop fold_left]. rewrite hash_step. apply IH.
Qed.

Lemma hash_value_fold query :
  hash_value query
  = to_int32 (fold_left poly31 (list_ascii_of_string query) 0).
Proof. unfold hash_value. apply (hash_loop_fold _ 0). Qed.

Lemma chars_append (s t : string) :
  list_ascii_of_string (s ++ t)%string
  = (list_ascii_of_string s ++ list_ascii_of_string t)%list.
Proof.
  induction s as [|c s IH]; [reflexivity|].
  change (String c s ++ t)%string with (String c (s ++ t)%string).
  cbn [list_ascii_of_string]. by rewrite IH.
Qed.

(** X21. The number that [_hashQuery] writes in base 36 is the
    polynomial hash of the code units of the statement with the
    multiplier 31, reduced to a signed integer of 32 bits. *)
Theorem hashQuery_is_polynomial (query : string) :
  hash_value query
  = to_int32 (fold_left poly31 (list_ascii_of_string query) 0)
  ∧ - 2 ^ 31 <= hash_value query < 2 ^ 31.
Proof.
  rewrite hash_value_fold. split; [reflexivity|]. apply to_int32_range.
Qed.

(** X22. Statements that differ get the same key: with [Aa] in the place
    of [BB], anywhere in a statement, the key is the same, so that the
    statistics count the two statements as one. *)
Theorem hashQuery_collides (before after : string) :
  _hashQuery (before ++ "Aa" ++ after) = _hashQuery (before ++ "BB" ++ after)
  ∧ (before ++ "Aa" ++ after)%string <> (before ++ "BB" ++ after)%string.
Proof.
  split.
  - unfold _hashQuery. f_equal. rewrite !hash_value_fold, !chars_append.
    rewrite !fold_left_app. f_equal. f_equal.
    cbn [list_ascii_of_string fold_left]. unfold poly31, charCode.
    change (Z.of_nat (nat_of_ascii "A")) with 65.
    change (Z.of_nat (nat_of_ascii "a")) with 97.
    change (Z.of_nat (nat_of_ascii "B")) with 66. lia.
  - induction before as [|c before IH].
    + discriminate.
    + change (String c before ++ ?x)%string with (String c (before ++ x)%string).
      intros [= H]. by apply IH.
Qed.

End StatsManagerFacts.

(** ** Parameter binding *)

Module BindingFacts.
Import Str QueryParser CommandShape.

Section ShapeFacts.
Context `{RT : Runtime}.

Lemma bind_node_shape params : ∀ n n',
  _info_bindCriteria params n = Ok n' -> node_shape n' = node_shape n.
Proof.
  fix IH 1. intros [key op val|op|logic conditions] n' H.
  - destruct val; injection H as <-; reflexivity.
  - injection H as <-. reflexivity.
  - cbn [_info_bindCriteria] in H.
    match type of H with
    | res_bind (?go conditions) _ = _ => set (go_ := go) in H
    end.
    assert (Hgo : ∀ l', go_ conditions = Ok l' ->
              map (option_map node_shape) l'
              = map (option_map node_shape) conditions).
    { clear H. induction conditions as [|[c|] conditions IHc]; intros l' H.
      - injection H as <-. reflexivity.
      - cbn in H. destruct (_info_bindCriteria params c) as [c'|] eqn:Ec;
          [|discriminate H]. cbn [res_bind] in H.
        destruct (go_ conditions) as [l''|] eqn:El; [|discriminate H].
        injection H as <-. cbn [map option_map].
        by rewrite (IH c c' Ec), (IHc l'' eq_refl).
      - discriminate H. }
    destruct (go_ conditions) as [l'|]; [|discriminate H].
    injection H as <-. cbn [node_shape]. by rewrite (Hgo l' eq_refl).
Qed.

Lemma bind_criteria_shape params criteria criteria' :
  bind_criteria params criteria = Ok criteria' ->
  option_map node_shape criteria' = option_map node_shape criteria.
Proof.
  destruct criteria as [c|]; cbn.
  - destruct (_info_bindCriteria params c) as [c'|] eqn:E; [|discriminate].
    intros [= <-]. cbn. by rewrite (bind_node_shape _ _ _ E).
  - by intros [= <-].
Qed.

Lemma bind_object_shape params o :
  object_shape (bind_object params o) = object_shape o.
Proof.
  unfold object_shape, bind_object. rewrite map_map. by apply map_ext.
Qed.


End ShapeFacts.

Section ShapeExamples.
Import IntRuntime BindingExamples.


End ShapeExamples.

End BindingFacts.

(** ** The load balancer of the threads *)

Module ThreadManagerFacts.
Import Str QueryParser ThreadManager.

Lemma connections_from n k : ∀ cur,
  0 < n -> cur < n ->
  connections k {| workers := n; curWorker := Some cur |}
  = map (fun i => Ok ((cur + i) mod n)) (seq 0 k).
Proof.
  induction k as [|k IH]; intros cur Hn Hcur; [reflexivity|].
  cbn [connections on_connection workers curWorker seq map].
  destruct (Nat.eqb_spec n 0) as [->|_]; [lia|].
  destruct (Nat.ltb_spec cur n) as [_|]; [|lia].
  rewrite Nat.add_0_r, (Nat.mod_small cur n) by assumption. f_equal.
  rewrite IH by (try assumption; apply Nat.mod_upper_bound; lia).
  rewrite <- seq_shift, map_map. apply map_ext. intros i.
  rewrite Nat.Div0.add_mod_idemp_l. do 2 f_equal. lia.
Qed.



End ThreadManagerFacts.

(** ** Authentication *)

Module AuthenticationFacts.
Import Str QueryParser Buffer DatabaseRegistry Authentication.

Section PasswordFacts.
Context `{CR : Crypto}.

Lemma split_on_nonempty sep s : split_on sep s <> [].
Proof.
  destruct s as [|c s]; cbn; [discriminate|].
  destruct (Ascii.eqb c sep); [discriminate|].
  destruct (split_on sep s); discriminate.
Qed.

Lemma contains_colon_cons c s :
  contains (String c s) ":" = Ascii.eqb c ":" || contains s ":".
Proof.
  cbn [contains startsWith].
  destruct (ascii_dec ":" c) as [<-|Hne].
  - by destruct s.
  - destruct (Ascii.eqb_spec c ":"); [congruence|reflexivity].
Qed.

Lemma split_on_colon_free s : contains s ":" = false -> split_on ":" s = [s].
Proof.
  induction s as [|c s IH]; [reflexivity|].
  rewrite contains_colon_cons. intros H. apply orb_false_iff in H as [Hc Hs].
  cbn [split_on]. by rewrite Hc, (IH Hs).
Qed.

Lemma split_on_colon salt rest :
  contains salt ":" = false ->
  split_on ":" (salt ++ ":" ++ rest) = salt :: split_on ":" rest.
Proof.
  induction salt as [|c salt IH]; intros H; [reflexivity|].
  rewrite contains_colon_cons in H. apply orb_false_iff in H as [Hc Hs].
  change (String c salt ++ ":" ++ rest)%string
    with (String c (salt ++ ":" ++ rest)%string).
  cbn [split_on]. by rewrite Hc, (IH Hs).
Qed.

Lemma contains_colon_app salt rest :
  contains (salt ++ ":" ++ rest) ":" = true.
Proof.
  induction salt as [|c salt IH].
  - by destruct rest.
  - change (String c salt ++ ":" ++ rest)%string
      with (String c (salt ++ ":" ++ rest)%string).
    rewrite contains_colon_cons, IH. apply orb_true_r.
Qed.

(** X26. A password is verified against its own hash: for a salt that
    is not empty and holds no colon, and a digest that holds no colon,
    as a hexadecimal text does, [verifyPassword] accepts the password
    against what [hashPassword] made of it. *)
Theorem verifyPassword_accepts_hashPassword (password salt : string) :
  salt <> EmptyString -> contains salt ":" = false ->
  contains (sha256_hex (salt ++ password)) ":" = false ->
  verifyPassword password (hashPassword password (Some salt)) = true.
Proof.
  intros Hne Hsalt Hhex.
  assert (Hhash : hashPassword password (Some salt)
                  = (salt ++ ":" ++ sha256_hex (salt ++ password))%string).
  { unfold hashPassword. by destruct salt. }
  rewrite Hhash. unfold verifyPassword. rewrite contains_colon_app.
  rewrite (split_on_colon _ _ Hsalt), (split_on_colon_free _ Hhex).
  unfold timingSafeEqual. rewrite Nat.eqb_refl. cbn [or_false].
  by apply bool_decide_eq_true.
Qed.

Lemma length_nuls n : String.length (nuls n) = n.
Proof. induction n as [|n IH]; cbn; [reflexivity|]. by rewrite IH. Qed.

Lemma length_append (s t : string) :
  String.length (s ++ t) = String.length s + String.length t.
Proof.
  induction s as [|c s IH]; [reflexivity|].
  change (String c s ++ t)%string with (String c (s ++ t)%string).
  cbn [String.length]. by rewrite IH.
Qed.

Lemma append_nil_r s : (s ++ "")%string = s.
Proof.
  induction s as [|c s IH]; [reflexivity|].
  change (String c s ++ "")%string with (String c (s ++ "")%string).
  by rewrite IH.
Qed.

Lemma append_inv_l s t u : (s ++ t)%string = (s ++ u)%string -> t = u.
Proof.
  induction s as [|c s IH]; [done|].
  change (String c s ++ ?x)%string with (String c (s ++ x)%string).
  intros [= H]. by apply IH.
Qed.

Lemma nuls_inj n m : nuls n = nuls m -> n = m.
Proof. intros H. apply (f_equal String.length) in H. by rewrite !length_nuls in H. Qed.

Lemma from_inj s t : from s = from t -> s = t.
Proof.
  unfold from. intros H. apply (f_equal string_of_list_byte) in H.
  by rewrite !string_of_list_byte_of_string in H.
Qed.

Lemma legacy_verify password storedHash :
  contains storedHash ":" = false ->
  verifyPassword password storedHash
  = bool_decide
      (padEnd password
         (Nat.max (String.length password) (String.length storedHash))
       = padEnd storedHash
           (Nat.max (String.length password) (String.length storedHash))).
Proof.
  intros H. unfold verifyPassword. rewrite H. unfold timingSafeEqual.
  set (a := padEnd password _). set (b := padEnd storedHash _).
  destruct (Nat.eqb (List.length (from a)) (List.length (from b))) eqn:El;
    cbn [or_false].
  - apply bool_decide_ext. split; [apply from_inj|by intros ->].
  - symmetry. apply bool_decide_eq_false. intros Hab. rewrite Hab in El.
    by rewrite Nat.eqb_refl in El.
Qed.

(** X27. For a stored password without a colon, which is compared as
    plain text, [verifyPassword] accepts the stored password itself, and
    accepts nothing but the stored password up to characters of code
    zero at the end of one of the two. *)
Theorem verifyPassword_plain_text (password storedHash : string) :
  contains storedHash ":" = false ->
  verifyPassword password storedHash = true
  <-> ∃ k, password = (storedHash ++ nuls k)%string
           ∨ storedHash = (password ++ nuls k)%string.
Proof.
  intros Hc. rewrite (legacy_verify _ _ Hc), bool_decide_eq_true.
  unfold padEnd. split.
  - intros H.
    destruct (Nat.le_ge_cases (String.length password) (String.length storedHash))
      as [Hle|Hle].
    + rewrite (Nat.max_r _ _ Hle), Nat.sub_diag in H. cbn [nuls] in H.
      rewrite append_nil_r in H. eauto.
    + rewrite (Nat.max_l _ _ Hle), Nat.sub_diag in H. cbn [nuls] in H.
      rewrite append_nil_r in H. eauto.
  - intros [k [->| ->]]; rewrite length_append, length_nuls.
    + rewrite Nat.max_l by lia. rewrite Nat.sub_diag. cbn [nuls].
      rewrite append_nil_r. f_equal. f_equal. lia.
    + rewrite Nat.max_r by lia. rewrite Nat.sub_diag. cbn [nuls].
      rewrite append_nil_r. f_equal. f_equal. lia.
Qed.

(** *** The requests of a connection *)

Lemma handleAuth_authenticated users r authenticated answer authenticated' :
  handleAuth (Some users) r authenticated = (answer, authenticated') ->
  type r = "auth" ->
  authenticated' = true -> authenticated = true ∨ authenticates users r.
Proof.
  unfold handleAuth. intros H Ht Ha.
  destruct (obj_get users (username r)) as [[|c s]|] eqn:Hu.
  - injection H as _ <-. auto.
  - destruct (verifyPassword (password r) (String c s)) eqn:Hv;
      injection H as _ <-; [|auto].
    right. split; [assumption|]. eauto.
  - destruct (includes SchemaManager.prototype_keys (username r));
      injection H as _ <-; auto.
Qed.

Lemma handleRequest_authenticated users r authenticated answer authenticated' :
  handleRequest (Some users) r authenticated = (answer, authenticated') ->
  authenticated' = true -> authenticated = true ∨ authenticates users r.
Proof.
  unfold handleRequest. cbn [has_accounts andb].
  destruct (String.eqb_spec (type r) "auth") as [Ht|Ht]; cbn [negb].
  - rewrite andb_false_r. intros H Ha.
    by apply (handleAuth_authenticated _ _ _ _ _ H Ht Ha).
  - rewrite andb_true_r.
    destruct authenticated; cbn [negb]; [auto|].
    intros [= _ <-]. discriminate.
Qed.

Lemma handleRequest_handled users r authenticated type_ authenticated' :
  handleRequest (Some users) r authenticated
  = (handled_by type_, authenticated') ->
  authenticated = true.
Proof.
  unfold handleRequest, handleAuth. cbn [has_accounts andb].
  destruct (String.eqb_spec (type r) "auth") as [Ht|Ht]; cbn [negb].
  - rewrite andb_false_r.
    destruct (obj_get users (username r)) as [[|c s]|]; [discriminate| |].
    + by destruct (verifyPassword (password r) (String c s)).
    + by destruct (includes SchemaManager.prototype_keys (username r)).
  - rewrite andb_true_r. destruct authenticated; cbn [negb]; [done|].
    discriminate.
Qed.

Lemma serve_handled users rs : ∀ authenticated i type_,
  serve (Some users) rs authenticated !! i = Some (handled_by type_) ->
  authenticated = true
  ∨ ∃ j r, j < i ∧ rs !! j = Some r ∧ authenticates users r.
Proof.
  induction rs as [|r rs IH]; intros authenticated i type_ H; [done|].
  cbn [serve] in H.
  destruct (handleRequest (Some users) r authenticated)
    as [answer authenticated'] eqn:E.
  destruct i as [|i]; cbn in H.
  - injection H as ->. left. by apply handleRequest_handled in E.
  - apply IH in H as [->|(j & r' & Hj & Hr & Ha)].
    + destruct (handleRequest_authenticated _ _ _ _ _ E eq_refl) as [?|Ha];
        [auto|].
      right. exists 0, r. split; [lia|]. split; [reflexivity|assumption].
    + right. exists (S j), r'. split; [lia|]. split; assumption.
Qed.

(** X28. On a server with accounts, a request reaches the handler of
    its type only after an authentication on the same connection: an
    earlier request of the connection is of the type auth and carries
    the name of an account together with a password that
    [verifyPassword] accepts for it. *)
Theorem handler_needs_authentication (users : accounts)
    (rs : list request) (i : nat) (type_ : string) :
  session (Some users) rs !! i = Some (handled_by type_) ->
  ∃ j r, j < i ∧ rs !! j = Some r ∧ authenticates users r.
Proof.
  unfold session. cbn [has_accounts negb]. intros H.
  by apply serve_handled in H as [?|?].
Qed.

End PasswordFacts.

Section PasswordExamples.
#[local] Existing Instance example_crypto.

Lemma verifyPassword_accepts_hashPassword_witness :
  "a1" <> EmptyString ∧ contains "a1" ":" = false
  ∧ verifyPassword "sawit" (hashPassword "sawit" (Some "a1")) = true.
Proof.
  split; [discriminate|]. split; [reflexivity|].
  apply (verifyPassword_accepts_hashPassword "sawit" "a1");
    [discriminate|reflexivity|reflexivity].
Defined.

Lemma verifyPassword_plain_text_witness :
  contains "sawit" ":" = false
  ∧ verifyPassword (String "s" (String "a" (nuls 2))) "sa" = true.
Proof.
  split; [reflexivity|].
  apply (proj2 (verifyPassword_plain_text
                  (String "s" (String "a" (nuls 2))) "sa" eq_refl)).
  exists 2. left. reflexivity.
Defined.

Lemma handler_needs_authentication_witness :
  session (Some example_accounts) example_requests
  = [error_frame "Authentication required";
     auth_success "Authentication successful"; handled_by "query"]
  ∧ ∃ j r, j < 2 ∧ example_requests !! j = Some r
      ∧ authenticates example_accounts r.
Proof.
  split; [reflexivity|].
  apply (handler_needs_authentication example_accounts example_requests 2
           "query").
  reflexivity.
Defined.

End PasswordExamples.

End AuthenticationFacts.

(** ** Runs of the insertion *)

Module InsertRunsFacts.
Import Str QueryParser Buffer Pager TableManager IndexManager InsertExecutor
       InsertExecutorFacts IntRuntime ExampleRuntime InsertRuns.

Lemma insert_row_fits_witness :
  List.length (pData first_turn) = PAGE_SIZE
  ∧ ∃ c', insert_row "t" first_turn row_1 = Ok c'
      ∧ currentPageId c' = 1
      ∧ freeOffset c' = 8 + 2 + List.length (from (JSON.stringify row_1))
      ∧ count c' = 1.
Proof.
  split; [reflexivity|].
  destruct (insert_row_fits "t" first_turn row_1)
    as (c' & Hc & Hid & _ & _ & _ & Hfree & Hcount).
  - reflexivity.
  - apply Nat.leb_le. vm_compute. reflexivity.
  - exists c'. split; [exact Hc|]. split; [exact Hid|].
    split; [exact Hfree|exact Hcount].
Defined.

End InsertRunsFacts.
